(** * beautiful-mermaid: layout of C4 and ArchiMate diagrams

    A shallow embedding of [src/styles.ts] (text metrics),
    [src/c4/layout.ts] (C4 layout) and the layout half of
    [src/archimate/renderer.ts] (ArchiMate layout), together with the
    properties the specification states about them.

    Modelling conventions.
    - A JavaScript [number] is an exact rational ([Q]): no rounding, no
      [NaN], no infinities.  [Math.max]/[Math.min] are [Qmax]/[Qmin].
    - A JavaScript string that is measured is the list of its UTF-16 code
      units; identifiers and error messages, which are only compared and
      concatenated, are [string]s.
    - A thrown exception is the left injection of a sum, carrying the
      message of the [Error].
    - The graph library (graphlib's [Graph], dagre's [layout]) is not part
      of the repository.  The graph container is modelled after the
      library, edges being told apart by the key the library stores them
      under; the layout algorithm is a parameter. *)

From Stdlib Require Import QArith Qminmax Qround Lqa ZArith Lia List Bool String Ascii.
From stdpp Require Import base option list gmap strings.
Import ListNotations.

Local Open Scope Q_scope.

(** ** Text metrics ([src/styles.ts]) *)

Module Styles.

(** A measured string: its UTF-16 code units. *)
Definition jsstring := list Z.

(** [char.charCodeAt(0)]; [NaN] for the empty string compares false with
    every bound, which [-1] reproduces for the range tests below. *)
Definition charCodeAt0 (char : jsstring) : Z :=
  match char with
  | [] => (-1)%Z
  | c :: _ => c
  end.

Definition in_range (lo hi code : Z) : bool :=
  (lo <=? code)%Z && (code <=? hi)%Z.

Definition isFullWidth (char : jsstring) : bool :=
  let code := charCodeAt0 char in
  in_range 0x1100 0x11ff code ||
  in_range 0x3000 0x303f code ||
  in_range 0x3040 0x309f code ||
  in_range 0x30a0 0x30ff code ||
  in_range 0x3130 0x318f code ||
  in_range 0x4e00 0x9fff code ||
  in_range 0xac00 0xd7af code ||
  in_range 0xff00 0xffef code.

Definition isLeadSurrogate (c : Z) : bool := in_range 0xd800 0xdbff c.
Definition isTrailSurrogate (c : Z) : bool := in_range 0xdc00 0xdfff c.

(** The string iterator behind [for (const char of text)]: one item per
    code point, a surrogate pair being one item of two code units and an
    unpaired surrogate an item of its own. *)
Fixpoint chars (text : jsstring) : list jsstring :=
  match text with
  | [] => []
  | c :: rest =>
      match rest with
      | d :: rest' =>
          if isLeadSurrogate c && isTrailSurrogate d
          then [c; d] :: chars rest'
          else [c] :: chars rest
      | [] => [[c]]
      end
  end.

Definition charColumns (char : jsstring) : Z :=
  if isFullWidth char then 2%Z else 1%Z.

Definition getDisplayWidth (text : jsstring) : Z :=
  fold_left (fun width char => (width + charColumns char)%Z) (chars text) 0%Z.

Definition widthRatio (fontWeight : Q) : Q :=
  if Qle_bool 600 fontWeight then 58 # 100
  else if Qle_bool 500 fontWeight then 55 # 100
  else 52 # 100.

Definition estimateTextWidth (text : jsstring) (fontSize fontWeight : Q) : Q :=
  inject_Z (getDisplayWidth text) * fontSize * widthRatio fontWeight.

Definition FONT_SIZES_nodeLabel : Q := 13.
Definition FONT_SIZES_edgeLabel : Q := 11.
Definition FONT_WEIGHTS_nodeLabel : Q := 500.
Definition FONT_WEIGHTS_edgeLabel : Q := 400.

End Styles.

Import Styles.

(** ** The graph container (graphlib's [Graph], directed, not a multigraph)

    Modelled after the library: [setNode] creates or relabels a node;
    [setEdge v w l] relabels the edge stored under the key of [(v, w)]
    when there is one (the edge keeps its place in [edges()] and the end
    points it was created with) and otherwise creates the two end nodes
    when absent, with no label, and appends the edge.

    The library stores an edge under the string
    [v + EDGE_KEY_DELIM + w + EDGE_KEY_DELIM + DEFAULT_EDGE_NAME]
    ([edgeArgsToId]; the delimiter is the character U+0001 and the name
    of an edge without a name the character U+0000): two pairs of end
    points with the same key are one edge.  An identifier is held as the
    bytes of its UTF-8 form, in which the character U+0001 is the byte 1
    and no other character has that byte. *)

Module Graphlib.

Record GraphLabel := mkGraphLabel {
  rankdir : string;
  acyclicer : string;
  nodesep : Q;
  ranksep : Q;
  marginx : Q;
  marginy : Q
}.

Record Graph (N E : Type) := mkGraph {
  graph : GraphLabel;
  nodes : gmap string (option N);
  edgeList : list ((string * string) * E)
}.
Arguments mkGraph {N E}.
Arguments graph {N E}.
Arguments nodes {N E}.
Arguments edgeList {N E}.

(** The character U+0001 between the parts of an edge key, and U+0000,
    the name of an edge that has none. *)
Definition EDGE_KEY_DELIM : string := String "001"%char EmptyString.
Definition DEFAULT_EDGE_NAME : string := String "000"%char EmptyString.

(** [edgeArgsToId(isDirected, v, w, name)] of a directed graph, for an
    edge without a name. *)
Definition edgeArgsToId (v w : string) : string :=
  v +:+ EDGE_KEY_DELIM +:+ w +:+ EDGE_KEY_DELIM +:+ DEFAULT_EDGE_NAME.

(** Two pairs of end points are stored under the same key. *)
Definition sameEdge (e1 e2 : string * string) : bool :=
  bool_decide (edgeArgsToId (fst e1) (snd e1) = edgeArgsToId (fst e2) (snd e2)).

Section Ops.
Context {N E : Type}.

Definition newGraph (l : GraphLabel) : Graph N E := mkGraph l ∅ [].

Definition setNode (g : Graph N E) (v : string) (value : N) : Graph N E :=
  mkGraph (graph g) (<[v := Some value]> (nodes g)) (edgeList g).

(** [setNode(v)] without a value: a new node gets no label, an existing
    one is left alone. *)
Definition touchNode (ns : gmap string (option N)) (v : string)
  : gmap string (option N) :=
  match ns !! v with
  | Some _ => ns
  | None => <[v := None]> ns
  end.

(** [g.node(v)]: the label, [undefined] for no node or no label. *)
Definition node (g : Graph N E) (v : string) : option N :=
  match nodes g !! v with
  | Some l => l
  | None => None
  end.

(** [g.hasEdge(v, w)]: an edge is stored under the key of [(v, w)]. *)
Definition hasEdge (es : list ((string * string) * E)) (e : string * string) : bool :=
  existsb (fun x => sameEdge (fst x) e) es.

Definition relabel (es : list ((string * string) * E)) (e : string * string) (value : E)
  : list ((string * string) * E) :=
  map (fun x => if sameEdge (fst x) e then (fst x, value) else x) es.

Definition setEdge (g : Graph N E) (v w : string) (value : E) : Graph N E :=
  if hasEdge (edgeList g) (v, w)
  then mkGraph (graph g) (nodes g) (relabel (edgeList g) (v, w) value)
  else mkGraph (graph g) (touchNode (touchNode (nodes g) v) w)
               (edgeList g ++ [((v, w), value)]).

(** [g.edges()], in insertion order. *)
Definition edges (g : Graph N E) : list (string * string) := map fst (edgeList g).

End Ops.

End Graphlib.

Import Graphlib.

(** ** Points, and what dagre's [layout] leaves in the graph *)

Record Point := mkPoint { pt_x : Q; pt_y : Q }.

(** After a successful [dagre.layout(g)] every labelled node carries its
    centre [x], [y], an edge label may carry [points], and the graph label
    may carry [width] and [height].  Labels are otherwise untouched and no
    node or edge is added or removed. *)
Record Laid := mkLaid {
  laidNode : string -> Point;
  laidPoints : string * string -> option (list Point);
  laidWidth : option Q;
  laidHeight : option Q
}.

(** [a ?? b] *)
Definition orElse {A} (a : option A) (b : A) : A :=
  match a with Some x => x | None => b end.

(** ** The adapter ([src/dagre-adapter.ts]) *)

Module DagreAdapter.

(** A shape: centre and half extents. *)
Record NodeRect := mkNodeRect { cx : Q; cy : Q; hw : Q; hh : Q }.

(** Modelled from the spec: [centerToTopLeft] of [src/dagre-adapter.ts],
    whose file is not among the sources.  The spec gives it as exact
    arithmetic, [x = cx - w/2] and [y = cy - h/2]. *)
Definition centerToTopLeft (cx cy w h : Q) : Point :=
  mkPoint (cx - w / 2) (cy - h / 2).

Definition Qlt_bool (a b : Q) : bool := negb (Qle_bool b a).

(** Two points that share a coordinate span a horizontal or a vertical
    segment (or are the same point). *)
Definition aligned (p q : Point) : bool :=
  Qeq_bool (pt_x p) (pt_x q) || Qeq_bool (pt_y p) (pt_y q).

(** The one intermediate point of a bend: with [verticalFirst] the path
    first runs along the vertical (primary) axis, then horizontally. *)
Definition bend (verticalFirst : bool) (prev curr : Point) : Point :=
  if verticalFirst
  then mkPoint (pt_x prev) (pt_y curr)
  else mkPoint (pt_x curr) (pt_y prev).

Fixpoint snapFrom (verticalFirst : bool) (prev : Point) (rest : list Point)
  : list Point :=
  match rest with
  | [] => []
  | curr :: rest' =>
      if aligned prev curr
      then curr :: snapFrom verticalFirst curr rest'
      else bend verticalFirst prev curr :: curr :: snapFrom verticalFirst curr rest'
  end.

(** Modelled from the spec: [snapToOrthogonal] of [src/dagre-adapter.ts],
    whose file is not among the sources.  From the spec: the result has
    every consecutive pair differ in one coordinate only, at most one
    point is added per original segment, the start and end points stay,
    and a path of 0 or 1 points passes through unchanged.  The callers
    pass [true] for a top-to-bottom layout (vertical-first bends). *)
Definition snapToOrthogonal (points : list Point) (verticalFirst : bool)
  : list Point :=
  match points with
  | p0 :: (_ :: _) as rest => p0 :: snapFrom verticalFirst p0 rest
  | _ => points
  end.

Definition inside (s : NodeRect) (p : Point) : bool :=
  Qle_bool (cx s - hw s) (pt_x p) && Qle_bool (pt_x p) (cx s + hw s) &&
  Qle_bool (cy s - hh s) (pt_y p) && Qle_bool (pt_y p) (cy s + hh s).

(** Walking from coordinate [a], inside [[lo, hi]], to [b]: the fraction
    of the way at which the interval is left, if it is. *)
Definition exitParam (lo hi a b : Q) : option Q :=
  if Qlt_bool hi b then Some ((hi - a) / (b - a))
  else if Qlt_bool b lo then Some ((lo - a) / (b - a))
  else None.

Definition firstExit (tx ty : option Q) : option Q :=
  match tx, ty with
  | Some a, Some b => Some (Qmin a b)
  | Some a, None => Some a
  | None, Some b => Some b
  | None, None => None
  end.

(** The point at which the segment from [p], inside [s], to [q] crosses
    the boundary of [s]; [p] itself when [q] is inside too. *)
Definition exitPoint (s : NodeRect) (p q : Point) : Point :=
  match firstExit (exitParam (cx s - hw s) (cx s + hw s) (pt_x p) (pt_x q))
                  (exitParam (cy s - hh s) (cy s + hh s) (pt_y p) (pt_y q)) with
  | Some t => mkPoint (pt_x p + t * (pt_x q - pt_x p)) (pt_y p + t * (pt_y q - pt_y p))
  | None => p
  end.

Definition clipStart (shape : option NodeRect) (points : list Point) : list Point :=
  match shape, points with
  | Some s, p :: q :: rest =>
      if inside s p then exitPoint s p q :: q :: rest else points
  | _, _ => points
  end.

(** Modelled from the spec: [clipEndpointsToNodes] of
    [src/dagre-adapter.ts], whose file is not among the sources.  From the
    spec: the first point is replaced by the point where the path leaves
    the source rectangle when the path starts inside it, the last point
    symmetrically by the point of entry into the target rectangle, and an
    omitted ([null]) shape leaves its end alone. *)
Definition clipEndpointsToNodes (points : list Point)
    (source target : option NodeRect) : list Point :=
  reverse (clipStart target (reverse (clipStart source points))).

End DagreAdapter.

Import DagreAdapter.

(** ** C4 diagrams ([src/c4/types.ts], [src/c4/layout.ts]) *)

(** Layout constants for C4 diagrams. *)
Module C4.
Definition padding : Q := 40.
Definition boxPadX : Q := 16.
Definition boxPadY : Q := 12.
Definition personWidth : Q := 160.
Definition personHeight : Q := 180.
Definition minBoxWidth : Q := 160.
Definition minBoxHeight : Q := 80.
Definition lineHeight : Q := 18.
Definition boundaryPadding : Q := 30.
Definition boundaryHeaderHeight : Q := 28.
Definition nodeSpacing : Q := 60.
Definition layerSpacing : Q := 80.
Definition descFontSize : Q := 11.
Definition descFontWeight : Q := 400.
Definition techFontSize : Q := 10.
Definition techFontWeight : Q := 400.
End C4.

Module C4Layout.

Inductive C4ElementKind :=
  | Person | System | Container | ContainerDb | ContainerQueue
  | Component | ComponentDb | ComponentQueue | Deployment_Node.

Inductive C4BoundaryKind :=
  | Boundary | System_Boundary | Container_Boundary | Enterprise_Boundary
  | Deployment_Node_Boundary.

Inductive C4Direction := D | U | L | R | Back.

Record C4Element := mkElement {
  el_kind : C4ElementKind;
  el_alias : string;
  el_label : jsstring;
  el_description : option jsstring;
  el_technology : option jsstring;
  el_external : bool;
  el_parentBoundary : option string
}.

#[local] Unset Elimination Schemes.

Inductive C4Boundary :=
  mkBoundary (alias : string) (label : jsstring) (kind : C4BoundaryKind)
             (elements : list C4Element) (childBoundaries : list C4Boundary)
             (parentBoundary : option string).

#[local] Set Elimination Schemes.

Definition b_elements (b : C4Boundary) : list C4Element :=
  match b with mkBoundary _ _ _ es _ _ => es end.
Definition b_childBoundaries (b : C4Boundary) : list C4Boundary :=
  match b with mkBoundary _ _ _ _ cs _ => cs end.

Record C4Relationship := mkRelationship {
  rel_from : string;
  rel_to : string;
  rel_label : jsstring;
  rel_technology : option jsstring;
  rel_direction : option C4Direction
}.

Record C4Diagram := mkDiagram {
  dg_title : option jsstring;
  dg_elements : list C4Element;
  dg_relationships : list C4Relationship;
  dg_boundaries : list C4Boundary
}.

Record PositionedC4Element := mkPositionedElement {
  pe_kind : C4ElementKind;
  pe_alias : string;
  pe_label : jsstring;
  pe_description : option jsstring;
  pe_technology : option jsstring;
  pe_external : bool;
  pe_x : Q;
  pe_y : Q;
  pe_width : Q;
  pe_height : Q
}.

Record PositionedC4Relationship := mkPositionedRelationship {
  pr_from : string;
  pr_to : string;
  pr_label : jsstring;
  pr_technology : option jsstring;
  pr_points : list Point
}.

#[local] Unset Elimination Schemes.

Inductive PositionedC4Boundary :=
  mkPositionedBoundary (alias : string) (label : jsstring) (kind : C4BoundaryKind)
                       (x y width height : Q) (children : list PositionedC4Boundary).

#[local] Set Elimination Schemes.

Definition pb_x (b : PositionedC4Boundary) : Q :=
  match b with mkPositionedBoundary _ _ _ x _ _ _ _ => x end.
Definition pb_y (b : PositionedC4Boundary) : Q :=
  match b with mkPositionedBoundary _ _ _ _ y _ _ _ => y end.
Definition pb_width (b : PositionedC4Boundary) : Q :=
  match b with mkPositionedBoundary _ _ _ _ _ w _ _ => w end.
Definition pb_height (b : PositionedC4Boundary) : Q :=
  match b with mkPositionedBoundary _ _ _ _ _ _ h _ => h end.
Definition pb_children (b : PositionedC4Boundary) : list PositionedC4Boundary :=
  match b with mkPositionedBoundary _ _ _ _ _ _ _ cs => cs end.

Record PositionedC4Diagram := mkPositionedDiagram {
  pd_width : Q;
  pd_height : Q;
  pd_title : option jsstring;
  pd_elements : list PositionedC4Element;
  pd_relationships : list PositionedC4Relationship;
  pd_boundaries : list PositionedC4Boundary
}.

Record Size := mkSize { sz_width : Q; sz_height : Q }.

(** The label dagre gets for an edge ([labelpos] is always ['c']). *)
Record C4EdgeLabel := mkEdgeLabel {
  _index : nat;
  lbl_label : jsstring;
  lbl_width : Q;
  lbl_height : Q
}.

(** An optional string in a condition: [undefined] and [''] are falsy. *)
Definition truthy (s : option jsstring) : option jsstring :=
  match s with
  | Some (c :: rest) => Some (c :: rest)
  | _ => None
  end.

Definition isTruthy (s : option jsstring) : bool :=
  match truthy s with Some _ => true | None => false end.

Definition isPerson (k : C4ElementKind) : bool :=
  match k with Person => true | _ => false end.

(** Calculate the box size for a C4 element based on its text content. *)
Definition calculateElementSize (element : C4Element) : Size :=
  if isPerson (el_kind element)
  then mkSize C4.personWidth C4.personHeight
  else
    let labelW := estimateTextWidth (el_label element)
                    FONT_SIZES_nodeLabel FONT_WEIGHTS_nodeLabel in
    let maxTextW := labelW in
    let maxTextW :=
      match truthy (el_technology element) with
      | Some technology =>
          let techText := [91%Z] ++ technology ++ [93%Z] in
          let techW := estimateTextWidth techText C4.techFontSize C4.techFontWeight in
          Qmax maxTextW techW
      | None => maxTextW
      end in
    let maxTextW :=
      match truthy (el_description element) with
      | Some description =>
          let descW := estimateTextWidth description C4.descFontSize C4.descFontWeight in
          Qmax maxTextW descW
      | None => maxTextW
      end in
    let width := Qmax C4.minBoxWidth (maxTextW + C4.boxPadX * 2) in
    let textLines := 1 in
    let textLines := if isTruthy (el_technology element) then textLines + 1 else textLines in
    let textLines := if isTruthy (el_description element) then textLines + 1 else textLines in
    let height := Qmax C4.minBoxHeight (textLines * C4.lineHeight + C4.boxPadY * 2) in
    mkSize width height.

(** *** Boundary layout *)

Record Rect := mkRect { r_x : Q; r_y : Q; r_right : Q; r_bottom : Q }.

Definition elementRect (pos : PositionedC4Element) : Rect :=
  mkRect (pe_x pos) (pe_y pos) (pe_x pos + pe_width pos) (pe_y pos + pe_height pos).

Definition boundaryRect (child : PositionedC4Boundary) : Rect :=
  mkRect (pb_x child) (pb_y child)
         (pb_x child + pb_width child) (pb_y child + pb_height child).

(** The rectangles of a boundary: its direct elements that have a
    position, then its child boundaries. *)
Definition collectRects (elementLookup : gmap string PositionedC4Element)
    (elements : list C4Element) (children : list PositionedC4Boundary) : list Rect :=
  omap (fun element => elementRect <$> (elementLookup !! el_alias element)) elements
  ++ map boundaryRect children.

(** Recursively lay out boundaries based on their child element
    positions.  [rects] is not empty where the bounding box is taken, so
    the [Infinity] seeds of the four accumulators are gone after the
    first rectangle: the folds start from it. *)
Fixpoint layoutBoundary (elementLookup : gmap string PositionedC4Element)
    (boundary : C4Boundary) : PositionedC4Boundary :=
  match boundary with
  | mkBoundary alias label kind elements childBoundaries _ =>
      let children := map (layoutBoundary elementLookup) childBoundaries in
      match collectRects elementLookup elements children with
      | [] =>
          mkPositionedBoundary alias label kind 0 0 C4.minBoxWidth C4.minBoxHeight children
      | rect0 :: rects =>
          let minX := fold_left (fun m rect => Qmin m (r_x rect)) rects (r_x rect0) in
          let minY := fold_left (fun m rect => Qmin m (r_y rect)) rects (r_y rect0) in
          let maxX := fold_left (fun m rect => Qmax m (r_right rect)) rects (r_right rect0) in
          let maxY := fold_left (fun m rect => Qmax m (r_bottom rect)) rects (r_bottom rect0) in
          mkPositionedBoundary alias label kind
            (minX - C4.boundaryPadding)
            (minY - C4.boundaryPadding - C4.boundaryHeaderHeight)
            ((maxX - minX) + C4.boundaryPadding * 2)
            ((maxY - minY) + C4.boundaryPadding * 2 + C4.boundaryHeaderHeight)
            children
      end
  end.

Definition layoutBoundaries (boundaries : list C4Boundary)
    (elementLookup : gmap string PositionedC4Element) : list PositionedC4Boundary :=
  map (layoutBoundary elementLookup) boundaries.

(** Flatten nested boundaries into a single list for size calculations. *)
Fixpoint flattenBoundary (b : PositionedC4Boundary) : list PositionedC4Boundary :=
  match b with
  | mkPositionedBoundary _ _ _ _ _ _ _ children =>
      b :: concat (map flattenBoundary children)
  end.

Definition flattenBoundaries (boundaries : list PositionedC4Boundary)
  : list PositionedC4Boundary :=
  concat (map flattenBoundary boundaries).


(** *** The layout entry point *)

Definition dagreFailed : string := "Dagre layout failed (C4 diagram): ".

(** Reading a property of [undefined]. *)
Definition typeError : string := "TypeError: undefined is not an object".

Definition labelText (rel : C4Relationship) : jsstring :=
  match truthy (rel_technology rel) with
  | Some technology => rel_label rel ++ [32%Z; 91%Z] ++ technology ++ [93%Z]
  | None => rel_label rel
  end.

Definition edgeLabelOf (i : nat) (rel : C4Relationship) : C4EdgeLabel :=
  mkEdgeLabel i (labelText rel)
    (estimateTextWidth (labelText rel) FONT_SIZES_edgeLabel FONT_WEIGHTS_edgeLabel + 8)
    (FONT_SIZES_edgeLabel + 6).

Definition graphLabel : GraphLabel :=
  mkGraphLabel "TB" "greedy" C4.nodeSpacing C4.layerSpacing C4.padding C4.padding.

(** Step 1: the size of every element, by alias. *)
Definition sizeElements (elements : list C4Element) : gmap string Size :=
  fold_left (fun sizes element => <[el_alias element := calculateElementSize element]> sizes)
            elements ∅.

(** Step 2a: one node per element.  [elementSizes.get(alias)!] cannot
    miss, step 1 having entered every alias; the fallback is dead. *)
Definition addElements (elementSizes : gmap string Size) (elements : list C4Element)
    (g : Graph Size C4EdgeLabel) : Graph Size C4EdgeLabel :=
  fold_left (fun g element =>
               setNode g (el_alias element)
                 (default (calculateElementSize element)
                          (elementSizes !! el_alias element)))
            elements g.

(** Step 2b: the loop [for (let i = 0; i < relationships.length; i++)],
    from index [i] on. *)
Fixpoint addRelationships (rels : list C4Relationship) (i : nat)
    (g : Graph Size C4EdgeLabel) : Graph Size C4EdgeLabel :=
  match rels with
  | [] => g
  | rel :: rest =>
      addRelationships rest (S i)
        (setEdge g (rel_from rel) (rel_to rel) (edgeLabelOf i rel))
  end.

Definition buildGraph (diagram : C4Diagram) : Graph Size C4EdgeLabel :=
  addRelationships (dg_relationships diagram) 0
    (addElements (sizeElements (dg_elements diagram)) (dg_elements diagram)
       (newGraph graphLabel)).

Definition shapeOf (laid : Laid) (v : string) (n : Size) : NodeRect :=
  mkNodeRect (pt_x (laidNode laid v)) (pt_y (laidNode laid v))
             (sz_width n / 2) (sz_height n / 2).

(** Step 4, one element; [None] is the [TypeError] of [dagreNode.x] on a
    missing node. *)
Definition positionElement (g : Graph Size C4EdgeLabel) (laid : Laid)
    (element : C4Element) : option PositionedC4Element :=
  dagreNode ← node g (el_alias element);
  let c := laidNode laid (el_alias element) in
  let topLeft := centerToTopLeft (pt_x c) (pt_y c) (sz_width dagreNode) (sz_height dagreNode) in
  Some (mkPositionedElement (el_kind element) (el_alias element) (el_label element)
          (el_description element) (el_technology element) (el_external element)
          (pt_x topLeft) (pt_y topLeft) (sz_width dagreNode) (sz_height dagreNode)).

Definition routeEdge (g : Graph Size C4EdgeLabel) (laid : Laid)
    (edgeObj : string * string) : list Point :=
  let rawPoints := orElse (laidPoints laid edgeObj) [] in
  let orthoPoints := snapToOrthogonal rawPoints true in
  clipEndpointsToNodes orthoPoints
    (shapeOf laid (fst edgeObj) <$> node g (fst edgeObj))
    (shapeOf laid (snd edgeObj) <$> node g (snd edgeObj)).

(** Step 5, one edge; [None] is the [TypeError] of [rel.from] on a
    missing relationship. *)
Definition extractRelationship (diagram : C4Diagram) (g : Graph Size C4EdgeLabel)
    (laid : Laid) (e : (string * string) * C4EdgeLabel)
  : option PositionedC4Relationship :=
  rel ← dg_relationships diagram !! _index (snd e);
  Some (mkPositionedRelationship (rel_from rel) (rel_to rel) (rel_label rel)
          (rel_technology rel) (routeEdge g laid (fst e))).

Definition buildLookup (positionedElements : list PositionedC4Element)
  : gmap string PositionedC4Element :=
  fold_left (fun lookup el => <[pe_alias el := el]> lookup) positionedElements ∅.

(** Step 7: the overall size. *)
Definition canvasWidth (graphWidth : option Q) (bs : list PositionedC4Boundary) : Q :=
  fold_left (fun maxW b => Qmax maxW (pb_x b + pb_width b + C4.padding))
            (flattenBoundaries bs) (orElse graphWidth 600).

Definition canvasHeight (graphHeight : option Q) (bs : list PositionedC4Boundary) : Q :=
  fold_left (fun maxH b => Qmax maxH (pb_y b + pb_height b + C4.padding))
            (flattenBoundaries bs) (orElse graphHeight 400).

Section Layout.

(** [dagre.layout(g)]: the message of what it throws, or what it leaves
    in the graph. *)
Variable dagre_layout : Graph Size C4EdgeLabel -> string + Laid.

Definition layoutC4Diagram (diagram : C4Diagram) : string + PositionedC4Diagram :=
  if (length (dg_elements diagram) =? 0)%nat
  then inr (mkPositionedDiagram 0 0 None [] [] [])
  else
    let g := buildGraph diagram in
    match dagre_layout g with
    | inl message => inl (dagreFailed +:+ message)
    | inr laid =>
        match mapM (positionElement g laid) (dg_elements diagram),
              mapM (extractRelationship diagram g laid) (edgeList g) with
        | Some positionedElements, Some relationships =>
            let elementLookup := buildLookup positionedElements in
            let positionedBoundaries :=
              layoutBoundaries (dg_boundaries diagram) elementLookup in
            inr (mkPositionedDiagram
                   (canvasWidth (laidWidth laid) positionedBoundaries)
                   (canvasHeight (laidHeight laid) positionedBoundaries)
                   (dg_title diagram)
                   positionedElements relationships positionedBoundaries)
        | _, _ => inl typeError
        end
    end.

End Layout.

End C4Layout.

(** ** ArchiMate diagrams ([src/archimate/types.ts], the layout engine
       of [src/archimate/renderer.ts]) *)

(** Layout constants. *)
Module ARCHIMATE.
Definition padding : Q := 40.
Definition minElementWidth : Q := 120.
Definition elementHeight : Q := 50.
Definition layerPadding : Q := 20.
Definition layerLabelHeight : Q := 24.
Definition nodeSpacing : Q := 40.
Definition layerSpacing : Q := 60.
Definition typeIndicatorSize : Q := 9.
End ARCHIMATE.

Module ArchiMateLayout.

Inductive ArchiMateLayer :=
  | business | application | technology | strategy | motivation
  | physical | implementation.

#[global] Instance ArchiMateLayer_eq_dec : EqDecision ArchiMateLayer.
Proof. solve_decision. Defined.

Inductive ArchiMateRelationshipType :=
  | composition | aggregation | assignment | realization | serving | access
  | influence | triggering | flow | specialization | association.

(** An element; its [type] is kept as the text of the type name, which
    the layout measures. *)
Record ArchiMateElement := mkElement {
  el_id : string;
  el_label : jsstring;
  el_type : jsstring;
  el_layer : ArchiMateLayer
}.

Record ArchiMateRelationship := mkRelationship {
  rel_source : string;
  rel_target : string;
  rel_type : ArchiMateRelationshipType;
  rel_label : option jsstring
}.

(** [layers] is only asked [has] and [get]; [elements] is a [Map]
    walked in insertion order, its entries listed in that order. *)
Record ArchiMateDiagram := mkDiagram {
  dg_layers : ArchiMateLayer -> option (list ArchiMateElement);
  dg_elements : list (string * ArchiMateElement);
  dg_relationships : list ArchiMateRelationship
}.

Record PositionedArchiMateLayer := mkPositionedLayer {
  pl_name : ArchiMateLayer;
  pl_x : Q;
  pl_y : Q;
  pl_width : Q;
  pl_height : Q
}.

Record PositionedArchiMateElement := mkPositionedElement {
  pe_id : string;
  pe_label : jsstring;
  pe_type : jsstring;
  pe_layer : ArchiMateLayer;
  pe_x : Q;
  pe_y : Q;
  pe_width : Q;
  pe_height : Q
}.

Record PositionedArchiMateRelationship := mkPositionedRelationship {
  pr_source : string;
  pr_target : string;
  pr_type : ArchiMateRelationshipType;
  pr_label : option jsstring;
  pr_points : list Point
}.

Record PositionedArchiMateDiagram := mkPositionedDiagram {
  pd_width : Q;
  pd_height : Q;
  pd_layers : list PositionedArchiMateLayer;
  pd_elements : list PositionedArchiMateElement;
  pd_relationships : list PositionedArchiMateRelationship
}.

(** Canonical layer ordering from top to bottom. *)
Definition LAYER_ORDER : list ArchiMateLayer :=
  [strategy; motivation; business; application; technology; physical; implementation].

Record NodeLabel := mkNodeLabel {
  nl_width : Q;
  nl_height : Q;
  nl_layer : ArchiMateLayer
}.

(** The two kinds of edge label the layout hands to dagre: the invisible
    layer-ordering edge [{ minlen, weight, _layerEdge: true }] and the
    edge of a relationship [{ _index, label, width, height, labelpos }]. *)
Inductive EdgeLabel :=
  | LayerEdge (minlen weight : Z)
  | RelationshipEdge (_index : nat) (label : jsstring) (width height : Q).

Definition dagreFailed : string := "Dagre layout failed (ArchiMate diagram): ".
Definition typeError : string := "TypeError: undefined is not an object".

Definition graphLabel : GraphLabel :=
  mkGraphLabel "TB" "greedy" ARCHIMATE.nodeSpacing ARCHIMATE.layerSpacing
               ARCHIMATE.padding ARCHIMATE.padding.

Definition has (elements : list (string * ArchiMateElement)) (id : string) : bool :=
  existsb (fun entry => bool_decide (fst entry = id)) elements.

(** Step 1: the layers that are present, in canonical order. *)
Definition presentLayers (diagram : ArchiMateDiagram) : list ArchiMateLayer :=
  List.filter (fun layer =>
                 match dg_layers diagram layer with
                 | Some els => (0 <? length els)%nat
                 | None => false
                 end) LAYER_ORDER.

(** Step 2: the box of an element. *)
Definition elementSize (element : ArchiMateElement) : Q * Q :=
  let labelWidth := estimateTextWidth (el_label element)
                      FONT_SIZES_nodeLabel FONT_WEIGHTS_nodeLabel in
  let typeWidth := estimateTextWidth (el_type element) ARCHIMATE.typeIndicatorSize 400 in
  let width := Qmax (Qmax ARCHIMATE.minElementWidth (labelWidth + 24))
                    (typeWidth + labelWidth / 2 + 24) in
  (width, ARCHIMATE.elementHeight).

Definition Gr := Graph NodeLabel EdgeLabel.

(** Step 3a: one node per entry of [elements]. *)
Definition addElements (elements : list (string * ArchiMateElement)) (g : Gr) : Gr :=
  fold_left (fun g entry =>
               let size := elementSize (snd entry) in
               setNode g (fst entry)
                 (mkNodeLabel (fst size) (snd size) (el_layer (snd entry))))
            elements g.

Definition layerElements (diagram : ArchiMateDiagram) (layer : ArchiMateLayer)
  : list ArchiMateElement :=
  orElse (dg_layers diagram layer) [].

(** Step 3b: an invisible edge from the first element of each present
    layer to the first element of the next one; the loop
    [for (let i = 1; i < presentLayers.length; i++)] with
    [upperLayer = presentLayers[i - 1]]. *)
Fixpoint addLayerEdges (diagram : ArchiMateDiagram) (upperLayer : ArchiMateLayer)
    (lowerLayers : list ArchiMateLayer) (g : Gr) : Gr :=
  match lowerLayers with
  | [] => g
  | lowerLayer :: rest =>
      let g' :=
        match layerElements diagram upperLayer, layerElements diagram lowerLayer with
        | upper0 :: _, lower0 :: _ =>
            setEdge g (el_id upper0) (el_id lower0) (LayerEdge 2 10)
        | _, _ => g
        end in
      addLayerEdges diagram lowerLayer rest g'
  end.

Definition orderLayers (diagram : ArchiMateDiagram) (g : Gr) : Gr :=
  match presentLayers diagram with
  | [] => g
  | first :: rest => addLayerEdges diagram first rest g
  end.

Definition relationshipLabel (i : nat) (rel : ArchiMateRelationship) : EdgeLabel :=
  match C4Layout.truthy (rel_label rel) with
  | Some label =>
      RelationshipEdge i label
        (estimateTextWidth label FONT_SIZES_edgeLabel FONT_WEIGHTS_edgeLabel + 8)
        (FONT_SIZES_edgeLabel + 6)
  | None => RelationshipEdge i (orElse (rel_label rel) []) 0 0
  end.

(** Step 3c: the relationships, from index [i] on; one is added only if
    both its endpoints exist. *)
Fixpoint addRelationships (elements : list (string * ArchiMateElement))
    (rels : list ArchiMateRelationship) (i : nat) (g : Gr) : Gr :=
  match rels with
  | [] => g
  | rel :: rest =>
      addRelationships elements rest (S i)
        (if has elements (rel_source rel) && has elements (rel_target rel)
         then setEdge g (rel_source rel) (rel_target rel) (relationshipLabel i rel)
         else g)
  end.

Definition buildGraph (diagram : ArchiMateDiagram) : Gr :=
  addRelationships (dg_elements diagram) (dg_relationships diagram) 0
    (orderLayers diagram
       (addElements (dg_elements diagram) (newGraph graphLabel))).

(** Step 5, one entry; an element without a dagre node is skipped. *)
Definition positionElement (g : Gr) (laid : Laid) (entry : string * ArchiMateElement)
  : option PositionedArchiMateElement :=
  dagreNode ← node g (fst entry);
  let c := laidNode laid (fst entry) in
  let topLeft := centerToTopLeft (pt_x c) (pt_y c) (nl_width dagreNode) (nl_height dagreNode) in
  Some (mkPositionedElement (fst entry) (el_label (snd entry)) (el_type (snd entry))
          (el_layer (snd entry)) (pt_x topLeft) (pt_y topLeft)
          (nl_width dagreNode) (nl_height dagreNode)).

(** Step 6, one layer: the padded bounding box of its elements; a layer
    without positioned elements gets no band.  As for the C4 boundaries,
    the folds start from the first element. *)
Definition layerBand (positionedElements : list PositionedArchiMateElement)
    (layer : ArchiMateLayer) : option PositionedArchiMateLayer :=
  match List.filter (fun e => bool_decide (pe_layer e = layer)) positionedElements with
  | [] => None
  | el0 :: els =>
      let minX := fold_left (fun m el => Qmin m (pe_x el)) els (pe_x el0) in
      let minY := fold_left (fun m el => Qmin m (pe_y el)) els (pe_y el0) in
      let maxX := fold_left (fun m el => Qmax m (pe_x el + pe_width el)) els
                            (pe_x el0 + pe_width el0) in
      let maxY := fold_left (fun m el => Qmax m (pe_y el + pe_height el)) els
                            (pe_y el0 + pe_height el0) in
      Some (mkPositionedLayer layer
              (minX - ARCHIMATE.layerPadding)
              (minY - ARCHIMATE.layerPadding - ARCHIMATE.layerLabelHeight)
              ((maxX - minX) + ARCHIMATE.layerPadding * 2)
              ((maxY - minY) + ARCHIMATE.layerPadding * 2 + ARCHIMATE.layerLabelHeight))
  end.

Definition layerBands (layers : list ArchiMateLayer)
    (positionedElements : list PositionedArchiMateElement)
  : list PositionedArchiMateLayer :=
  omap (layerBand positionedElements) layers.

(** [Math.min(...xs)] and [Math.max(...xs)] of a list that is not empty. *)
Definition minOf (x0 : Q) (xs : list Q) : Q := fold_left Qmin xs x0.
Definition maxOf (x0 : Q) (xs : list Q) : Q := fold_left Qmax xs x0.

(** Normalize layer band widths so they all share the same x and width. *)
Definition normalizeLayers (positionedLayers : list PositionedArchiMateLayer)
  : list PositionedArchiMateLayer :=
  match positionedLayers with
  | [] => positionedLayers
  | l0 :: ls =>
      let globalMinX := minOf (pl_x l0) (map pl_x ls) in
      let globalMaxRight :=
        maxOf (pl_x l0 + pl_width l0) (map (fun l => pl_x l + pl_width l) ls) in
      let globalWidth := globalMaxRight - globalMinX in
      map (fun layer =>
             mkPositionedLayer (pl_name layer) globalMinX (pl_y layer)
                               globalWidth (pl_height layer))
          positionedLayers
  end.

Definition shapeOf (laid : Laid) (v : string) (n : NodeLabel) : NodeRect :=
  mkNodeRect (pt_x (laidNode laid v)) (pt_y (laidNode laid v))
             (nl_width n / 2) (nl_height n / 2).

Definition routeEdge (g : Gr) (laid : Laid) (edgeObj : string * string) : list Point :=
  let rawPoints := orElse (laidPoints laid edgeObj) [] in
  let orthoPoints := snapToOrthogonal rawPoints true in
  clipEndpointsToNodes orthoPoints
    (shapeOf laid (fst edgeObj) <$> node g (fst edgeObj))
    (shapeOf laid (snd edgeObj) <$> node g (snd edgeObj)).

(** Step 7, one edge.  [Some None]: the edge is skipped; [None]: the
    [TypeError] of [rel.source] on a missing relationship. *)
Definition extractRelationship (diagram : ArchiMateDiagram) (g : Gr) (laid : Laid)
    (e : (string * string) * EdgeLabel)
  : option (option PositionedArchiMateRelationship) :=
  match snd e with
  | LayerEdge _ _ => Some None
  | RelationshipEdge index _ _ _ =>
      rel ← dg_relationships diagram !! index;
      Some (Some (mkPositionedRelationship (rel_source rel) (rel_target rel)
                    (rel_type rel) (rel_label rel) (routeEdge g laid (fst e))))
  end.

Section Layout.

Variable dagre_layout : Gr -> string + Laid.

Definition layoutArchiMateDiagram (diagram : ArchiMateDiagram)
  : string + PositionedArchiMateDiagram :=
  if (length (dg_elements diagram) =? 0)%nat
  then inr (mkPositionedDiagram 0 0 [] [] [])
  else
    let g := buildGraph diagram in
    match dagre_layout g with
    | inl message => inl (dagreFailed +:+ message)
    | inr laid =>
        let positionedElements := omap (positionElement g laid) (dg_elements diagram) in
        let positionedLayers :=
          normalizeLayers (layerBands (presentLayers diagram) positionedElements) in
        match mapM (extractRelationship diagram g laid) (edgeList g) with
        | Some relationships =>
            inr (mkPositionedDiagram
                   (orElse (laidWidth laid) 600) (orElse (laidHeight laid) 400)
                   positionedLayers positionedElements
                   (omap id relationships))
        | None => inl typeError
        end
    end.

End Layout.

End ArchiMateLayout.

(** * Sample inputs *)

Module Samples.

(** The grinning face U+1F600, stored as its surrogate pair. *)
Definition grinningFace : jsstring := [0xd83d; 0xde00]%Z.

(** "API" *)
Definition textAPI : jsstring := [65; 80; 73]%Z.

(** "Web" *)
Definition textWeb : jsstring := [87; 101; 98]%Z.

(** "React" *)
Definition textReact : jsstring := [82; 101; 97; 99; 116]%Z.

(** "uses" *)
Definition textUses : jsstring := [117; 115; 101; 115]%Z.

(** "calls" *)
Definition textCalls : jsstring := [99; 97; 108; 108; 115]%Z.

(** A layout run in which dagre throws [message]. *)
Definition dagreThrows {N E} (message : string) : Graph N E -> string + Laid :=
  fun _ => inl message.

(** A layout run in which dagre leaves [laid] in the graph. *)
Definition dagreLeaves {N E} (laid : Laid) : Graph N E -> string + Laid :=
  fun _ => inr laid.

(** *** C4 *)

Definition api : C4Layout.C4Element :=
  C4Layout.mkElement C4Layout.System "api" textAPI None None false (Some "sys").

Definition web : C4Layout.C4Element :=
  C4Layout.mkElement C4Layout.Container "web" textWeb None (Some textReact) false None.

Definition user : C4Layout.C4Element :=
  C4Layout.mkElement C4Layout.Person "user" textWeb None None false None.

Definition sys : C4Layout.C4Boundary :=
  C4Layout.mkBoundary "sys" textAPI C4Layout.System_Boundary [api] [] None.

(** [C4Context], [System_Boundary(sys, "API") { System(api, "API") }]. *)
Definition oneBoxed : C4Layout.C4Diagram :=
  C4Layout.mkDiagram None [api] [] [sys].

(** What dagre leaves for a graph of one 160 x 80 node and no edge, with
    margins of 40: the node centred at (120, 80), a graph of 240 x 160. *)
Definition laidOneBox : Laid :=
  mkLaid (fun _ => mkPoint 120 80) (fun _ => None) (Some 240) (Some 160).

(** Two relationships from [web] to [api], the second one relabelled. *)
Definition webToApi : C4Layout.C4Relationship :=
  C4Layout.mkRelationship "web" "api" textUses None None.

Definition webToApiAgain : C4Layout.C4Relationship :=
  C4Layout.mkRelationship "web" "api" textCalls None None.

Definition twice : C4Layout.C4Diagram :=
  C4Layout.mkDiagram None [web; api] [webToApi; webToApiAgain] [].

(** A layout of [web] above and to the left of [api], the edge between
    them a polyline with a slanted first leg. *)
Definition laidTwo : Laid :=
  mkLaid (fun v => if String.eqb v "web" then mkPoint 120 80 else mkPoint 320 260)
         (fun e => if bool_decide (e = ("web", "api"))
                   then Some [mkPoint 120 120; mkPoint 220 170; mkPoint 320 220]
                   else None)
         (Some 520) (Some 340).

(** Two relationships with different end points and one edge key: from
    [a<U+0001>b] to [c], and from [a] to [b<U+0001>c]. *)
Definition abToC : C4Layout.C4Relationship :=
  C4Layout.mkRelationship ("a" +:+ EDGE_KEY_DELIM +:+ "b") "c" textUses None None.

Definition aToBc : C4Layout.C4Relationship :=
  C4Layout.mkRelationship "a" ("b" +:+ EDGE_KEY_DELIM +:+ "c") textCalls None None.

Definition merged : C4Layout.C4Diagram :=
  C4Layout.mkDiagram None [web] [abToC; aToBc] [].

(** Relationships only: [Rel(web, api, "uses")] with no element declared. *)
Definition noElements : C4Layout.C4Diagram :=
  C4Layout.mkDiagram None [] [webToApi] [].

(** The two relationships of [twice] with no element declared. *)
Definition twiceWithoutElements : C4Layout.C4Diagram :=
  C4Layout.mkDiagram None [] [webToApi; webToApiAgain] [].

(** *** ArchiMate *)

(** "Customer" *)
Definition textCustomer : jsstring := [67; 117; 115; 116; 111; 109; 101; 114]%Z.

(** "actor" *)
Definition textActor : jsstring := [97; 99; 116; 111; 114]%Z.

(** "component" *)
Definition textComponent : jsstring := [99; 111; 109; 112; 111; 110; 101; 110; 116]%Z.

Definition customer : ArchiMateLayout.ArchiMateElement :=
  ArchiMateLayout.mkElement "Customer" textCustomer textActor ArchiMateLayout.business.

Definition portal : ArchiMateLayout.ArchiMateElement :=
  ArchiMateLayout.mkElement "App" textAPI textComponent ArchiMateLayout.application.

Definition customerToGhost : ArchiMateLayout.ArchiMateRelationship :=
  ArchiMateLayout.mkRelationship "Customer" "Ghost" ArchiMateLayout.serving None.

Definition portalToCustomer : ArchiMateLayout.ArchiMateRelationship :=
  ArchiMateLayout.mkRelationship "App" "Customer" ArchiMateLayout.serving (Some textUses).

(** One element, and a relationship to [Ghost], which is no element. *)
Definition ghost : ArchiMateLayout.ArchiMateDiagram :=
  ArchiMateLayout.mkDiagram
    (fun layer => match layer with
                  | ArchiMateLayout.business => Some [customer]
                  | _ => None
                  end)
    [("Customer", customer)] [customerToGhost].

(** What dagre leaves for a graph of one 120 x 50 node and no edge. *)
Definition laidOneElement : Laid :=
  mkLaid (fun _ => mkPoint 100 65) (fun _ => None) (Some 200) (Some 130).

(** Two layers with an element each and a relationship between them. *)
Definition layered : ArchiMateLayout.ArchiMateDiagram :=
  ArchiMateLayout.mkDiagram
    (fun layer => match layer with
                  | ArchiMateLayout.business => Some [customer]
                  | ArchiMateLayout.application => Some [portal]
                  | _ => None
                  end)
    [("Customer", customer); ("App", portal)] [portalToCustomer; customerToGhost].

Definition laidLayered : Laid :=
  mkLaid (fun v => if String.eqb v "Customer" then mkPoint 100 65 else mkPoint 260 235)
         (fun e => if bool_decide (e = ("App", "Customer"))
                   then Some [mkPoint 260 210; mkPoint 180 150; mkPoint 100 90]
                   else None)
         (Some 360) (Some 300).

(** Three layers whose first elements have the ids [a<U+0001>b], [a] and
    [b<U+0001>a]: the two ordering edges have one edge key. *)
Definition mergedLayers : ArchiMateLayout.ArchiMateDiagram :=
  let upper := ArchiMateLayout.mkElement ("a" +:+ EDGE_KEY_DELIM +:+ "b")
                 textCustomer textActor ArchiMateLayout.business in
  let middle := ArchiMateLayout.mkElement "a" textAPI textComponent
                  ArchiMateLayout.application in
  let lower := ArchiMateLayout.mkElement ("b" +:+ EDGE_KEY_DELIM +:+ "a")
                 textAPI textComponent ArchiMateLayout.technology in
  ArchiMateLayout.mkDiagram
    (fun layer => match layer with
                  | ArchiMateLayout.business => Some [upper]
                  | ArchiMateLayout.application => Some [middle]
                  | ArchiMateLayout.technology => Some [lower]
                  | _ => None
                  end)
    [(ArchiMateLayout.el_id upper, upper); (ArchiMateLayout.el_id middle, middle);
     (ArchiMateLayout.el_id lower, lower)]
    [].

(** No element at all, and a relationship. *)
Definition noArchiMateElements : ArchiMateLayout.ArchiMateDiagram :=
  ArchiMateLayout.mkDiagram (fun _ => None) [] [customerToGhost].


(** The result of a run, whatever it is when the run throws. *)
Definition c4Result (r : string + C4Layout.PositionedC4Diagram)
  : C4Layout.PositionedC4Diagram :=
  match r with
  | inr out => out
  | inl _ => C4Layout.mkPositionedDiagram 0 0 None [] [] []
  end.

Definition archiMateResult (r : string + ArchiMateLayout.PositionedArchiMateDiagram)
  : ArchiMateLayout.PositionedArchiMateDiagram :=
  match r with
  | inr out => out
  | inl _ => ArchiMateLayout.mkPositionedDiagram 0 0 [] [] []
  end.

End Samples.

Import Samples.

(** * The vocabulary of the properties *)

(** The lines of text of an element as the specification counts them:
    the label, the technology in brackets when there is one, the
    description when there is one, each with the font it is measured
    in. *)
Definition claimedLines (element : C4Layout.C4Element) : list (jsstring * Q * Q) :=
  [(C4Layout.el_label element, FONT_SIZES_nodeLabel, FONT_WEIGHTS_nodeLabel)]
  ++ match C4Layout.truthy (C4Layout.el_technology element) with
     | Some technology => [([91%Z] ++ technology ++ [93%Z], C4.techFontSize, C4.techFontWeight)]
     | None => []
     end
  ++ match C4Layout.truthy (C4Layout.el_description element) with
     | Some description => [(description, C4.descFontSize, C4.descFontWeight)]
     | None => []
     end.

Definition lineWidth (line : jsstring * Q * Q) : Q :=
  estimateTextWidth (fst (fst line)) (snd (fst line)) (snd line).

(** The estimated width of the widest of the lines. *)
Definition claimedWidest (element : C4Layout.C4Element) : Q :=
  fold_left Qmax (map lineWidth (claimedLines element)) 0.

(** A rectangle lies inside a boundary with the documented margins: the
    boundary padding left, right and below, the padding and the header
    band above. *)
Definition insidePadded (r : C4Layout.Rect) (b : C4Layout.PositionedC4Boundary) : Prop :=
  C4Layout.pb_x b + C4.boundaryPadding <= C4Layout.r_x r
  /\ C4Layout.r_right r + C4.boundaryPadding <= C4Layout.pb_x b + C4Layout.pb_width b
  /\ C4Layout.pb_y b + C4.boundaryPadding + C4.boundaryHeaderHeight <= C4Layout.r_y r
  /\ C4Layout.r_bottom r + C4.boundaryPadding <= C4Layout.pb_y b + C4Layout.pb_height b.

(** Every boundary of a tree of input boundaries, the root first. *)
Fixpoint allBoundaries (b : C4Layout.C4Boundary) : list C4Layout.C4Boundary :=
  match b with
  | C4Layout.mkBoundary _ _ _ _ childBoundaries _ =>
      b :: concat (map allBoundaries childBoundaries)
  end.

(** The ordered pair of end points of a C4 relationship. *)
Definition relKey (rel : C4Layout.C4Relationship) : string * string :=
  (C4Layout.rel_from rel, C4Layout.rel_to rel).

(** An identifier without the character U+0001, the delimiter of the
    edge keys of the graph library. *)
Fixpoint plainId (s : string) : bool :=
  match s with
  | EmptyString => true
  | String c s' => negb (Ascii.eqb c "001"%char) && plainId s'
  end.

(** No end point of a relationship of a C4 diagram holds the character
    U+0001. *)
Definition plainEnds (rels : list C4Layout.C4Relationship) : bool :=
  forallb (fun rel => plainId (C4Layout.rel_from rel) && plainId (C4Layout.rel_to rel))
          rels.

(** The same of the relationships of an ArchiMate diagram, whose end
    points the parser reads as words of letters, digits and
    underscores. *)
Definition plainArchiEnds (rels : list ArchiMateLayout.ArchiMateRelationship) : bool :=
  forallb (fun rel => plainId (ArchiMateLayout.rel_source rel)
                      && plainId (ArchiMateLayout.rel_target rel))
          rels.


(** What holds of the edges of the C4 graph once the relationships before
    index [n] are in, when no end point holds U+0001: one edge per pair;
    each edge labelled from the relationship at its [_index], which has
    that pair and is the last one before [n] to have it; every pair seen
    so far has its edge. *)
Definition edgesOk (all : list C4Layout.C4Relationship) (n : nat)
    (es : list ((string * string) * C4Layout.C4EdgeLabel)) : Prop :=
  NoDup (map fst es)
  /\ (forall k lbl, In (k, lbl) es ->
        exists rel, all !! C4Layout._index lbl = Some rel
                    /\ (C4Layout._index lbl < n)%nat
                    /\ relKey rel = k
                    /\ lbl = C4Layout.edgeLabelOf (C4Layout._index lbl) rel
                    /\ forall j rel', (C4Layout._index lbl < j)%nat -> (j < n)%nat ->
                                      all !! j = Some rel' -> relKey rel' <> k)
  /\ (forall j rel, (j < n)%nat -> all !! j = Some rel -> In (relKey rel) (map fst es)).

(** The ordered pair of end points of a positioned C4 relationship. *)
Definition positionedKey (pr : C4Layout.PositionedC4Relationship) : string * string :=
  (C4Layout.pr_from pr, C4Layout.pr_to pr).

(** The positioned relationships of a given pair of end points. *)
Definition positionedFor (k : string * string)
    (prs : list C4Layout.PositionedC4Relationship)
  : list C4Layout.PositionedC4Relationship :=
  List.filter (fun pr => bool_decide (positionedKey pr = k)) prs.

(** What holds of the relationship edges of the ArchiMate graph: each
    comes from the relationship at its [_index], under the key of whose
    end points it is stored, and these are both elements of the
    diagram. *)
Definition relEdgesOk (diagram : ArchiMateLayout.ArchiMateDiagram)
    (es : list ((string * string) * ArchiMateLayout.EdgeLabel)) : Prop :=
  forall k i label w h,
    In (k, ArchiMateLayout.RelationshipEdge i label w h) es ->
    exists rel,
      ArchiMateLayout.dg_relationships diagram !! i = Some rel
      /\ sameEdge (ArchiMateLayout.rel_source rel, ArchiMateLayout.rel_target rel) k = true
      /\ ArchiMateLayout.has (ArchiMateLayout.dg_elements diagram)
           (ArchiMateLayout.rel_source rel) = true
      /\ ArchiMateLayout.has (ArchiMateLayout.dg_elements diagram)
           (ArchiMateLayout.rel_target rel) = true.

Definition isLayerEdge (e : (string * string) * ArchiMateLayout.EdgeLabel) : bool :=
  match snd e with
  | ArchiMateLayout.LayerEdge _ _ => true
  | ArchiMateLayout.RelationshipEdge _ _ _ _ => false
  end.

(** The layers of a diagram that are next to each other in the drawing:
    the pairs of consecutive present layers. *)
Definition adjacentLayers (diagram : ArchiMateLayout.ArchiMateDiagram)
  : list (ArchiMateLayout.ArchiMateLayer * ArchiMateLayout.ArchiMateLayer) :=
  let present := ArchiMateLayout.presentLayers diagram in
  zip present (tail present).

(** Two consecutive points of an orthogonal route: they share exactly one
    coordinate (a horizontal or a vertical segment), or they are the same
    point. *)
Definition sharesOneCoordinate (p q : Point) : Prop :=
  (pt_x p == pt_x q /\ ~ pt_y p == pt_y q) \/ (~ pt_x p == pt_x q /\ pt_y p == pt_y q).

Definition samePoint (p q : Point) : Prop :=
  pt_x p == pt_x q /\ pt_y p == pt_y q.

Definition axisAligned (p q : Point) : Prop :=
  sharesOneCoordinate p q \/ samePoint p q.

Fixpoint orthogonalPath (points : list Point) : Prop :=
  match points with
  | p :: (q :: _) as rest => axisAligned p q /\ orthogonalPath rest
  | _ => True
  end.

(** * Further vocabulary *)

(** A positioned C4 element carries what its element carries, and the box
    of [sized], the element the size was computed from. *)
Definition positionedAs (element sized : C4Layout.C4Element)
    (pos : C4Layout.PositionedC4Element) : Prop :=
  C4Layout.pe_kind pos = C4Layout.el_kind element
  /\ C4Layout.pe_alias pos = C4Layout.el_alias element
  /\ C4Layout.pe_label pos = C4Layout.el_label element
  /\ C4Layout.pe_description pos = C4Layout.el_description element
  /\ C4Layout.pe_technology pos = C4Layout.el_technology element
  /\ C4Layout.pe_external pos = C4Layout.el_external element
  /\ C4Layout.mkSize (C4Layout.pe_width pos) (C4Layout.pe_height pos)
     = C4Layout.calculateElementSize sized.

(** The fields [alias], [label] and [kind] of a boundary, parsed and
    positioned. *)
Definition b_alias (b : C4Layout.C4Boundary) : string :=
  match b with C4Layout.mkBoundary alias _ _ _ _ _ => alias end.
Definition b_label (b : C4Layout.C4Boundary) : jsstring :=
  match b with C4Layout.mkBoundary _ label _ _ _ _ => label end.
Definition b_kind (b : C4Layout.C4Boundary) : C4Layout.C4BoundaryKind :=
  match b with C4Layout.mkBoundary _ _ kind _ _ _ => kind end.
Definition pb_alias (b : C4Layout.PositionedC4Boundary) : string :=
  match b with C4Layout.mkPositionedBoundary alias _ _ _ _ _ _ _ => alias end.
Definition pb_label (b : C4Layout.PositionedC4Boundary) : jsstring :=
  match b with C4Layout.mkPositionedBoundary _ label _ _ _ _ _ _ => label end.
Definition pb_kind (b : C4Layout.PositionedC4Boundary) : C4Layout.C4BoundaryKind :=
  match b with C4Layout.mkPositionedBoundary _ _ kind _ _ _ _ _ => kind end.


(** ** More of the text metrics ([src/styles.ts]) *)

Module MonoText.

(** Average character width in px for monospace fonts (uniform glyph
    width). *)
Definition estimateMonoTextWidth (text : jsstring) (fontSize : Q) : Q :=
  inject_Z (getDisplayWidth text) * fontSize * (6 # 10).

End MonoText.

Import MonoText.

(** The seam of two texts that splits a surrogate pair: the first ends
    with a lead surrogate and the second starts with a trail surrogate. *)
Definition endsWithLead (text : jsstring) : bool :=
  match last text with
  | Some c => isLeadSurrogate c
  | None => false
  end.

Definition startsWithTrail (text : jsstring) : bool :=
  match text with
  | d :: _ => isTrailSurrogate d
  | [] => false
  end.

(** What an entry of the ArchiMate [elements] map is positioned as. *)
Definition positionedEntry (entry : string * ArchiMateLayout.ArchiMateElement)
    (pos : ArchiMateLayout.PositionedArchiMateElement) : Prop :=
  ArchiMateLayout.pe_id pos = fst entry
  /\ ArchiMateLayout.pe_label pos = ArchiMateLayout.el_label (snd entry)
  /\ ArchiMateLayout.pe_type pos = ArchiMateLayout.el_type (snd entry)
  /\ ArchiMateLayout.pe_layer pos = ArchiMateLayout.el_layer (snd entry)
  /\ (ArchiMateLayout.pe_width pos, ArchiMateLayout.pe_height pos)
     = ArchiMateLayout.elementSize (snd entry).

(** An element lies inside a layer band with the band's margins: the
    layer padding left, right and below, the padding and the label height
    above. *)
Definition insideBand (e : ArchiMateLayout.PositionedArchiMateElement)
    (band : ArchiMateLayout.PositionedArchiMateLayer) : Prop :=
  ArchiMateLayout.pl_x band + ARCHIMATE.layerPadding <= ArchiMateLayout.pe_x e
  /\ ArchiMateLayout.pe_x e + ArchiMateLayout.pe_width e + ARCHIMATE.layerPadding
     <= ArchiMateLayout.pl_x band + ArchiMateLayout.pl_width band
  /\ ArchiMateLayout.pl_y band + ARCHIMATE.layerPadding + ARCHIMATE.layerLabelHeight
     <= ArchiMateLayout.pe_y e
  /\ ArchiMateLayout.pe_y e + ArchiMateLayout.pe_height e + ARCHIMATE.layerPadding
     <= ArchiMateLayout.pl_y band + ArchiMateLayout.pl_height band.

(** A layer has a positioned element. *)
Definition populated (pes : list ArchiMateLayout.PositionedArchiMateElement)
    (layer : ArchiMateLayout.ArchiMateLayer) : bool :=
  existsb (fun e => bool_decide (ArchiMateLayout.pe_layer e = layer)) pes.

(** A layer is listed in [layers] with at least one element. *)
Definition listed (diagram : ArchiMateLayout.ArchiMateDiagram)
    (layer : ArchiMateLayout.ArchiMateLayer) : bool :=
  match ArchiMateLayout.dg_layers diagram layer with
  | Some (_ :: _) => true
  | _ => false
  end.

(** The ordered pair of end points of an ArchiMate relationship, of a
    positioned one, and the positioned relationships of a given pair. *)
Definition archiRelKey (rel : ArchiMateLayout.ArchiMateRelationship) : string * string :=
  (ArchiMateLayout.rel_source rel, ArchiMateLayout.rel_target rel).

Definition archiPositionedKey (pr : ArchiMateLayout.PositionedArchiMateRelationship)
  : string * string :=
  (ArchiMateLayout.pr_source pr, ArchiMateLayout.pr_target pr).

Definition drawnFor (k : string * string)
    (prs : list ArchiMateLayout.PositionedArchiMateRelationship)
  : list ArchiMateLayout.PositionedArchiMateRelationship :=
  List.filter (fun pr => bool_decide (archiPositionedKey pr = k)) prs.

(** Both end points of a relationship are elements of the diagram: the
    test under which the layout adds its edge. *)
Definition joinsElements (diagram : ArchiMateLayout.ArchiMateDiagram)
    (rel : ArchiMateLayout.ArchiMateRelationship) : bool :=
  ArchiMateLayout.has (ArchiMateLayout.dg_elements diagram) (ArchiMateLayout.rel_source rel)
  && ArchiMateLayout.has (ArchiMateLayout.dg_elements diagram)
       (ArchiMateLayout.rel_target rel).

(** What holds of the edges of the ArchiMate graph once the relationships
    before index [n] are in, when no end point of a relationship holds
    U+0001: one edge per pair; each relationship edge comes from the last
    relationship before [n] that joins two elements at that pair; every
    such relationship has a relationship edge at its pair. *)
Definition archiEdgesOk (diagram : ArchiMateLayout.ArchiMateDiagram) (n : nat)
    (es : list ((string * string) * ArchiMateLayout.EdgeLabel)) : Prop :=
  NoDup (map fst es)
  /\ (forall k i label w h,
        In (k, ArchiMateLayout.RelationshipEdge i label w h) es ->
        exists rel,
          ArchiMateLayout.dg_relationships diagram !! i = Some rel
          /\ (i < n)%nat /\ archiRelKey rel = k /\ joinsElements diagram rel = true
          /\ forall j rel', (i < j)%nat -> (j < n)%nat ->
               ArchiMateLayout.dg_relationships diagram !! j = Some rel' ->
               joinsElements diagram rel' = true -> archiRelKey rel' <> k)
  /\ (forall j rel, (j < n)%nat ->
        ArchiMateLayout.dg_relationships diagram !! j = Some rel ->
        joinsElements diagram rel = true ->
        exists i label w h,
          In (archiRelKey rel, ArchiMateLayout.RelationshipEdge i label w h) es).

(** ** The SVG renderer of ArchiMate diagrams ([src/archimate/renderer.ts]) *)

Module ArchiMateRenderer.

(** [text.replace(/c/g, replacement)] for a pattern that is one literal
    code unit [c] and a replacement without [$]: every occurrence of [c]
    gives way to the replacement, the rest is kept. *)
Definition replaceAll (c : Z) (replacement : jsstring) (text : jsstring) : jsstring :=
  flat_map (fun u => if (u =? c)%Z then replacement else [u]) text.

(** The entities [&amp;], [&lt;], [&gt;], [&quot;] and [&#39;]. *)
Definition amp : jsstring := [38; 97; 109; 112; 59]%Z.
Definition lt : jsstring := [38; 108; 116; 59]%Z.
Definition gt : jsstring := [38; 103; 116; 59]%Z.
Definition quot : jsstring := [38; 113; 117; 111; 116; 59]%Z.
Definition apos : jsstring := [38; 35; 51; 57; 59]%Z.

(** The five passes, [&] first. *)
Definition escapeXml (text : jsstring) : jsstring :=
  replaceAll 39 apos
    (replaceAll 34 quot
       (replaceAll 62 gt
          (replaceAll 60 lt
             (replaceAll 38 amp text)))).

(** The arc-length midpoint of a polyline.  [Math.sqrt] has no exact
    counterpart on the rationals; the functions below take it as the
    parameter [sqrt]. *)
Section Midpoint.

Variable sqrt : Q -> Q.

Definition segLen (prev curr : Point) : Q :=
  let dx := pt_x curr - pt_x prev in
  let dy := pt_y curr - pt_y prev in
  sqrt (dx * dx + dy * dy).

(** The first loop, from [points[i - 1] = prev] on. *)
Fixpoint pathLength (prev : Point) (rest : list Point) (totalLen : Q) : Q :=
  match rest with
  | [] => totalLen
  | curr :: rest' => pathLength curr rest' (totalLen + segLen prev curr)
  end.

(** The second loop; [None] when it ends without a [return]. *)
Fixpoint walk (halfLen : Q) (prev : Point) (rest : list Point) (walked : Q)
  : option Point :=
  match rest with
  | [] => None
  | curr :: rest' =>
      let dx := pt_x curr - pt_x prev in
      let dy := pt_y curr - pt_y prev in
      let segLen := sqrt (dx * dx + dy * dy) in
      if Qle_bool halfLen (walked + segLen)
      then
        let t := if Qlt_bool 0 segLen then (halfLen - walked) / segLen else 0 in
        Some (mkPoint (pt_x prev + dx * t) (pt_y prev + dy * t))
      else walk halfLen curr rest' (walked + segLen)
  end.

Definition midpoint (points : list Point) : Point :=
  match points with
  | [] => mkPoint 0 0
  | [p] => p
  | p0 :: rest =>
      let totalLen := pathLength p0 rest 0 in
      if Qeq_bool totalLen 0 then p0
      else
        let halfLen := totalLen / 2 in
        match walk halfLen p0 rest 0 with
        | Some mid => mid
        | None => List.last points p0
        end
  end.

End Midpoint.

End ArchiMateRenderer.

(** The characters [escapeXml] rewrites: the ampersand, the two angle
    brackets, the double and the single quote. *)
Definition isMarkup (u : Z) : bool :=
  ((u =? 38) || (u =? 60) || (u =? 62) || (u =? 34) || (u =? 39))%Z.

(** The segments of a polyline, and the points of a segment. *)
Definition segments (points : list Point) : list (Point * Point) :=
  zip points (tail points).

Definition onSegment (a b m : Point) : Prop :=
  exists t, 0 <= t /\ t <= 1
            /\ pt_x m == pt_x a + (pt_x b - pt_x a) * t
            /\ pt_y m == pt_y a + (pt_y b - pt_y a) * t.

(** A square root that is exact on the squares of the integers, to run
    [midpoint] on sample paths. *)
Definition sqrtOfSquares (x : Q) : Q := inject_Z (Z.sqrt (Qfloor x)).

(** What one code unit becomes. *)
Definition escapedUnit (u : Z) : jsstring :=
  if (u =? 38)%Z then ArchiMateRenderer.amp
  else if (u =? 60)%Z then ArchiMateRenderer.lt
  else if (u =? 62)%Z then ArchiMateRenderer.gt
  else if (u =? 34)%Z then ArchiMateRenderer.quot
  else if (u =? 39)%Z then ArchiMateRenderer.apos
  else [u].

(** ** Strings of the language *)

Module JS.

(** The code units [String.prototype.trim] strips and [parseInt] skips:
    the white space and the line terminators of ECMAScript. *)
Definition isWhiteSpace (u : Z) : bool :=
  ((9 <=? u) && (u <=? 13) || (u =? 32) || (u =? 160) || (u =? 5760)
   || (8192 <=? u) && (u <=? 8202) || (u =? 8232) || (u =? 8233) || (u =? 8239)
   || (u =? 8287) || (u =? 12288) || (u =? 65279))%Z.

Fixpoint trimStart (s : jsstring) : jsstring :=
  match s with
  | [] => []
  | u :: rest => if isWhiteSpace u then trimStart rest else s
  end.

Definition trimEnd (s : jsstring) : jsstring := rev (trimStart (rev s)).

Definition trim (s : jsstring) : jsstring := trimEnd (trimStart s).

End JS.

(** ** The arguments of a C4 statement ([src/c4/parser.ts]) *)

Module C4Parser.
Import JS.

(** The loop of [parseArgs] over the code units of [argsStr]; it leaves
    [args] and [current]. *)
Fixpoint parseArgsLoop (argsStr : jsstring) (args : list jsstring) (current : jsstring)
    (inQuotes : bool) : list jsstring * jsstring :=
  match argsStr with
  | [] => (args, current)
  | ch :: rest =>
      if (ch =? 34)%Z
      then parseArgsLoop rest args (current ++ [ch]) (negb inQuotes)
      else if (ch =? 44)%Z && negb inQuotes
      then parseArgsLoop rest (args ++ [trim current]) [] inQuotes
      else parseArgsLoop rest args (current ++ [ch]) inQuotes
  end.

(** Parse a comma-separated argument list, handling quoted strings. *)
Definition parseArgs (argsStr : jsstring) : list jsstring :=
  let '(args, current) := parseArgsLoop argsStr [] [] false in
  if (0 <? length (trim current))%nat then args ++ [trim current] else args.

(** Remove surrounding quotes from a string; [s.slice(1, -1)] drops the
    first and the last code unit. *)
Definition unquote (s : jsstring) : jsstring :=
  if (2 <=? length s)%nat
     && (List.hd 0 s =? 34)%Z && (List.last s 0 =? 34)%Z
  then removelast (tl s)
  else s.

End C4Parser.

(** A text between double quotes. *)
Definition quoted (s : jsstring) : jsstring := [34%Z] ++ s ++ [34%Z].

(** A text has neither this code unit ... *)
Definition lacks (u : Z) (s : jsstring) : bool := forallb (fun v => negb (v =? u)%Z) s.

(** ... nor white space at either end, and is not empty. *)
Definition tight (s : jsstring) : bool :=
  match s, rev s with
  | u :: _, z :: _ => negb (JS.isWhiteSpace u) && negb (JS.isWhiteSpace z)
  | _, _ => false
  end.

(** An argument as it may be written: a quoted text without a double
    quote inside, or a bare word without comma or double quote. *)
Definition wellFormedArg (a : jsstring) : Prop :=
  (exists s, a = quoted s /\ lacks 34 s = true)
  \/ (lacks 34 a = true /\ lacks 44 a = true /\ tight a = true).

(** An argument list as it may be written: the arguments, each between
    optional white space, separated by commas. *)
Definition padded (piece : jsstring * jsstring * jsstring) : jsstring :=
  fst (fst piece) ++ snd (fst piece) ++ snd piece.

Fixpoint writtenArgs (pieces : list (jsstring * jsstring * jsstring)) : jsstring :=
  match pieces with
  | [] => []
  | [piece] => padded piece
  | piece :: rest => padded piece ++ [44%Z] ++ writtenArgs rest
  end.

Definition wellFormedPiece (piece : jsstring * jsstring * jsstring) : Prop :=
  forallb JS.isWhiteSpace (fst (fst piece)) = true
  /\ forallb JS.isWhiteSpace (snd piece) = true
  /\ wellFormedArg (snd (fst piece)).

(** ** The element types of the ArchiMate parser ([src/archimate/parser.ts]) *)

Module ArchiMateParser.

(** Valid element types per layer; each [Set] in the order of its
    literal. *)
Definition LAYER_ELEMENT_TYPES (layer : ArchiMateLayout.ArchiMateLayer) : list string :=
  match layer with
  | ArchiMateLayout.business =>
      ["actor"; "role"; "process"; "function"; "service"; "object";
       "event"; "interface"; "collaboration"; "interaction";
       "contract"; "representation"; "product"]
  | ArchiMateLayout.application =>
      ["component"; "collaboration"; "interface"; "function"; "interaction";
       "process"; "event"; "service"; "dataObject"]
  | ArchiMateLayout.technology =>
      ["node"; "device"; "systemSoftware"; "artifact";
       "communicationNetwork"; "path"; "interface"; "function";
       "process"; "interaction"; "event"; "service"]
  | ArchiMateLayout.strategy =>
      ["resource"; "capability"; "valueStream"; "courseOfAction"]
  | ArchiMateLayout.motivation =>
      ["stakeholder"; "driver"; "assessment"; "goal"; "outcome";
       "principle"; "requirement"; "constraint"; "meaning"; "value"]
  | ArchiMateLayout.physical =>
      ["equipment"; "facility"; "distributionNetwork"; "material"]
  | ArchiMateLayout.implementation =>
      ["workPackage"; "deliverable"; "implementationEvent"; "plateau"; "gap"]
  end.

(** [Set.prototype.has] and [Set.prototype.add] on a set kept in
    insertion order. *)
Definition setHas (s : list string) (t : string) : bool := bool_decide (t ∈ s).

Definition setAdd (s : list string) (t : string) : list string :=
  if setHas s t then s else s ++ [t].

(** [Object.values(LAYER_ELEMENT_TYPES)]: the values in the order of the
    keys of the literal. *)
Definition layerKeys : list ArchiMateLayout.ArchiMateLayer :=
  [ArchiMateLayout.business; ArchiMateLayout.application; ArchiMateLayout.technology;
   ArchiMateLayout.strategy; ArchiMateLayout.motivation; ArchiMateLayout.physical;
   ArchiMateLayout.implementation].

(** Build a set of all valid element type names across all layers. *)
Definition buildAllElementTypes : list string :=
  fold_left (fun all types => fold_left setAdd types all)
            (map LAYER_ELEMENT_TYPES layerKeys) [].

Definition ALL_ELEMENT_TYPES : list string := buildAllElementTypes.

(** Check if a type name is a valid element type for the given layer. *)
Definition isValidElementType (typeName : string)
    (layer : ArchiMateLayout.ArchiMateLayer) : bool :=
  if setHas (LAYER_ELEMENT_TYPES layer) typeName then true
  else setHas ALL_ELEMENT_TYPES typeName.

End ArchiMateParser.

(** ** The grid of the ASCII renderer of C4 diagrams
       ([src/ascii/c4-diagram.ts]) *)

Module AsciiC4.
Import C4Layout.

(** Build sections for an element box: [label], [technology +
    description]. *)
Definition buildElementSections (element : C4Element) : list (list jsstring) :=
  let header := [el_label element] in
  let details : list jsstring := [] in
  let details :=
    match truthy (el_technology element) with
    | Some technology => details ++ [[91%Z] ++ technology ++ [93%Z]]
    | None => details
    end in
  let details :=
    match truthy (el_description element) with
    | Some description => details ++ [description]
    | None => details
    end in
  if (length details =? 0)%nat then [header] else [header; details].

(** Compute box dimensions for an element's sections; [line.length]
    counts code units. *)
Definition computeBoxSize (sections : list (list jsstring)) : Z * Z :=
  let maxTextW :=
    fold_left (fun maxTextW section =>
                 fold_left (fun maxTextW line => Z.max maxTextW (Z.of_nat (length line)))
                           section maxTextW)
              sections 0%Z in
  let boxW := (maxTextW + 4)%Z in
  let totalLines :=
    fold_left (fun totalLines section =>
                 (totalLines + Z.max (Z.of_nat (length section)) 1)%Z)
              sections 0%Z in
  let boxH := (totalLines + (Z.of_nat (length sections) - 1) + 2)%Z in
  (boxW, boxH).

(** Height of the stick figure above the person box. *)
Definition PERSON_FIGURE_HEIGHT : Z := 3.

Definition hGap : Z := 6.
Definition vGap : Z := 4.

Record PlacedElement := mkPlaced {
  p_element : C4Element;
  p_sections : list (list jsstring);
  p_x : Z;
  p_y : Z;
  p_width : Z;
  p_height : Z
}.

Definition boxW (el : C4Element) : Z :=
  Z.max (fst (computeBoxSize (buildElementSections el))) 16.

Definition boxH (el : C4Element) : Z :=
  let extraH := if isPerson (el_kind el) then PERSON_FIGURE_HEIGHT else 0%Z in
  (snd (computeBoxSize (buildElementSections el)) + extraH)%Z.

(** The three maps of box dimensions, by alias. *)
Definition elementSections (elements : list C4Element)
  : gmap string (list (list jsstring)) :=
  fold_left (fun m el => <[el_alias el := buildElementSections el]> m) elements ∅.

Definition elementBoxW (elements : list C4Element) : gmap string Z :=
  fold_left (fun m el => <[el_alias el := boxW el]> m) elements ∅.

Definition elementBoxH (elements : list C4Element) : gmap string Z :=
  fold_left (fun m el => <[el_alias el := boxH el]> m) elements ∅.

(** [Math.max(2, Math.ceil(Math.sqrt(n)))]; for the length of an array
    the rounded square root has the ceiling of the exact one. *)
Definition maxPerRow (n : nat) : Z := Z.max 2 (Z.sqrt_up (Z.of_nat n)).

(** The placement loop.  The three [get(el.alias)!] cannot miss, the
    maps having an entry for every alias; the fallbacks are dead. *)
Fixpoint place (sectionsOf : gmap string (list (list jsstring)))
    (widthOf heightOf : gmap string Z) (maxPerRow : Z) (elements : list C4Element)
    (placed : gmap string PlacedElement) (currentX currentY maxRowH colCount : Z)
  : gmap string PlacedElement :=
  match elements with
  | [] => placed
  | el :: rest =>
      let w := default (boxW el) (widthOf !! el_alias el) in
      let h := default (boxH el) (heightOf !! el_alias el) in
      let wrap := (maxPerRow <=? colCount)%Z in
      let currentY := if wrap then (currentY + (maxRowH + vGap))%Z else currentY in
      let currentX := if wrap then 0%Z else currentX in
      let maxRowH := if wrap then 0%Z else maxRowH in
      let colCount := if wrap then 0%Z else colCount in
      place sectionsOf widthOf heightOf maxPerRow rest
        (<[el_alias el :=
             mkPlaced el (default (buildElementSections el) (sectionsOf !! el_alias el))
                      currentX currentY w h]> placed)
        (currentX + (w + hGap))%Z currentY (Z.max maxRowH h) (colCount + 1)%Z
  end.

(** The map [placed] of [renderC4Ascii]. *)
Definition placed (elements : list C4Element) : gmap string PlacedElement :=
  place (elementSections elements) (elementBoxW elements) (elementBoxH elements)
        (maxPerRow (length elements)) elements ∅ 0 0 0 0.

End AsciiC4.

(** The box [p] ends at least a gap before the box [q] begins, to its
    left or above it. *)
Definition apart (p q : AsciiC4.PlacedElement) : Prop :=
  (AsciiC4.p_x p + AsciiC4.p_width p + AsciiC4.hGap <= AsciiC4.p_x q)%Z
  \/ (AsciiC4.p_y p + AsciiC4.p_height p + AsciiC4.vGap <= AsciiC4.p_y q)%Z.

(** What holds of the boxes placed so far, at the top of the loop: each
    is in the current row, left of [currentX] and no higher than
    [maxRowH], or in a row above; any two are apart. *)
Definition gridOk (boxes : gmap string AsciiC4.PlacedElement)
    (currentX currentY maxRowH : Z) : Prop :=
  (0 <= currentX)%Z /\ (0 <= currentY)%Z /\ (0 <= maxRowH)%Z
  /\ (forall k p, boxes !! k = Some p ->
        (0 <= AsciiC4.p_x p)%Z /\ (0 <= AsciiC4.p_y p)%Z
        /\ (16 <= AsciiC4.p_width p)%Z /\ (0 <= AsciiC4.p_height p)%Z
        /\ ((AsciiC4.p_y p = currentY
             /\ (AsciiC4.p_x p + AsciiC4.p_width p + AsciiC4.hGap <= currentX)%Z
             /\ (AsciiC4.p_height p <= maxRowH)%Z)
            \/ (AsciiC4.p_y p + AsciiC4.p_height p + AsciiC4.vGap <= currentY)%Z))
  /\ (forall k1 k2 p1 p2, k1 <> k2 -> boxes !! k1 = Some p1 -> boxes !! k2 = Some p2 ->
        apart p1 p2 \/ apart p2 p1).

(** ** Static colours ([src/theme.ts]) *)

Module Theme.

(** A number that may be [NaN]. *)
Definition num := option Q.

(** The value of a digit in radix 16. *)
Definition hexValue (u : Z) : option Z :=
  if ((48 <=? u) && (u <=? 57))%Z then Some (u - 48)%Z
  else if ((97 <=? u) && (u <=? 102))%Z then Some (u - 87)%Z
  else if ((65 <=? u) && (u <=? 70))%Z then Some (u - 55)%Z
  else None.

Definition isHexDigit (u : Z) : bool :=
  match hexValue u with Some _ => true | None => false end.

(** The value of the longest prefix of digits. *)
Fixpoint digits16 (s : jsstring) (value : Z) : Z :=
  match s with
  | u :: rest =>
      match hexValue u with
      | Some d => digits16 rest (value * 16 + d)%Z
      | None => value
      end
  | [] => value
  end.

(** [parseInt(s, 16)]: leading white space, a sign and a [0x] prefix are
    skipped, then come the digits; [None] is [NaN].  The value is exact,
    as [parseInt] is on the strings of two code units it gets here. *)
Definition parseInt16 (s : jsstring) : option Z :=
  let s := JS.trimStart s in
  let sign := match s with 45%Z :: _ => (-1)%Z | _ => 1%Z end in
  let s := match s with
           | 45%Z :: rest => rest
           | 43%Z :: rest => rest
           | _ => s
           end in
  let s := match s with
           | 48%Z :: 120%Z :: rest => rest
           | 48%Z :: 88%Z :: rest => rest
           | _ => s
           end in
  match s with
  | u :: _ => if isHexDigit u then Some (sign * digits16 s 0)%Z else None
  | [] => None
  end.

(** Parsed RGBA color (alpha is optional - absent means fully opaque). *)
Record RGBA := mkRGBA {
  rgba_r : num;
  rgba_g : num;
  rgba_b : num;
  rgba_a : option num
}.

(** What the functions throw: [Invalid hex color: '<hex>'. Expected ...]
    and [Invalid color for '<label>': '<value>'. Only hex colors ...]. *)
Inductive ThemeError :=
  | InvalidHexColor (hex : jsstring)
  | InvalidColor (label : string) (value : jsstring).

(** [s.slice(from, to)] for indices within the string. *)
Definition slice (s : jsstring) (from to : nat) : jsstring :=
  firstn (to - from) (skipn from s).

(** [Math.max(0, Math.min(255, n))]; [NaN] stays [NaN]. *)
Definition clamp (n : num) : num := (fun q => Qmax 0 (Qmin 255 q)) <$> n.

Definition channel (s : jsstring) : num := inject_Z <$> parseInt16 s.

(** Parse a hex color string (#RGB, #RRGGBB, or #RRGGBBAA) to RGBA. *)
Definition parseHex (hex : jsstring) : ThemeError + RGBA :=
  let h := match hex with 35%Z :: rest => rest | _ => hex end in
  let h := match h with
           | [h0; h1; h2] => [h0; h0; h1; h1; h2; h2]
           | _ => h
           end in
  if negb (length h =? 6)%nat && negb (length h =? 8)%nat
  then inl (InvalidHexColor hex)
  else
    let r := channel (slice h 0 2) in
    let g := channel (slice h 2 4) in
    let b := channel (slice h 4 6) in
    if (length h =? 8)%nat
    then inr (mkRGBA r g b (Some (clamp (channel (slice h 6 8)))))
    else inr (mkRGBA r g b None).

(** The digit of a value below 16, in lower case. *)
Definition hexDigit (d : Z) : Z := if (d <? 10)%Z then (48 + d)%Z else (87 + d)%Z.

(** [k.toString(16)] for an integer [k] from 0 to 255, which is what
    the clamped and rounded channel is. *)
Definition toString16 (k : Z) : jsstring :=
  if (k <? 16)%Z then [hexDigit k] else [hexDigit (k / 16); hexDigit (k mod 16)].

(** [s.padStart(2, '0')] *)
Definition padStart2 (s : jsstring) : jsstring :=
  match s with
  | [] => [48; 48]%Z
  | [u] => [48%Z; u]
  | _ => s
  end.

(** The helper [c] of [toHex]; [Math.round] rounds half up, and
    [NaN.toString(16)] is [NaN]. *)
Definition c (n : num) : jsstring :=
  match clamp n with
  | Some q => padStart2 (toString16 (Qfloor (q + (1 # 2))))
  | None => [78; 97; 78]%Z
  end.

(** Convert RGBA to hex string.  Emits #RRGGBBAA when alpha is present
    and not 255, otherwise #RRGGBB. *)
Definition toHex (rgba : RGBA) : jsstring :=
  let hex := [35%Z] ++ c (rgba_r rgba) ++ c (rgba_g rgba) ++ c (rgba_b rgba) in
  match rgba_a rgba with
  | Some alpha =>
      let is255 := match alpha with Some q => Qeq_bool q 255 | None => false end in
      if negb is255 then hex ++ c alpha else hex
  | None => hex
  end.

(** [b + t * (f - b)] on numbers that may be [NaN]. *)
Definition mix (t : Q) (f b : num) : num :=
  match f, b with
  | Some f, Some b => Some (b + t * (f - b))
  | _, _ => None
  end.

(** Linear interpolation of two hex colors in sRGB space. *)
Definition colorMix (fg bg : jsstring) (pct : Q) : ThemeError + jsstring :=
  match parseHex fg with
  | inl e => inl e
  | inr f =>
      match parseHex bg with
      | inl e => inl e
      | inr b =>
          let t := pct / 100 in
          let r := mix t (rgba_r f) (rgba_r b) in
          let g := mix t (rgba_g f) (rgba_g b) in
          let b' := mix t (rgba_b f) (rgba_b b) in
          match rgba_a f, rgba_a b with
          | None, None => inr (toHex (mkRGBA r g b' None))
          | fa, ba =>
              let fa := default (Some 255) fa in
              let ba := default (Some 255) ba in
              inr (toHex (mkRGBA r g b' (Some (clamp (mix t fa ba)))))
          end
      end
  end.

(** Hex color pattern: matches #RGB, #RRGGBB, or #RRGGBBAA. *)
Definition HEX_RE (value : jsstring) : bool :=
  match value with
  | 35%Z :: digits =>
      ((length digits =? 3)%nat || (length digits =? 6)%nat || (length digits =? 8)%nat)
      && forallb isHexDigit digits
  | _ => false
  end.

(** Validate that a color string is a hex value. *)
Definition validateHexColor (value : jsstring) (label : string) : ThemeError + unit :=
  if negb (HEX_RE value) then inl (InvalidColor label value) else inr tt.

(** Diagram color configuration. *)
Record DiagramColors := mkColors {
  dc_bg : jsstring;
  dc_fg : jsstring;
  dc_line : option jsstring;
  dc_accent : option jsstring;
  dc_muted : option jsstring;
  dc_surface : option jsstring;
  dc_border : option jsstring
}.

(** The keys of [DiagramColors], their names and [colors[key]]. *)
Inductive ColorKey := key_bg | key_fg | key_line | key_accent | key_muted
                    | key_surface | key_border.

Definition keyName (key : ColorKey) : string :=
  match key with
  | key_bg => "bg" | key_fg => "fg" | key_line => "line" | key_accent => "accent"
  | key_muted => "muted" | key_surface => "surface" | key_border => "border"
  end.

Definition colorOf (colors : DiagramColors) (key : ColorKey) : option jsstring :=
  match key with
  | key_bg => Some (dc_bg colors) | key_fg => Some (dc_fg colors)
  | key_line => dc_line colors | key_accent => dc_accent colors
  | key_muted => dc_muted colors | key_surface => dc_surface colors
  | key_border => dc_border colors
  end.

(** color-mix() weights for derived CSS variables. *)
Inductive MixKey := text | textSec | textMuted | textFaint | line | arrow | nodeFill
                  | nodeStroke | groupHeader | innerStroke | keyBadge.

Definition MIX (key : MixKey) : Q :=
  match key with
  | text => 100 | textSec => 60 | textMuted => 40 | textFaint => 25 | line => 30
  | arrow => 50 | nodeFill => 3 | nodeStroke => 20 | groupHeader => 5
  | innerStroke => 12 | keyBadge => 10
  end.

Inductive Source := source_fg | source_bg.

Record DeriveRule := mkRule {
  cssVar : string;
  mixKey : option MixKey;
  override : option ColorKey;
  source : option Source
}.

(** Derivation graph for all internal CSS color variables. *)
Definition COLOR_GRAPH : list DeriveRule :=
  [mkRule "_text" (Some text) None (Some source_fg);
   mkRule "_text-sec" (Some textSec) (Some key_muted) None;
   mkRule "_text-muted" (Some textMuted) (Some key_muted) None;
   mkRule "_text-faint" (Some textFaint) None None;
   mkRule "_line" (Some line) (Some key_line) None;
   mkRule "_arrow" (Some arrow) (Some key_accent) None;
   mkRule "_node-fill" (Some nodeFill) (Some key_surface) None;
   mkRule "_node-stroke" (Some nodeStroke) (Some key_border) None;
   mkRule "_group-fill" None None (Some source_bg);
   mkRule "_group-hdr" (Some groupHeader) None None;
   mkRule "_inner-stroke" (Some innerStroke) None None;
   mkRule "_key-badge" (Some keyBadge) None None].

(** [result[key] = value] on an object whose keys are kept in insertion
    order. *)
Definition setProp (result : list (string * jsstring)) (key : string) (value : jsstring)
  : list (string * jsstring) :=
  if existsb (fun entry => String.eqb (fst entry) key) result
  then map (fun entry => if String.eqb (fst entry) key then (key, value) else entry) result
  else result ++ [(key, value)].

(** The mix of a rule; [MIX[rule.mixKey!]] cannot miss, every rule
    without a source having its mix key; the fallback is dead. *)
Definition mixed (colors : DiagramColors) (rule : DeriveRule) : ThemeError + jsstring :=
  colorMix (dc_fg colors) (dc_bg colors) (default 0 (MIX <$> mixKey rule)).

(** The value of one rule. *)
Definition resolveRule (colors : DiagramColors) (rule : DeriveRule)
  : ThemeError + jsstring :=
  match source rule with
  | Some source_fg => inr (dc_fg colors)
  | Some source_bg => inr (dc_bg colors)
  | None =>
      match override rule with
      | Some key =>
          match C4Layout.truthy (colorOf colors key) with
          | Some overrideValue =>
              match validateHexColor overrideValue (keyName key) with
              | inl e => inl e
              | inr _ => inr overrideValue
              end
          | None => mixed colors rule
          end
      | None => mixed colors rule
      end
  end.

(** The loop over the rules. *)
Fixpoint resolveRules (colors : DiagramColors) (rules : list DeriveRule)
    (result : list (string * jsstring)) : ThemeError + list (string * jsstring) :=
  match rules with
  | [] => inr result
  | rule :: rest =>
      match resolveRule colors rule with
      | inl e => inl e
      | inr value => resolveRules colors rest (setProp result (cssVar rule) value)
      end
  end.

(** Resolve the full color cascade from DiagramColors to literal hex
    values. *)
Definition resolveColors (colors : DiagramColors)
  : ThemeError + list (string * jsstring) :=
  match validateHexColor (dc_bg colors) "bg" with
  | inl e => inl e
  | inr _ =>
      match validateHexColor (dc_fg colors) "fg" with
      | inl e => inl e
      | inr _ => resolveRules colors COLOR_GRAPH [("bg", dc_bg colors)]
      end
  end.

End Theme.

(** The digits of radix 16, a digit in lower case, and the two digits of
    a byte. *)
Definition hexDigits : list Z :=
  [48; 49; 50; 51; 52; 53; 54; 55; 56; 57;
   97; 98; 99; 100; 101; 102; 65; 66; 67; 68; 69; 70]%Z.

Definition lowerHex (u : Z) : Z :=
  if ((65 <=? u) && (u <=? 70))%Z then (u + 32)%Z else u.

Definition byteHex (k : Z) : jsstring := Theme.padStart2 (Theme.toString16 k).

Fixpoint jsEqb (s t : jsstring) : bool :=
  match s, t with
  | [], [] => true
  | u :: s', v :: t' => (u =? v)%Z && jsEqb s' t'
  | _, _ => false
  end.

(** The canonical writing of a hex colour: six or eight digits in lower
    case, without the alpha channel when it is [ff]. *)
Definition canonicalHex (value : jsstring) : jsstring :=
  match value with
  | 35%Z :: digits =>
      let digits :=
        map lowerHex
            match digits with
            | [d0; d1; d2] => [d0; d0; d1; d1; d2; d2]
            | _ => digits
            end in
      35%Z :: (if jsEqb (skipn 6 digits) [102; 102]%Z then firstn 6 digits else digits)
  | _ => value
  end.

(** Two colours with the same channels. *)
Definition sameNum (x y : Theme.num) : Prop :=
  match x, y with
  | Some p, Some q => p == q
  | None, None => True
  | _, _ => False
  end.

Definition sameColor (x y : Theme.RGBA) : Prop :=
  sameNum (Theme.rgba_r x) (Theme.rgba_r y)
  /\ sameNum (Theme.rgba_g x) (Theme.rgba_g y)
  /\ sameNum (Theme.rgba_b x) (Theme.rgba_b y)
  /\ match Theme.rgba_a x, Theme.rgba_a y with
     | Some p, Some q => sameNum p q
     | None, None => True
     | _, _ => False
     end.

(** What is checked of a pair of digits and of a byte, by running the
    functions on each of them. *)
Definition pairChecked (d1 d2 : Z) : bool :=
  match Theme.parseInt16 [d1; d2] with
  | Some k =>
      (0 <=? k)%Z && (k <=? 255)%Z
      && jsEqb (byteHex k) [lowerHex d1; lowerHex d2]
      && Bool.eqb (k =? 255)%Z (jsEqb [lowerHex d1; lowerHex d2] [102; 102]%Z)
  | None => false
  end.

Definition byteChecked (k : Z) : bool :=
  match byteHex k with
  | [d1; d2] =>
      Theme.isHexDigit d1 && Theme.isHexDigit d2
      && (lowerHex d1 =? d1)%Z && (lowerHex d2 =? d2)%Z
      && match Theme.parseInt16 [d1; d2] with
         | Some k' => (k' =? k)%Z
         | None => false
         end
  | _ => false
  end.

(** A colour without the [#] it may start with. *)
Definition withoutHash (hex : jsstring) : jsstring :=
  match hex with
  | 35%Z :: rest => rest
  | _ => hex
  end.

(** A code unit with which no number starts for [parseInt(s, 16)]: no
    hex digit, no white space, no sign. *)
Definition startsNoNumber (u : Z) : bool :=
  negb (Theme.isHexDigit u || JS.isWhiteSpace u || (u =? 43)%Z || (u =? 45)%Z).

(** A colour of three bytes and, when given, an alpha byte. *)
Definition ofBytes (r g b : Z) (a : option Z) : Theme.RGBA :=
  Theme.mkRGBA (Some (inject_Z r)) (Some (inject_Z g)) (Some (inject_Z b))
               ((fun k => Some (inject_Z k)) <$> a).

Definition isByte (k : Z) : Prop := (0 <= k <= 255)%Z.

(** A colour of bytes as it is written: the alpha byte is left out when
    it is 255. *)
Definition alphaHex (a : option Z) : jsstring :=
  match a with
  | Some k => if (k =? 255)%Z then [] else byteHex k
  | None => []
  end.

Definition writtenHex (r g b : Z) (a : option Z) : jsstring :=
  [35%Z] ++ byteHex r ++ byteHex g ++ byteHex b ++ alphaHex a.

(** The channels [x] holds are the bytes [r], [g], [b] and [a]. *)
Definition holdsBytes (x : Theme.RGBA) (r g b : Z) (a : option Z) : Prop :=
  isByte r /\ isByte g /\ isByte b
  /\ sameNum (Theme.rgba_r x) (Some (inject_Z r))
  /\ sameNum (Theme.rgba_g x) (Some (inject_Z g))
  /\ sameNum (Theme.rgba_b x) (Some (inject_Z b))
  /\ match Theme.rgba_a x, a with
     | None, None => True
     | Some alpha, Some k => isByte k /\ sameNum alpha (Some (inject_Z k))
     | _, _ => False
     end.

(** ** Display widths of the ASCII renderer ([src/ascii/cjk-width.ts],
       [src/ascii/display-width.ts]) *)

Module AsciiWidth.

(** Unicode ranges for CJK characters. *)
Definition CJK_RANGES : list (Z * Z) :=
  [(0x4E00, 0x9FFF); (0x3400, 0x4DBF); (0x20000, 0x2A6DF); (0x2A700, 0x2B73F);
   (0x2B740, 0x2B81F); (0x3000, 0x303F); (0xFF00, 0xFFEF); (0x3040, 0x309F);
   (0x30A0, 0x30FF); (0xAC00, 0xD7AF); (0x3130, 0x318F)]%Z.

(** Check if a character is a CJK (East Asian Wide) character. *)
Definition isCJK (char : jsstring) : bool :=
  if (length char =? 0)%nat then false
  else
    let code := charCodeAt0 char in
    existsb (fun range => in_range (fst range) (snd range) code) CJK_RANGES.

(** Calculate the display width of a string in monospace terminals. *)
Definition getDisplayWidth (str : jsstring) : Z :=
  fold_left (fun width char => (width + (if isCJK char then 2 else 1))%Z) (chars str) 0%Z.

(** [ch.codePointAt(0)]: the code point of a surrogate pair, else the
    first code unit; [-1] stands for the [undefined] of the empty
    string, which compares false with every bound. *)
Definition codePointAt0 (ch : jsstring) : Z :=
  match ch with
  | [] => (-1)%Z
  | [c] => c
  | c :: d :: _ =>
      if isLeadSurrogate c && isTrailSurrogate d
      then ((c - 0xD800) * 0x400 + (d - 0xDC00) + 0x10000)%Z
      else c
  end.

(** Returns true if [ch] is a full-width character that occupies two
    columns in a monospace / terminal display. *)
Definition isWideChar (ch : jsstring) : bool :=
  let code := codePointAt0 ch in
  in_range 0x1100 0x115f code ||
  in_range 0x2e80 0x303e code ||
  in_range 0x3040 0x33bf code ||
  in_range 0x3400 0x4dbf code ||
  in_range 0x4e00 0x9fff code ||
  in_range 0xa960 0xa97c code ||
  in_range 0xac00 0xd7a3 code ||
  in_range 0xf900 0xfaff code ||
  in_range 0xfe10 0xfe19 code ||
  in_range 0xfe30 0xfe6f code ||
  in_range 0xff00 0xff60 code ||
  in_range 0xffe0 0xffe6 code ||
  in_range 0x1f000 0x1faff code ||
  in_range 0x20000 0x2fa1f code.

(** Returns the display width of [text] in a monospace terminal. *)
Definition displayWidth (text : jsstring) : Z :=
  fold_left (fun w ch => (w + (if isWideChar ch then 2 else 1))%Z) (chars text) 0%Z.

End AsciiWidth.

(** The code point that a lead and a trail surrogate write. *)
Definition pairCodePoint (lead trail : Z) : Z :=
  (0x10000 + (lead - 0xD800) * 0x400 + (trail - 0xDC00))%Z.

(** A code point lies in one of the ranges of a list. *)
Definition inRanges (ranges : list (Z * Z)) (code : Z) : Prop :=
  exists range, In range ranges /\ (fst range <= code <= snd range)%Z.

(** A channel of a mix lies between the channels of the two colours. *)
Definition betweenNum (mixed one other : Theme.num) : Prop :=
  match mixed, one, other with
  | Some m, Some p, Some q => Qmin p q <= m /\ m <= Qmax p q
  | _, _, _ => False
  end.

(** * Properties *)

(** ** Text metrics *)

Section TextMetrics.

Lemma charColumns_head c rest : charColumns (c :: rest) = charColumns [c].
Proof. reflexivity. Qed.

Lemma charColumns_values char : charColumns char = 1%Z \/ charColumns char = 2%Z.
Proof. unfold charColumns. destruct (isFullWidth char); auto. Qed.

Lemma charColumns_pos char : (1 <= charColumns char)%Z.
Proof. destruct (charColumns_values char) as [-> | ->]; lia. Qed.

Lemma columns_shift (l : list jsstring) (a : Z) :
  fold_left (fun width char => (width + charColumns char)%Z) l a
  = (a + fold_left (fun width char => (width + charColumns char)%Z) l 0)%Z.
Proof.
  revert a. induction l as [| x l IH]; intros a; cbn [fold_left].
  - lia.
  - rewrite (IH (a + charColumns x)%Z), (IH (0 + charColumns x)%Z). lia.
Qed.

Lemma getDisplayWidth_nil : getDisplayWidth [] = 0%Z.
Proof. reflexivity. Qed.

Lemma getDisplayWidth_one c : getDisplayWidth [c] = charColumns [c].
Proof. reflexivity. Qed.

Lemma getDisplayWidth_two c d rest :
  getDisplayWidth (c :: d :: rest)
  = if isLeadSurrogate c && isTrailSurrogate d
    then (charColumns [c; d] + getDisplayWidth rest)%Z
    else (charColumns [c] + getDisplayWidth (d :: rest))%Z.
Proof.
  unfold getDisplayWidth. cbn [chars].
  destruct (isLeadSurrogate c && isTrailSurrogate d);
    cbn [fold_left]; rewrite columns_shift; lia.
Qed.

(** Induction over a string two code units at a time, the way the
    iterator consumes it. *)
Lemma jsstring_pair_ind (P : jsstring -> Prop) :
  P [] -> (forall c, P [c]) ->
  (forall c d rest, P rest -> P (d :: rest) -> P (c :: d :: rest)) ->
  forall text, P text.
Proof.
  intros Hnil Hone Hstep text.
  assert (H : P text /\ forall c, P (c :: text)); [| apply H].
  induction text as [| d rest [IH1 IH2]]; split; auto.
Qed.

Lemma getDisplayWidth_nonneg text : (0 <= getDisplayWidth text)%Z.
Proof.
  induction text as [| c | c d rest IH1 IH2] using jsstring_pair_ind.
  - rewrite getDisplayWidth_nil. lia.
  - rewrite getDisplayWidth_one. pose proof (charColumns_pos [c]). lia.
  - rewrite getDisplayWidth_two.
    pose proof (charColumns_pos [c]). pose proof (charColumns_pos [c; d]).
    destruct (isLeadSurrogate c && isTrailSurrogate d); lia.
Qed.

(** Appending code units never narrows a text. *)
Lemma getDisplayWidth_app_le text more :
  (getDisplayWidth text <= getDisplayWidth (text ++ more))%Z.
Proof.
  induction text as [| c | c d rest IH1 IH2] using jsstring_pair_ind.
  - rewrite getDisplayWidth_nil. apply getDisplayWidth_nonneg.
  - rewrite getDisplayWidth_one. destruct more as [| d more]; simpl app.
    + rewrite getDisplayWidth_one. lia.
    + rewrite getDisplayWidth_two, (charColumns_head c [d]).
      pose proof (getDisplayWidth_nonneg more).
      pose proof (getDisplayWidth_nonneg (d :: more)).
      destruct (isLeadSurrogate c && isTrailSurrogate d); lia.
  - simpl app. rewrite !getDisplayWidth_two. simpl app in IH2.
    destruct (isLeadSurrogate c && isTrailSurrogate d); lia.
Qed.

(** A surrogate pair, which is how every code point above U+FFFF (the
    emoji blocks among them) is stored, is one item of one column. *)
Lemma surrogate_pair_one_column c d :
  isLeadSurrogate c = true -> isTrailSurrogate d = true ->
  chars [c; d] = [[c; d]] /\ charColumns [c; d] = 1%Z.
Proof.
  intros Hc Hd. split.
  - simpl. rewrite Hc, Hd. reflexivity.
  - unfold charColumns, isFullWidth, charCodeAt0.
    unfold isLeadSurrogate, in_range in *.
    apply andb_true_iff in Hc as [H1 H2].
    apply Z.leb_le in H1. apply Z.leb_le in H2.
    replace (_ || _) with false; [reflexivity |].
    symmetry. repeat (apply orb_false_iff; split);
      apply andb_false_iff;
      first [ left; apply Z.leb_gt; lia | right; apply Z.leb_gt; lia ].
Qed.

Lemma widthRatio_values w :
  widthRatio w = 58 # 100 \/ widthRatio w = 55 # 100 \/ widthRatio w = 52 # 100.
Proof.
  unfold widthRatio. destruct (Qle_bool 600 w); auto. destruct (Qle_bool 500 w); auto.
Qed.

(** The ratio by weight: 0.58 from 600, 0.55 from 500, 0.52 below. *)
Lemma widthRatio_thresholds w :
  (600 <= w -> widthRatio w = 58 # 100)
  /\ (500 <= w -> w < 600 -> widthRatio w = 55 # 100)
  /\ (w < 500 -> widthRatio w = 52 # 100).
Proof.
  unfold widthRatio.
  destruct (Qle_bool 600 w) eqn:A; destruct (Qle_bool 500 w) eqn:B;
    try (apply Qle_bool_iff in A); try (apply Qle_bool_iff in B);
    try (assert (~ 600 <= w) by (rewrite <- Qle_bool_iff; congruence));
    try (assert (~ 500 <= w) by (rewrite <- Qle_bool_iff; congruence));
    repeat split; intros; try reflexivity; exfalso; lra.
Qed.

(** The code units that count two columns: those of the eight ranges. *)
Lemma isFullWidth_ranges char :
  isFullWidth char = true
  <-> exists code rest,
        char = code :: rest
        /\ ((0x1100 <= code <= 0x11ff)%Z \/ (0x3000 <= code <= 0x303f)%Z
            \/ (0x3040 <= code <= 0x309f)%Z \/ (0x30a0 <= code <= 0x30ff)%Z
            \/ (0x3130 <= code <= 0x318f)%Z \/ (0x4e00 <= code <= 0x9fff)%Z
            \/ (0xac00 <= code <= 0xd7af)%Z \/ (0xff00 <= code <= 0xffef)%Z).
Proof.
  assert (Hr : forall lo hi code, in_range lo hi code = true <-> (lo <= code <= hi)%Z).
  { intros lo hi code. unfold in_range. rewrite andb_true_iff, !Z.leb_le. reflexivity. }
  unfold isFullWidth. rewrite !orb_true_iff, !Hr.
  destruct char as [| code rest]; cbn [charCodeAt0].
  - split; [lia | intros (code & rest & [=] & _)].
  - split.
    + intros H. exists code, rest. split; [reflexivity | tauto].
    + intros (code' & rest' & [= <- <-] & H). tauto.
Qed.

Lemma widthRatio_pos w : 0 < widthRatio w.
Proof. destruct (widthRatio_values w) as [-> | [-> | ->]]; reflexivity. Qed.

(** A heavier weight never has a smaller ratio. *)
Lemma widthRatio_mono w1 w2 : w1 <= w2 -> widthRatio w1 <= widthRatio w2.
Proof.
  intros Hle. unfold widthRatio.
  destruct (Qle_bool 600 w1) eqn:A1; destruct (Qle_bool 600 w2) eqn:A2;
    destruct (Qle_bool 500 w1) eqn:B1; destruct (Qle_bool 500 w2) eqn:B2;
    try (apply Qle_bool_iff in A1); try (apply Qle_bool_iff in B1);
    try (assert (~ 600 <= w2) by (rewrite <- Qle_bool_iff; congruence));
    try (assert (~ 500 <= w2) by (rewrite <- Qle_bool_iff; congruence));
    try discriminate; try lra; try (exfalso; lra).
Qed.

End TextMetrics.

Lemma columns_count (l : list jsstring) :
  fold_left (fun width char => (width + charColumns char)%Z) l 0%Z
  = (2 * Z.of_nat (length (List.filter isFullWidth l))
     + Z.of_nat (length (List.filter (fun char => negb (isFullWidth char)) l)))%Z.
Proof.
  induction l as [| x l IH]; [reflexivity |].
  cbn [fold_left List.filter]. rewrite columns_shift, IH.
  unfold charColumns. destruct (isFullWidth x); cbn [negb length]; lia.
Qed.

Lemma estimateTextWidth_le_columns t1 t2 fontSize fontWeight :
  0 <= fontSize -> (getDisplayWidth t1 <= getDisplayWidth t2)%Z ->
  estimateTextWidth t1 fontSize fontWeight <= estimateTextWidth t2 fontSize fontWeight.
Proof.
  intros Hs Hle. unfold estimateTextWidth.
  pose proof (widthRatio_pos fontWeight) as Hr.
  apply Qmult_le_compat_r; [| lra].
  apply Qmult_le_compat_r; [| exact Hs].
  rewrite <- Zle_Qle. exact Hle.
Qed.

Lemma estimateTextWidth_nonneg text fontSize fontWeight :
  0 <= fontSize -> 0 <= estimateTextWidth text fontSize fontWeight.
Proof.
  intros Hs. unfold estimateTextWidth.
  pose proof (widthRatio_pos fontWeight) as Hr.
  pose proof (getDisplayWidth_nonneg text) as Hw. rewrite Zle_Qle in Hw.
  apply Qmult_le_0_compat; [apply Qmult_le_0_compat |]; auto; lra.
Qed.

(** C8, as stated, fails on an emoji: U+1F600 is one item of the string
    iterator, its first code unit 0xD83D lies in none of the ranges of
    [isFullWidth], and the text measures one column (5.2 px at size 10,
    weight 400), not two. *)
Lemma C8_emoji_counts_one_column :
  chars grinningFace = [grinningFace]
  /\ isFullWidth grinningFace = false
  /\ getDisplayWidth grinningFace = 1%Z
  /\ estimateTextWidth grinningFace 10 400 == 52 # 10
  /\ ~ estimateTextWidth grinningFace 10 400 == inject_Z 2 * 10 * widthRatio 400.
Proof.
  repeat split; try reflexivity. intros H. vm_compute in H. discriminate H.
Qed.

(** C8, amended: the estimate is (2 x the code points that count two
    columns + 1 x all the others) x font size x ratio; a code point
    counts two columns exactly when its first code unit lies in the
    Hangul Jamo (1100-11FF), CJK punctuation (3000-303F), Hiragana
    (3040-309F), Katakana (30A0-30FF), Hangul compatibility Jamo
    (3130-318F), CJK unified ideograph (4E00-9FFF), Hangul syllable
    (AC00-D7AF) or fullwidth-form (FF00-FFEF) range; a surrogate pair,
    hence every emoji above U+FFFF, is among the others; the ratio is
    0.58 from weight 600, 0.55 from weight 500 and 0.52 below, so never
    smaller for a heavier weight, and so is the estimate; for a font size
    that is not negative the estimate is not negative and does not shrink
    when the text is extended; the empty text measures 0. *)
Theorem C8_estimateTextWidth_columns
    (text more : jsstring) (fontSize fontWeight heavier : Q) :
  0 <= fontSize -> fontWeight <= heavier ->
  estimateTextWidth text fontSize fontWeight
    == inject_Z (2 * Z.of_nat (length (List.filter isFullWidth (chars text)))
                 + Z.of_nat (length (List.filter (fun char => negb (isFullWidth char))
                                                 (chars text))))
       * fontSize * widthRatio fontWeight
  /\ (forall char,
        isFullWidth char = true
        <-> exists code rest,
              char = code :: rest
              /\ ((0x1100 <= code <= 0x11ff)%Z \/ (0x3000 <= code <= 0x303f)%Z
                  \/ (0x3040 <= code <= 0x309f)%Z \/ (0x30a0 <= code <= 0x30ff)%Z
                  \/ (0x3130 <= code <= 0x318f)%Z \/ (0x4e00 <= code <= 0x9fff)%Z
                  \/ (0xac00 <= code <= 0xd7af)%Z \/ (0xff00 <= code <= 0xffef)%Z))
  /\ (forall c d, isLeadSurrogate c = true -> isTrailSurrogate d = true ->
        chars [c; d] = [[c; d]] /\ charColumns [c; d] = 1%Z)
  /\ (forall w, (600 <= w -> widthRatio w = 58 # 100)
                /\ (500 <= w -> w < 600 -> widthRatio w = 55 # 100)
                /\ (w < 500 -> widthRatio w = 52 # 100))
  /\ widthRatio fontWeight <= widthRatio heavier
  /\ estimateTextWidth text fontSize fontWeight <= estimateTextWidth text fontSize heavier
  /\ 0 <= estimateTextWidth text fontSize fontWeight
  /\ estimateTextWidth text fontSize fontWeight
       <= estimateTextWidth (text ++ more) fontSize fontWeight
  /\ estimateTextWidth [] fontSize fontWeight == 0.
Proof.
  intros Hs Hw.
  pose proof (widthRatio_mono _ _ Hw) as Hr.
  repeat apply conj.
  - unfold estimateTextWidth, getDisplayWidth. rewrite columns_count. reflexivity.
  - apply isFullWidth_ranges.
  - apply surrogate_pair_one_column.
  - apply widthRatio_thresholds.
  - exact Hr.
  - unfold estimateTextWidth.
    pose proof (getDisplayWidth_nonneg text) as H0. rewrite Zle_Qle in H0.
    assert (Hk : 0 <= inject_Z (getDisplayWidth text) * fontSize)
      by (apply Qmult_le_0_compat; auto).
    rewrite !(Qmult_comm (inject_Z (getDisplayWidth text) * fontSize)).
    apply Qmult_le_compat_r; auto.
  - apply estimateTextWidth_nonneg, Hs.
  - apply estimateTextWidth_le_columns; [exact Hs | apply getDisplayWidth_app_le].
  - unfold estimateTextWidth. rewrite getDisplayWidth_nil. ring.
Qed.

Lemma C8_estimateTextWidth_columns_witness :
  0 <= estimateTextWidth textAPI 13 500
  /\ estimateTextWidth textAPI 13 500 <= estimateTextWidth textAPI 13 600.
Proof.
  destruct (C8_estimateTextWidth_columns textAPI grinningFace 13 500 600)
    as (_ & _ & _ & _ & _ & Hheavier & Hpos & _); [discriminate | discriminate |].
  exact (conj Hpos Hheavier).
Defined.

(** ** Element sizing *)

Lemma estimate_nonneg_fixed text :
  0 <= estimateTextWidth text FONT_SIZES_nodeLabel FONT_WEIGHTS_nodeLabel.
Proof. apply estimateTextWidth_nonneg. discriminate. Qed.

(** C7: a Person is 160 x 180 whatever its text; any other element is
    max(160, widest line + 2 x 16) wide and
    max(80, number of lines x 18 + 2 x 12) tall, which is always 80, the
    lines being at most three. *)
Theorem C7_calculateElementSize (element : C4Layout.C4Element) :
  (C4Layout.el_kind element = C4Layout.Person ->
     C4Layout.calculateElementSize element = C4Layout.mkSize 160 180)
  /\ (C4Layout.el_kind element <> C4Layout.Person ->
     C4Layout.sz_width (C4Layout.calculateElementSize element)
       == Qmax C4.minBoxWidth (claimedWidest element + 2 * C4.boxPadX)
     /\ C4Layout.sz_height (C4Layout.calculateElementSize element)
       == Qmax C4.minBoxHeight
            (inject_Z (Z.of_nat (length (claimedLines element))) * C4.lineHeight
             + 2 * C4.boxPadY)
     /\ C4Layout.sz_height (C4Layout.calculateElementSize element) == 80).
Proof.
  split.
  - intros Hk. unfold C4Layout.calculateElementSize. rewrite Hk. reflexivity.
  - intros Hk. unfold C4Layout.calculateElementSize.
    replace (C4Layout.isPerson (C4Layout.el_kind element)) with false
      by (destruct (C4Layout.el_kind element); simpl; congruence).
    unfold claimedWidest, claimedLines, C4Layout.isTruthy.
    pose proof (estimate_nonneg_fixed (C4Layout.el_label element)) as Hl.
    destruct (C4Layout.truthy (C4Layout.el_technology element)) as [technology |];
      destruct (C4Layout.truthy (C4Layout.el_description element)) as [description |];
      cbn [app map fold_left length C4Layout.sz_width C4Layout.sz_height];
      unfold lineWidth; cbn [fst snd];
      (split; [| split; reflexivity]);
      apply Q.max_compat; try reflexivity;
      rewrite (Q.max_r 0 _ Hl); ring.
Qed.

(** ** Bounding boxes *)

Section Folds.
Context {A : Type} (f : A -> Q).

Lemma fold_min_le_seed (l : list A) (a : Q) :
  fold_left (fun m x => Qmin m (f x)) l a <= a.
Proof.
  revert a. induction l as [| x l IH]; intros a; cbn [fold_left].
  - apply Qle_refl.
  - eapply Qle_trans; [apply IH | apply Q.le_min_l].
Qed.

Lemma fold_min_le_elem (l : list A) (a : Q) (x : A) :
  In x l -> fold_left (fun m x => Qmin m (f x)) l a <= f x.
Proof.
  revert a. induction l as [| y l IH]; intros a Hin; cbn [fold_left].
  - destruct Hin.
  - destruct Hin as [-> | Hin].
    + eapply Qle_trans; [apply fold_min_le_seed | apply Q.le_min_r].
    + apply IH, Hin.
Qed.

Lemma fold_max_ge_seed (l : list A) (a : Q) :
  a <= fold_left (fun m x => Qmax m (f x)) l a.
Proof.
  revert a. induction l as [| x l IH]; intros a; cbn [fold_left].
  - apply Qle_refl.
  - eapply Qle_trans; [apply Q.le_max_l | apply IH].
Qed.

Lemma fold_max_ge_elem (l : list A) (a : Q) (x : A) :
  In x l -> f x <= fold_left (fun m x => Qmax m (f x)) l a.
Proof.
  revert a. induction l as [| y l IH]; intros a Hin; cbn [fold_left].
  - destruct Hin.
  - destruct Hin as [-> | Hin].
    + eapply Qle_trans; [apply Q.le_max_r | apply fold_max_ge_seed].
    + apply IH, Hin.
Qed.

(** The minimum is attained: it is the seed or an element. *)
Lemma fold_min_attained (l : list A) (a : Q) :
  fold_left (fun m x => Qmin m (f x)) l a == a
  \/ exists x, In x l /\ fold_left (fun m x => Qmin m (f x)) l a == f x.
Proof.
  revert a. induction l as [| y l IH]; intros a; cbn [fold_left].
  - left. reflexivity.
  - destruct (IH (Qmin a (f y))) as [H | (x & Hin & H)].
    + destruct (Q.min_dec a (f y)) as [E | E].
      * left. exact (Qeq_trans _ _ _ H E).
      * right. exists y. split; [left; reflexivity | exact (Qeq_trans _ _ _ H E)].
    + right. exists x. split; [right; exact Hin | exact H].
Qed.

Lemma fold_max_attained (l : list A) (a : Q) :
  fold_left (fun m x => Qmax m (f x)) l a == a
  \/ exists x, In x l /\ fold_left (fun m x => Qmax m (f x)) l a == f x.
Proof.
  revert a. induction l as [| y l IH]; intros a; cbn [fold_left].
  - left. reflexivity.
  - destruct (IH (Qmax a (f y))) as [H | (x & Hin & H)].
    + destruct (Q.max_dec a (f y)) as [E | E].
      * left. exact (Qeq_trans _ _ _ H E).
      * right. exists y. split; [left; reflexivity | exact (Qeq_trans _ _ _ H E)].
    + right. exists x. split; [right; exact Hin | exact H].
Qed.

End Folds.

(** ** C4 boundaries *)

Section Boundaries.
Import C4Layout.

Variable elementLookup : gmap string PositionedC4Element.

Lemma C4Boundary_tree_ind (P : C4Boundary -> Prop) :
  (forall alias label kind elements childBoundaries parent,
      Forall P childBoundaries ->
      P (mkBoundary alias label kind elements childBoundaries parent)) ->
  forall b, P b.
Proof.
  intros H. fix IH 1. intros [alias label kind elements cs parent].
  apply H. induction cs as [| c cs IHcs]; constructor; [apply IH | apply IHcs].
Qed.

Lemma layoutBoundary_children (boundary : C4Boundary) :
  pb_children (layoutBoundary elementLookup boundary)
  = layoutBoundaries (b_childBoundaries boundary) elementLookup.
Proof.
  destruct boundary as [alias label kind elements cs parent].
  cbn [layoutBoundary b_childBoundaries]. unfold layoutBoundaries.
  destruct (collectRects _ _ _); reflexivity.
Qed.

(** Every collected rectangle is inside the boundary computed from them. *)
Lemma collected_inside (boundary : C4Boundary) (rect : Rect) :
  In rect (collectRects elementLookup (b_elements boundary)
             (layoutBoundaries (b_childBoundaries boundary) elementLookup)) ->
  insidePadded rect (layoutBoundary elementLookup boundary).
Proof.
  destruct boundary as [alias label kind elements cs parent].
  cbn [layoutBoundary b_elements b_childBoundaries]. unfold layoutBoundaries.
  destruct (collectRects _ _ _) as [| rect0 rects]; [intros [] |].
  intros Hin. unfold insidePadded. cbn [pb_x pb_y pb_width pb_height].
  unfold C4.boundaryPadding, C4.boundaryHeaderHeight.
  assert (Hx : fold_left (fun m r => Qmin m (r_x r)) rects (r_x rect0) <= r_x rect)
    by (destruct Hin as [<- | Hin];
        [apply fold_min_le_seed | apply (fold_min_le_elem r_x), Hin]).
  assert (Hy : fold_left (fun m r => Qmin m (r_y r)) rects (r_y rect0) <= r_y rect)
    by (destruct Hin as [<- | Hin];
        [apply fold_min_le_seed | apply (fold_min_le_elem r_y), Hin]).
  assert (Hr : r_right rect <= fold_left (fun m r => Qmax m (r_right r)) rects (r_right rect0))
    by (destruct Hin as [<- | Hin];
        [apply fold_max_ge_seed | apply (fold_max_ge_elem r_right), Hin]).
  assert (Hb : r_bottom rect <= fold_left (fun m r => Qmax m (r_bottom r)) rects (r_bottom rect0))
    by (destruct Hin as [<- | Hin];
        [apply fold_max_ge_seed | apply (fold_max_ge_elem r_bottom), Hin]).
  repeat split; lra.
Qed.

Lemma flattenBoundary_layout (b : C4Boundary) (pb : PositionedC4Boundary) :
  In pb (flattenBoundary (layoutBoundary elementLookup b)) ->
  exists b', In b' (allBoundaries b) /\ pb = layoutBoundary elementLookup b'.
Proof.
  revert pb. induction b as [alias label kind elements cs parent IH]
    using C4Boundary_tree_ind.
  intros pb Hin.
  set (b := mkBoundary alias label kind elements cs parent) in *.
  pose proof (layoutBoundary_children b) as Hc.
  destruct (layoutBoundary elementLookup b) as [a l k x y w h children] eqn:Hb.
  cbn [pb_children] in Hc. cbn [flattenBoundary] in Hin.
  destruct Hin as [<- | Hin].
  - exists b. split; [left; reflexivity | symmetry; exact Hb].
  - subst children. unfold layoutBoundaries in Hin. cbn [b_childBoundaries b] in Hin.
    apply in_concat in Hin as (l' & Hl' & Hpb).
    apply in_map_iff in Hl' as (pc & <- & Hpc).
    apply in_map_iff in Hpc as (c & <- & Hc).
    rewrite Forall_forall in IH.
    destruct (IH c ltac:(apply list_elem_of_In, Hc) pb Hpb) as (b' & Hb' & ->).
    exists b'. split; [| reflexivity].
    right. apply in_concat. exists (allBoundaries c). split; [| exact Hb'].
    apply in_map, Hc.
Qed.

End Boundaries.

Lemma insidePadded_strict r b :
  insidePadded r b ->
  C4Layout.pb_x b < C4Layout.r_x r
  /\ C4Layout.r_right r < C4Layout.pb_x b + C4Layout.pb_width b
  /\ C4Layout.pb_y b < C4Layout.r_y r
  /\ C4Layout.r_bottom r < C4Layout.pb_y b + C4Layout.pb_height b.
Proof.
  unfold insidePadded, C4.boundaryPadding, C4.boundaryHeaderHeight.
  intros (H1 & H2 & H3 & H4). repeat split; lra.
Qed.

(** Boundaries and what they hold, for any positions of the elements. *)
Lemma boundaries_hold_their_members
    (elementLookup : gmap string C4Layout.PositionedC4Element)
    (boundaries : list C4Layout.C4Boundary) :
  (forall root boundary element pos,
      In root boundaries -> In boundary (allBoundaries root) ->
      In element (C4Layout.b_elements boundary) ->
      elementLookup !! C4Layout.el_alias element = Some pos ->
      insidePadded (C4Layout.elementRect pos)
                   (C4Layout.layoutBoundary elementLookup boundary))
  /\ (forall positioned child,
      In positioned (C4Layout.flattenBoundaries
                       (C4Layout.layoutBoundaries boundaries elementLookup)) ->
      In child (C4Layout.pb_children positioned) ->
      insidePadded (C4Layout.boundaryRect child) positioned)
  /\ (forall r b, insidePadded r b ->
        C4Layout.pb_x b < C4Layout.r_x r
        /\ C4Layout.r_right r < C4Layout.pb_x b + C4Layout.pb_width b
        /\ C4Layout.pb_y b < C4Layout.r_y r
        /\ C4Layout.r_bottom r < C4Layout.pb_y b + C4Layout.pb_height b).
Proof.
  split; [| split]; [| | apply insidePadded_strict].
  - intros root boundary element pos _ _ Hel Hpos.
    apply collected_inside. unfold C4Layout.collectRects.
    apply in_or_app. left. apply list_elem_of_In, list_elem_of_omap.
    exists element. split; [apply list_elem_of_In, Hel |].
    rewrite Hpos. reflexivity.
  - intros positioned child Hin Hchild.
    unfold C4Layout.flattenBoundaries, C4Layout.layoutBoundaries in Hin.
    apply in_concat in Hin as (l & Hl & Hin).
    apply in_map_iff in Hl as (pr & <- & Hpr).
    apply in_map_iff in Hpr as (root & <- & Hroot).
    apply flattenBoundary_layout in Hin as (b & _ & ->).
    apply collected_inside. unfold C4Layout.collectRects.
    apply in_or_app. right.
    rewrite layoutBoundary_children in Hchild.
    apply in_map, Hchild.
Qed.

(** ** ArchiMate layer bands *)

Section LayerBands.
Import ArchiMateLayout.

Lemma layerBands_nil (layers : list ArchiMateLayer) : layerBands layers [] = [].
Proof. induction layers as [| l ls IH]; [reflexivity | exact IH]. Qed.

(** What a successful run returns. *)
Lemma layoutArchiMateDiagram_inr dagre_layout diagram out :
  layoutArchiMateDiagram dagre_layout diagram = inr out ->
  (dg_elements diagram = [] /\ out = mkPositionedDiagram 0 0 [] [] [])
  \/ (dg_elements diagram <> [] /\
      exists laid relationships,
        dagre_layout (buildGraph diagram) = inr laid
        /\ mapM (extractRelationship diagram (buildGraph diagram) laid)
                (edgeList (buildGraph diagram)) = Some relationships
        /\ out = mkPositionedDiagram
                   (orElse (laidWidth laid) 600) (orElse (laidHeight laid) 400)
                   (normalizeLayers
                      (layerBands (presentLayers diagram)
                         (omap (positionElement (buildGraph diagram) laid)
                               (dg_elements diagram))))
                   (omap (positionElement (buildGraph diagram) laid) (dg_elements diagram))
                   (omap id relationships)).
Proof.
  unfold layoutArchiMateDiagram.
  destruct (dg_elements diagram) as [| entry entries] eqn:He; cbn [length Nat.eqb].
  - intros [= <-]. left. split; reflexivity.
  - destruct (dagre_layout (buildGraph diagram)) as [message | laid]; [discriminate |].
    destruct (mapM _ _) as [relationships |] eqn:Hm; [| discriminate].
    intros [= <-]. right. split; [discriminate |].
    exists laid, relationships. repeat split. exact Hm.
Qed.

Lemma pd_layers_normalized dagre_layout diagram out :
  layoutArchiMateDiagram dagre_layout diagram = inr out ->
  pd_layers out
  = normalizeLayers (layerBands (presentLayers diagram) (pd_elements out)).
Proof.
  intros H. apply layoutArchiMateDiagram_inr in H
    as [[_ ->] | (_ & laid & rels & _ & _ & ->)]; cbn [pd_layers pd_elements].
  - rewrite layerBands_nil. reflexivity.
  - reflexivity.
Qed.

Lemma minOf_le_seed x0 xs : minOf x0 xs <= x0.
Proof. exact (fold_min_le_seed (fun x => x) xs x0). Qed.

Lemma minOf_le_elem x0 xs x : In x xs -> minOf x0 xs <= x.
Proof. exact (fold_min_le_elem (fun x => x) xs x0 x). Qed.

Lemma maxOf_ge_seed x0 xs : x0 <= maxOf x0 xs.
Proof. exact (fold_max_ge_seed (fun x => x) xs x0). Qed.

Lemma maxOf_ge_elem x0 xs x : In x xs -> x <= maxOf x0 xs.
Proof. exact (fold_max_ge_elem (fun x => x) xs x0 x). Qed.

Lemma minOf_attained x0 xs :
  minOf x0 xs == x0 \/ exists x, In x xs /\ minOf x0 xs == x.
Proof. exact (fold_min_attained (fun x => x) xs x0). Qed.

Lemma maxOf_attained x0 xs :
  maxOf x0 xs == x0 \/ exists x, In x xs /\ maxOf x0 xs == x.
Proof. exact (fold_max_attained (fun x => x) xs x0). Qed.

Lemma normalizeLayers_names bands :
  map pl_name (normalizeLayers bands) = map pl_name bands
  /\ map pl_y (normalizeLayers bands) = map pl_y bands
  /\ map pl_height (normalizeLayers bands) = map pl_height bands.
Proof.
  destruct bands as [| l0 ls]; [repeat split |].
  unfold normalizeLayers. rewrite !map_map. cbn [pl_name pl_y pl_height].
  repeat split.
Qed.

Lemma normalizeLayers_shared bands l1 l2 :
  In l1 (normalizeLayers bands) -> In l2 (normalizeLayers bands) ->
  pl_x l1 = pl_x l2 /\ pl_width l1 = pl_width l2.
Proof.
  destruct bands as [| l0 ls]; [intros [] |].
  unfold normalizeLayers. intros H1 H2.
  apply in_map_iff in H1 as (b1 & <- & _).
  apply in_map_iff in H2 as (b2 & <- & _).
  split; reflexivity.
Qed.

Lemma normalizeLayers_covers bands l band :
  In l (normalizeLayers bands) -> In band bands ->
  pl_x l <= pl_x band /\ pl_x band + pl_width band <= pl_x l + pl_width l.
Proof.
  destruct bands as [| l0 ls]; [intros [] |].
  unfold normalizeLayers. intros Hl Hb.
  apply in_map_iff in Hl as (b1 & <- & _). cbn [pl_x pl_width].
  assert (Hmin : minOf (pl_x l0) (map pl_x ls) <= pl_x band).
  { destruct Hb as [<- | Hb].
    - apply minOf_le_seed.
    - apply minOf_le_elem, in_map, Hb. }
  assert (Hmax : pl_x band + pl_width band
                 <= maxOf (pl_x l0 + pl_width l0)
                          (map (fun l => pl_x l + pl_width l) ls)).
  { destruct Hb as [<- | Hb].
    - apply maxOf_ge_seed.
    - apply maxOf_ge_elem, (in_map (fun l => pl_x l + pl_width l)), Hb. }
  split; [exact Hmin | lra].
Qed.

Lemma normalizeLayers_tight bands l :
  In l (normalizeLayers bands) ->
  (exists band, In band bands /\ pl_x l == pl_x band)
  /\ (exists band, In band bands
                   /\ pl_x l + pl_width l == pl_x band + pl_width band).
Proof.
  destruct bands as [| l0 ls]; [intros [] |].
  unfold normalizeLayers. intros Hl.
  apply in_map_iff in Hl as (b1 & <- & _). cbn [pl_x pl_width].
  split.
  - destruct (minOf_attained (pl_x l0) (map pl_x ls)) as [H | (x & Hin & H)].
    + exists l0. split; [left; reflexivity | exact H].
    + apply in_map_iff in Hin as (band & <- & Hin).
      exists band. split; [right; exact Hin | exact H].
  - destruct (maxOf_attained (pl_x l0 + pl_width l0)
                (map (fun l => pl_x l + pl_width l) ls)) as [H | (x & Hin & H)].
    + exists l0. split; [left; reflexivity | lra].
    + apply in_map_iff in Hin as (band & <- & Hin).
      exists band. split; [right; exact Hin | lra].
Qed.

End LayerBands.

(** C6: after a run of the ArchiMate layout, any two layer bands of the
    result have the same x and the same width.  The bands are those sized
    one by one from their elements, in the same order, with their own y
    and height; the common x is the smallest x among them and the common
    width reaches the largest right edge among them. *)
Theorem C6_layer_bands_share_x_and_width
    (dagre_layout : ArchiMateLayout.Gr -> string + Laid)
    (diagram : ArchiMateLayout.ArchiMateDiagram)
    (out : ArchiMateLayout.PositionedArchiMateDiagram) :
  ArchiMateLayout.layoutArchiMateDiagram dagre_layout diagram = inr out ->
  let sized := ArchiMateLayout.layerBands (ArchiMateLayout.presentLayers diagram)
                 (ArchiMateLayout.pd_elements out) in
  let layers := ArchiMateLayout.pd_layers out in
  (forall l1 l2, In l1 layers -> In l2 layers ->
     ArchiMateLayout.pl_x l1 = ArchiMateLayout.pl_x l2
     /\ ArchiMateLayout.pl_width l1 = ArchiMateLayout.pl_width l2)
  /\ map ArchiMateLayout.pl_name layers = map ArchiMateLayout.pl_name sized
  /\ map ArchiMateLayout.pl_y layers = map ArchiMateLayout.pl_y sized
  /\ map ArchiMateLayout.pl_height layers = map ArchiMateLayout.pl_height sized
  /\ (forall l band, In l layers -> In band sized ->
        ArchiMateLayout.pl_x l <= ArchiMateLayout.pl_x band
        /\ ArchiMateLayout.pl_x band + ArchiMateLayout.pl_width band
           <= ArchiMateLayout.pl_x l + ArchiMateLayout.pl_width l)
  /\ (forall l, In l layers ->
        (exists band, In band sized
                      /\ ArchiMateLayout.pl_x l == ArchiMateLayout.pl_x band)
        /\ (exists band, In band sized
                         /\ ArchiMateLayout.pl_x l + ArchiMateLayout.pl_width l
                            == ArchiMateLayout.pl_x band + ArchiMateLayout.pl_width band)).
Proof.
  intros H sized layers.
  assert (E : layers = ArchiMateLayout.normalizeLayers sized)
    by (apply (pd_layers_normalized dagre_layout), H).
  rewrite E.
  destruct (normalizeLayers_names sized) as (Hn & Hy & Hh).
  repeat apply conj; auto.
  - apply normalizeLayers_shared.
  - apply normalizeLayers_covers.
  - apply normalizeLayers_tight.
Qed.

(** ** Edge keys *)

Section EdgeKeys.

Lemma append_cons c s t : String c s +:+ t = String c (s +:+ t).
Proof. reflexivity. Qed.

Lemma append_nil t : EmptyString +:+ t = t.
Proof. reflexivity. Qed.

Lemma append_length s t :
  String.length (s +:+ t) = (String.length s + String.length t)%nat.
Proof.
  induction s as [| c s IH]; [reflexivity |].
  rewrite append_cons. cbn [String.length]. rewrite IH. reflexivity.
Qed.

Lemma append_assoc s t u : (s +:+ t) +:+ u = s +:+ (t +:+ u).
Proof.
  induction s as [| c s IH]; [reflexivity |].
  rewrite !append_cons, IH. reflexivity.
Qed.

Lemma plainId_app_delim m r : plainId (m +:+ String "001"%char r) = false.
Proof.
  induction m as [| c m IH]; [reflexivity |].
  rewrite append_cons. cbn [plainId]. rewrite IH. apply andb_false_r.
Qed.

(** Where the first U+0001 of a string is. *)
Lemma first_delimiter v : forall v' r r',
  plainId v = true ->
  v +:+ String "001"%char r = v' +:+ String "001"%char r' ->
  (v' = v /\ r' = r) \/ exists m, r = m +:+ String "001"%char r'.
Proof.
  induction v as [| c v IH]; intros [| c' v'] r r' Hv H;
    rewrite ?append_cons, ?append_nil in H.
  - injection H as ->. left. split; reflexivity.
  - injection H as <- ->. right. exists v'. reflexivity.
  - injection H as -> _. discriminate Hv.
  - injection H as <- H. cbn [plainId] in Hv. apply andb_true_iff in Hv as [_ Hv].
    destruct (IH v' r r' Hv H) as [[-> ->] | Hm];
      [left; split; reflexivity | right; exact Hm].
Qed.

(** The key of a pair of end points without U+0001 is the key of no
    other pair. *)
Lemma edgeArgsToId_plain v w v' w' :
  plainId v = true -> plainId w = true ->
  edgeArgsToId v' w' = edgeArgsToId v w -> v' = v /\ w' = w.
Proof.
  unfold edgeArgsToId, EDGE_KEY_DELIM, DEFAULT_EDGE_NAME.
  rewrite !append_cons, !append_nil.
  intros Hv Hw H. symmetry in H.
  assert (Hlast : forall u u', plainId u = true ->
            u +:+ String "001"%char (String "000"%char EmptyString)
            = u' +:+ String "001"%char (String "000"%char EmptyString) -> u' = u).
  { intros u u' Hu E. apply first_delimiter in E as [[-> _] | [m Hm]];
      [reflexivity | | exact Hu].
    apply (f_equal String.length) in Hm. rewrite append_length in Hm.
    cbn [String.length] in Hm. lia. }
  apply first_delimiter in H as [[-> Hr] | [m Hm]]; [| | exact Hv].
  - split; [reflexivity |]. apply (Hlast w w' Hw). symmetry. exact Hr.
  - exfalso.
    change (w +:+ String "001"%char (String "000"%char EmptyString)
            = m +:+ (String "001"%char w'
                     +:+ String "001"%char (String "000"%char EmptyString))) in Hm.
    rewrite <- append_assoc in Hm.
    apply (Hlast w _ Hw) in Hm.
    rewrite <- Hm in Hw. rewrite plainId_app_delim in Hw. discriminate.
Qed.

Lemma sameEdge_true e1 e2 :
  sameEdge e1 e2 = true
  <-> edgeArgsToId (fst e1) (snd e1) = edgeArgsToId (fst e2) (snd e2).
Proof. unfold sameEdge. split; [apply bool_decide_eq_true_1 | apply bool_decide_eq_true_2]. Qed.

Lemma sameEdge_refl e : sameEdge e e = true.
Proof. apply sameEdge_true. reflexivity. Qed.

Lemma sameEdge_trans e1 e2 e3 :
  sameEdge e1 e2 = true -> sameEdge e2 e3 = true -> sameEdge e1 e3 = true.
Proof. rewrite !sameEdge_true. congruence. Qed.

Lemma sameEdge_sym e1 e2 : sameEdge e1 e2 = sameEdge e2 e1.
Proof.
  destruct (sameEdge e2 e1) eqn:H.
  - apply sameEdge_true. symmetry. apply sameEdge_true, H.
  - destruct (sameEdge e1 e2) eqn:H'; [| reflexivity].
    apply sameEdge_true in H'. symmetry in H'. apply sameEdge_true in H'. congruence.
Qed.

(** Without U+0001 in its end points, a pair is the same edge as itself
    only. *)
Lemma sameEdge_plain v w e :
  plainId v = true -> plainId w = true ->
  sameEdge e (v, w) = true <-> e = (v, w).
Proof.
  intros Hv Hw. split; [| intros ->; apply sameEdge_refl].
  intros H. apply sameEdge_true in H. cbn [fst snd] in H.
  destruct e as [v' w']. cbn [fst snd] in H.
  destruct (edgeArgsToId_plain v w v' w' Hv Hw H) as [-> ->]. reflexivity.
Qed.

End EdgeKeys.

(** ** The graph container *)

Section GraphFacts.
Context {N E : Type}.
Implicit Types (g : Graph N E) (es : list ((string * string) * E)).

Lemma hasEdge_true es e :
  hasEdge es e = true <-> exists k, In k (map fst es) /\ sameEdge k e = true.
Proof.
  unfold hasEdge. rewrite existsb_exists. split.
  - intros (x & H1 & H2). exists (fst x). split; [apply in_map, H1 | exact H2].
  - intros (k & H1 & H2). apply in_map_iff in H1 as (x & <- & H1). eauto.
Qed.

Lemma relabel_keys es e value : map fst (relabel es e value) = map fst es.
Proof.
  unfold relabel. rewrite map_map. apply map_ext.
  intros x. destruct (sameEdge (fst x) e); reflexivity.
Qed.

(** After [setEdge] an edge carries the new label, under the key of the
    pair, or the label it had. *)
Lemma In_setEdge_label g v w value k l :
  In (k, l) (edgeList (setEdge g v w value)) ->
  (sameEdge k (v, w) = true /\ l = value) \/ In (k, l) (edgeList g).
Proof.
  unfold setEdge. destruct (hasEdge (edgeList g) (v, w)); cbn [edgeList].
  - unfold relabel. rewrite in_map_iff. intros ([k' l'] & Heq & Hin).
    cbn [fst] in Heq. destruct (sameEdge k' (v, w)) eqn:Hs.
    + injection Heq as <- <-. left. split; [exact Hs | reflexivity].
    + injection Heq as <- <-. right. exact Hin.
  - rewrite in_app_iff. cbn [In]. intros [Hin | [[= <- <-] | []]]; [right; exact Hin |].
    left. split; [apply sameEdge_refl | reflexivity].
Qed.

(** [setEdge] never removes an edge. *)
Lemma setEdge_keeps g v w value k :
  In k (edges g) -> In k (edges (setEdge g v w value)).
Proof.
  unfold edges, setEdge. destruct (hasEdge (edgeList g) (v, w)); cbn [edgeList].
  - rewrite relabel_keys. auto.
  - rewrite map_app, in_app_iff. auto.
Qed.

(** After [setEdge(v, w)] the graph has an edge from [v] to [w], and
    every edge it had. *)
Lemma hasEdge_setEdge g v w value :
  hasEdge (edgeList (setEdge g v w value)) (v, w) = true.
Proof.
  unfold setEdge. destruct (hasEdge (edgeList g) (v, w)) eqn:Hh; cbn [edgeList].
  - apply hasEdge_true in Hh as (k & H1 & H2). apply hasEdge_true.
    exists k. rewrite relabel_keys. auto.
  - apply hasEdge_true. exists (v, w). split; [| apply sameEdge_refl].
    rewrite map_app, in_app_iff. right. left. reflexivity.
Qed.

Lemma hasEdge_setEdge_keeps g v w value e :
  hasEdge (edgeList g) e = true -> hasEdge (edgeList (setEdge g v w value)) e = true.
Proof.
  rewrite !hasEdge_true. intros (k & H1 & H2). exists k. split; [| exact H2].
  apply (setEdge_keeps g), H1.
Qed.

Lemma setEdge_NoDup g v w value :
  NoDup (edges g) -> NoDup (edges (setEdge g v w value)).
Proof.
  unfold edges, setEdge. destruct (hasEdge (edgeList g) (v, w)) eqn:Hh; cbn [edgeList].
  - rewrite relabel_keys. auto.
  - intros Hnd. rewrite map_app. cbn [map fst].
    apply NoDup_app. split; [exact Hnd | split; [| apply NoDup_singleton]].
    intros x Hx Hx'. apply list_elem_of_singleton in Hx'. subst x.
    apply list_elem_of_In in Hx.
    assert (Hh' : hasEdge (edgeList g) (v, w) = true)
      by (apply hasEdge_true; exists (v, w); split; [exact Hx | apply sameEdge_refl]).
    congruence.
Qed.

(** *** End points without U+0001

    When neither [v] nor [w] holds the character U+0001, the key of
    [(v, w)] is the key of no other pair, and [setEdge(v, w)] relabels or
    adds the edge of that very pair. *)

Lemma hasEdge_plain es v w :
  plainId v = true -> plainId w = true ->
  hasEdge es (v, w) = true <-> In (v, w) (map fst es).
Proof.
  intros Hv Hw. rewrite hasEdge_true. split.
  - intros (k & H1 & H2). apply (sameEdge_plain v w k Hv Hw) in H2. subst k. exact H1.
  - intros H. exists (v, w). split; [exact H | apply sameEdge_refl].
Qed.

Lemma hasEdge_plain_false es v w :
  plainId v = true -> plainId w = true ->
  hasEdge es (v, w) = false <-> ~ In (v, w) (map fst es).
Proof.
  intros Hv Hw. rewrite <- (hasEdge_plain es v w Hv Hw).
  destruct (hasEdge es (v, w)); intuition congruence.
Qed.

Lemma In_relabel es v w value k l :
  plainId v = true -> plainId w = true ->
  In (k, l) (relabel es (v, w) value) <->
  (k = (v, w) /\ l = value /\ In (v, w) (map fst es)) \/ (k <> (v, w) /\ In (k, l) es).
Proof.
  intros Hv Hw. unfold relabel. rewrite in_map_iff. split.
  - intros ([k' l'] & Heq & Hin). cbn [fst] in Heq.
    destruct (sameEdge k' (v, w)) eqn:Hs.
    + apply (sameEdge_plain v w k' Hv Hw) in Hs. injection Heq as <- <-. left.
      repeat split; auto. subst k'. apply (in_map fst _ _ Hin).
    + injection Heq as <- <-. right. split; [| exact Hin].
      intros ->. rewrite sameEdge_refl in Hs. discriminate.
  - intros [(-> & -> & Hin) | (Hne & Hin)].
    + apply in_map_iff in Hin as ([k' l'] & Hk & Hin). cbn [fst] in Hk. subst k'.
      exists ((v, w), l'). cbn [fst].
      rewrite sameEdge_refl. auto.
    + exists (k, l). cbn [fst]. split; [| exact Hin].
      destruct (sameEdge k (v, w)) eqn:Hs; [| reflexivity].
      apply (sameEdge_plain v w k Hv Hw) in Hs. contradiction.
Qed.

(** The edges after [setEdge]. *)
Lemma In_setEdge g v w value k l :
  plainId v = true -> plainId w = true ->
  In (k, l) (edgeList (setEdge g v w value)) <->
  (k = (v, w) /\ l = value) \/ (k <> (v, w) /\ In (k, l) (edgeList g)).
Proof.
  intros Hv Hw.
  unfold setEdge. destruct (hasEdge (edgeList g) (v, w)) eqn:Hh; cbn [edgeList].
  - apply (hasEdge_plain _ v w Hv Hw) in Hh. rewrite (In_relabel _ v w) by assumption.
    tauto.
  - apply (hasEdge_plain_false _ v w Hv Hw) in Hh. rewrite in_app_iff. cbn [In]. split.
    + intros [Hin | [[= <- <-] | []]]; [| left; auto].
      right. split; [| exact Hin]. intros ->. apply Hh.
      apply (in_map fst _ _ Hin).
    + intros [[-> ->] | [_ Hin]]; auto.
Qed.

Lemma setEdge_keys g v w value k :
  plainId v = true -> plainId w = true ->
  In k (edges (setEdge g v w value)) <-> k = (v, w) \/ In k (edges g).
Proof.
  intros Hv Hw.
  unfold edges, setEdge. destruct (hasEdge (edgeList g) (v, w)) eqn:Hh; cbn [edgeList].
  - apply (hasEdge_plain _ v w Hv Hw) in Hh. rewrite relabel_keys. split; [auto |].
    intros [-> | H]; auto.
  - rewrite map_app, in_app_iff. cbn [map In fst]. intuition congruence.
Qed.

End GraphFacts.

Section NodeFacts.
Context {N E : Type}.
Implicit Types (g : Graph N E).

Lemma node_setNode g v value u :
  node (setNode g v value) u = if decide (v = u) then Some value else node g u.
Proof.
  unfold node, setNode. cbn [nodes]. rewrite lookup_insert.
  destruct (decide (v = u)); reflexivity.
Qed.

Lemma touchNode_join (ns : gmap string (option N)) v u :
  match touchNode ns v !! u with Some l => l | None => None end
  = match ns !! u with Some l => l | None => None end.
Proof.
  unfold touchNode. destruct (ns !! v) eqn:Hv; [reflexivity |].
  rewrite lookup_insert. destruct (decide (v = u)) as [<- |]; [| reflexivity].
  rewrite Hv. reflexivity.
Qed.

(** [setEdge] neither labels nor unlabels a node. *)
Lemma node_setEdge g v w value u : node (setEdge g v w value) u = node g u.
Proof.
  unfold node, setEdge. destruct (hasEdge (edgeList g) (v, w)); cbn [nodes].
  - reflexivity.
  - rewrite !touchNode_join. reflexivity.
Qed.

Lemma edgeList_setNode g v value : edgeList (setNode g v value) = edgeList g.
Proof. reflexivity. Qed.

End NodeFacts.

(** ** The C4 graph *)

Section C4Graph.
Import C4Layout.

Lemma plainEnds_In rels rel :
  plainEnds rels = true -> In rel rels ->
  plainId (rel_from rel) = true /\ plainId (rel_to rel) = true.
Proof.
  unfold plainEnds. rewrite forallb_forall. intros H Hin.
  apply andb_true_iff, (H rel Hin).
Qed.

Lemma edgesOk_step all n (g : Graph Size C4EdgeLabel) rel :
  plainId (rel_from rel) = true -> plainId (rel_to rel) = true ->
  all !! n = Some rel ->
  edgesOk all n (edgeList g) ->
  edgesOk all (S n) (edgeList (setEdge g (rel_from rel) (rel_to rel) (edgeLabelOf n rel))).
Proof.
  intros Hv Hw Hn (Hnd & Hlbl & Hcov). repeat apply conj.
  - apply (setEdge_NoDup g), Hnd.
  - intros k lbl Hin.
    apply (In_setEdge g _ _ _ _ _ Hv Hw) in Hin as [[-> ->] | [Hne Hin]].
    + exists rel. cbn [_index edgeLabelOf]. repeat split; auto. lia.
    + destruct (Hlbl k lbl Hin) as (rel0 & H0 & Hlt & Hk & Hl & Hlast).
      exists rel0. repeat split; auto.
      intros j rel' Hj1 Hj2 Hj.
      destruct (decide (j = n)) as [-> |].
      * rewrite Hn in Hj. injection Hj as <-. exact (not_eq_sym Hne).
      * apply (Hlast j rel'); auto. lia.
  - intros j rel' Hj Hrel'. apply (setEdge_keys g _ _ _ _ Hv Hw).
    destruct (decide (j = n)) as [-> |].
    + rewrite Hn in Hrel'. injection Hrel' as <-. left. reflexivity.
    + right. apply (Hcov j rel'); auto. lia.
Qed.

Lemma addRelationships_ok all rels : forall pre (g : Graph Size C4EdgeLabel),
  plainEnds rels = true ->
  all = pre ++ rels ->
  edgesOk all (length pre) (edgeList g) ->
  edgesOk all (length all) (edgeList (addRelationships rels (length pre) g)).
Proof.
  induction rels as [| rel rest IH]; intros pre g Hplain Hall Hok;
    cbn [addRelationships].
  - rewrite app_nil_r in Hall. subst all. exact Hok.
  - cbn [plainEnds forallb] in Hplain.
    apply andb_true_iff in Hplain as [Hrel Hplain].
    apply andb_true_iff in Hrel as [Hv Hw].
    replace (S (length pre)) with (length (pre ++ [rel]))
      by (rewrite length_app; cbn [length]; lia).
    apply IH; [exact Hplain | |].
    + rewrite Hall, <- app_assoc. reflexivity.
    + rewrite length_app. cbn [length]. rewrite Nat.add_1_r.
      apply edgesOk_step; [exact Hv | exact Hw | | exact Hok].
      rewrite Hall. apply list_lookup_middle. reflexivity.
Qed.

Lemma edgeList_addElements sizes elements (g : Graph Size C4EdgeLabel) :
  edgeList (addElements sizes elements g) = edgeList g.
Proof.
  unfold addElements. revert g.
  induction elements as [| e es IH]; intros g; cbn [fold_left]; [reflexivity |].
  rewrite IH. reflexivity.
Qed.

(** The edges of the graph handed to dagre, when no end point of a
    relationship holds U+0001. *)
Lemma buildGraph_ok diagram :
  plainEnds (dg_relationships diagram) = true ->
  edgesOk (dg_relationships diagram) (length (dg_relationships diagram))
          (edgeList (buildGraph diagram)).
Proof.
  intros Hplain.
  unfold buildGraph. apply (addRelationships_ok _ _ []); [exact Hplain | reflexivity |].
  rewrite edgeList_addElements. cbn [edgeList newGraph length].
  repeat apply conj.
  - apply NoDup_nil_2.
  - intros k lbl [].
  - intros j rel Hj. lia.
Qed.

(** Whatever the end points: every edge is labelled from a relationship
    of the diagram, the one at its [_index], and is stored under the key
    of the end points of that relationship. *)
Lemma addRelationships_labels all rels : forall pre (g : Graph Size C4EdgeLabel),
  all = pre ++ rels ->
  (forall k lbl, In (k, lbl) (edgeList g) ->
     exists rel, all !! _index lbl = Some rel /\ sameEdge k (relKey rel) = true
                 /\ lbl = edgeLabelOf (_index lbl) rel) ->
  forall k lbl, In (k, lbl) (edgeList (addRelationships rels (length pre) g)) ->
    exists rel, all !! _index lbl = Some rel /\ sameEdge k (relKey rel) = true
                /\ lbl = edgeLabelOf (_index lbl) rel.
Proof.
  induction rels as [| rel rest IH]; intros pre g Hall Hok; cbn [addRelationships];
    [exact Hok |].
  replace (S (length pre)) with (length (pre ++ [rel]))
    by (rewrite length_app; cbn [length]; lia).
  apply IH; [rewrite Hall, <- app_assoc; reflexivity |].
  intros k lbl Hin. apply In_setEdge_label in Hin as [[Hs ->] | Hin];
    [| apply Hok, Hin].
  exists rel. cbn [_index edgeLabelOf]. split; [| split; [exact Hs | reflexivity]].
  rewrite Hall. apply list_lookup_middle. reflexivity.
Qed.

Lemma buildGraph_labels diagram k lbl :
  In (k, lbl) (edgeList (buildGraph diagram)) ->
  exists rel, dg_relationships diagram !! _index lbl = Some rel
              /\ sameEdge k (relKey rel) = true
              /\ lbl = edgeLabelOf (_index lbl) rel.
Proof.
  unfold buildGraph. apply (addRelationships_labels _ _ []); [reflexivity |].
  rewrite edgeList_addElements. intros k' lbl' [].
Qed.

(** Whatever the end points: the graph has an edge for every
    relationship, in the sense of [g.hasEdge(rel.from, rel.to)]. *)
Lemma hasEdge_addRelationships rels : forall i (g : Graph Size C4EdgeLabel) e,
  hasEdge (edgeList g) e = true \/ In e (map relKey rels) ->
  hasEdge (edgeList (addRelationships rels i g)) e = true.
Proof.
  induction rels as [| rel rest IH]; intros i g e H; cbn [addRelationships].
  - destruct H as [H | []]. exact H.
  - apply IH. cbn [map In] in H. destruct H as [H | [<- | H]]; [left | left | right; exact H].
    + apply hasEdge_setEdge_keeps, H.
    + apply hasEdge_setEdge.
Qed.

Lemma buildGraph_hasEdge diagram rel :
  In rel (dg_relationships diagram) ->
  hasEdge (edgeList (buildGraph diagram)) (relKey rel) = true.
Proof.
  intros Hin. unfold buildGraph. apply hasEdge_addRelationships.
  right. apply in_map, Hin.
Qed.

Lemma node_addRelationships rels : forall i (g : Graph Size C4EdgeLabel) u,
  node (addRelationships rels i g) u = node g u.
Proof.
  induction rels as [| rel rest IH]; intros i g u; cbn [addRelationships];
    [reflexivity |].
  rewrite IH. apply node_setEdge.
Qed.

Lemma node_addElements sizes elements : forall (g : Graph Size C4EdgeLabel) element,
  In element elements ->
  is_Some (node (addElements sizes elements g) (el_alias element)).
Proof.
  unfold addElements.
  induction elements as [| e es IH] using rev_ind; intros g element Hin.
  - destruct Hin.
  - rewrite fold_left_app. cbn [fold_left]. rewrite node_setNode.
    destruct (decide (el_alias e = el_alias element)); [eauto |].
    apply in_app_or in Hin as [Hin | [-> | []]]; [apply IH, Hin | contradiction].
Qed.

(** Every element has its labelled node in the graph. *)
Lemma buildGraph_node diagram element :
  In element (dg_elements diagram) ->
  is_Some (node (buildGraph diagram) (el_alias element)).
Proof.
  intros Hin. unfold buildGraph. rewrite node_addRelationships.
  apply node_addElements, Hin.
Qed.

End C4Graph.

(** ** The C4 entry point *)

Section C4Run.
Import C4Layout.

Variable dagre_layout : Graph Size C4EdgeLabel -> string + Laid.

Lemma layoutC4Diagram_empty diagram :
  dg_elements diagram = [] ->
  layoutC4Diagram dagre_layout diagram = inr (mkPositionedDiagram 0 0 None [] [] []).
Proof. intros H. unfold layoutC4Diagram. rewrite H. reflexivity. Qed.

Lemma nonempty_length {A} (l : list A) : l <> [] -> (length l =? 0)%nat = false.
Proof. destruct l; [congruence | reflexivity]. Qed.

Lemma layoutC4Diagram_throws diagram message :
  dg_elements diagram <> [] ->
  dagre_layout (buildGraph diagram) = inl message ->
  layoutC4Diagram dagre_layout diagram = inl (dagreFailed +:+ message).
Proof.
  intros Hne Hd. unfold layoutC4Diagram.
  rewrite (nonempty_length _ Hne), Hd. reflexivity.
Qed.

(** What a successful run returns. *)
Lemma layoutC4Diagram_inr diagram out :
  layoutC4Diagram dagre_layout diagram = inr out ->
  (dg_elements diagram = [] /\ out = mkPositionedDiagram 0 0 None [] [] [])
  \/ (dg_elements diagram <> [] /\
      exists laid positionedElements relationships,
        dagre_layout (buildGraph diagram) = inr laid
        /\ mapM (positionElement (buildGraph diagram) laid) (dg_elements diagram)
           = Some positionedElements
        /\ mapM (extractRelationship diagram (buildGraph diagram) laid)
                (edgeList (buildGraph diagram)) = Some relationships
        /\ out = mkPositionedDiagram
                   (canvasWidth (laidWidth laid)
                      (layoutBoundaries (dg_boundaries diagram)
                                        (buildLookup positionedElements)))
                   (canvasHeight (laidHeight laid)
                      (layoutBoundaries (dg_boundaries diagram)
                                        (buildLookup positionedElements)))
                   (dg_title diagram) positionedElements relationships
                   (layoutBoundaries (dg_boundaries diagram)
                                     (buildLookup positionedElements))).
Proof.
  unfold layoutC4Diagram.
  destruct (dg_elements diagram) as [| e es] eqn:He; cbn [length Nat.eqb].
  - intros [= <-]. left. split; reflexivity.
  - destruct (dagre_layout (buildGraph diagram)) as [message | laid]; [discriminate |].
    destruct (mapM (positionElement _ _) _) as [pes |] eqn:Hp; [| discriminate].
    destruct (mapM (extractRelationship _ _ _) _) as [rels |] eqn:Hr; [| discriminate].
    intros [= <-]. right. split; [discriminate |].
    exists laid, pes, rels. repeat split; assumption.
Qed.

(** When dagre returns, so does the layout: no lookup misses. *)
Lemma layoutC4Diagram_returns diagram laid :
  dg_elements diagram <> [] ->
  dagre_layout (buildGraph diagram) = inr laid ->
  exists out, layoutC4Diagram dagre_layout diagram = inr out.
Proof.
  intros Hne Hd. unfold layoutC4Diagram.
  rewrite (nonempty_length _ Hne), Hd.
  assert (Hp : is_Some (mapM (positionElement (buildGraph diagram) laid)
                             (dg_elements diagram))).
  { apply mapM_is_Some, Forall_forall. intros e He. apply list_elem_of_In in He.
    unfold compose, positionElement.
    destruct (buildGraph_node diagram e He) as [n ->]. cbn. eauto. }
  assert (Hr : is_Some (mapM (extractRelationship diagram (buildGraph diagram) laid)
                             (edgeList (buildGraph diagram)))).
  { apply mapM_is_Some, Forall_forall. intros [k lbl] He. apply list_elem_of_In in He.
    destruct (buildGraph_labels diagram k lbl He) as (rel & Hrel & _).
    unfold compose, extractRelationship. cbn [snd fst]. rewrite Hrel. cbn. eauto. }
  destruct Hp as [pes ->], Hr as [rels ->]. eauto.
Qed.

End C4Run.

Section Lookup.
Import C4Layout.

Lemma buildLookup_other l : forall (m : gmap string PositionedC4Element) k,
  ~ In k (map pe_alias l) ->
  fold_left (fun lookup el => <[pe_alias el := el]> lookup) l m !! k = m !! k.
Proof.
  induction l as [| x l IH]; intros m k Hk; cbn [fold_left]; [reflexivity |].
  cbn [map In] in Hk. rewrite IH by tauto.
  apply lookup_insert_ne. tauto.
Qed.

Lemma buildLookup_finds l : forall (m : gmap string PositionedC4Element) pos,
  NoDup (map pe_alias l) -> In pos l ->
  fold_left (fun lookup el => <[pe_alias el := el]> lookup) l m !! pe_alias pos
  = Some pos.
Proof.
  induction l as [| x l IH]; intros m pos Hnd Hin; [destruct Hin |].
  cbn [map] in Hnd. apply NoDup_cons in Hnd as [Hx Hnd].
  rewrite list_elem_of_In in Hx. cbn [fold_left].
  destruct Hin as [-> | Hin]; [| apply IH; assumption].
  rewrite buildLookup_other by exact Hx. apply lookup_insert_eq.
Qed.

Lemma positioned_aliases g laid elements pes :
  mapM (positionElement g laid) elements = Some pes ->
  map pe_alias pes = map el_alias elements.
Proof.
  intros Hm. apply mapM_Some in Hm.
  induction Hm as [| e pe es pes He _ IH]; [reflexivity |].
  cbn [map]. rewrite IH. f_equal.
  unfold positionElement in He. destruct (node g (el_alias e)); [| discriminate].
  cbn in He. injection He as <-. reflexivity.
Qed.

End Lookup.

(** C2: a laid-out boundary holds the rectangle of each of its direct
    elements that has a position, and the rectangle of each of its child
    boundaries, with 30 px to spare on the left, on the right and below,
    and 30 + 28 px above; and so does every boundary of the output tree,
    at any depth.  A rectangle held with these margins is strictly
    inside. *)
Theorem C2_boundary_contains_members
    (dagre_layout : Graph C4Layout.Size C4Layout.C4EdgeLabel -> string + Laid)
    (diagram : C4Layout.C4Diagram) (out : C4Layout.PositionedC4Diagram) :
  C4Layout.layoutC4Diagram dagre_layout diagram = inr out ->
  let elementLookup := C4Layout.buildLookup (C4Layout.pd_elements out) in
  (C4Layout.dg_elements diagram <> [] ->
   C4Layout.pd_boundaries out
   = C4Layout.layoutBoundaries (C4Layout.dg_boundaries diagram) elementLookup)
  /\ (NoDup (map C4Layout.el_alias (C4Layout.dg_elements diagram)) ->
      forall pos, In pos (C4Layout.pd_elements out) ->
                  elementLookup !! C4Layout.pe_alias pos = Some pos)
  /\ (forall root boundary element pos,
        In root (C4Layout.dg_boundaries diagram) ->
        In boundary (allBoundaries root) ->
        In element (C4Layout.b_elements boundary) ->
        elementLookup !! C4Layout.el_alias element = Some pos ->
        insidePadded (C4Layout.elementRect pos)
                     (C4Layout.layoutBoundary elementLookup boundary))
  /\ (forall positioned child,
        In positioned (C4Layout.flattenBoundaries (C4Layout.pd_boundaries out)) ->
        In child (C4Layout.pb_children positioned) ->
        insidePadded (C4Layout.boundaryRect child) positioned)
  /\ (forall r b, insidePadded r b ->
        C4Layout.pb_x b < C4Layout.r_x r
        /\ C4Layout.r_right r < C4Layout.pb_x b + C4Layout.pb_width b
        /\ C4Layout.pb_y b < C4Layout.r_y r
        /\ C4Layout.r_bottom r < C4Layout.pb_y b + C4Layout.pb_height b).
Proof.
  intros Hout elementLookup.
  destruct (boundaries_hold_their_members elementLookup (C4Layout.dg_boundaries diagram))
    as (Hel & Hch & Hstrict).
  apply layoutC4Diagram_inr in Hout
    as [[He ->] | (Hne & laid & pes & prs & _ & Hpes & _ & ->)];
    cbn [C4Layout.pd_boundaries C4Layout.pd_elements] in *.
  - repeat apply conj; auto.
    + intros Hne. contradiction.
    + intros _ pos [].
    + intros positioned child [].
  - repeat apply conj; auto.
    intros Hnd pos Hpos. apply buildLookup_finds; [| exact Hpos].
    rewrite (positioned_aliases _ _ _ _ Hpes). exact Hnd.
Qed.

(** ** One positioned relationship per ordered pair *)

Section OnePerPair.
Import C4Layout.

Lemma lookup_map {A B} (f : A -> B) (l : list A) i x :
  l !! i = Some x -> map f l !! i = Some (f x).
Proof.
  revert i. induction l as [| y l IH]; intros [| i] H; try discriminate.
  - injection H as ->. reflexivity.
  - cbn. apply IH, H.
Qed.

Lemma extractRelationship_Some diagram g laid n k lbl pr :
  edgesOk (dg_relationships diagram) n (edgeList g) ->
  In (k, lbl) (edgeList g) ->
  extractRelationship diagram g laid (k, lbl) = Some pr ->
  exists rel, dg_relationships diagram !! _index lbl = Some rel
              /\ relKey rel = k
              /\ pr = mkPositionedRelationship (rel_from rel) (rel_to rel)
                        (rel_label rel) (rel_technology rel) (routeEdge g laid k).
Proof.
  intros (_ & Hlbl & _) Hin Hex.
  destruct (Hlbl k lbl Hin) as (rel & Hrel & _ & Hk & _).
  unfold extractRelationship in Hex. cbn [snd fst] in Hex.
  rewrite Hrel in Hex. cbn in Hex. injection Hex as <-.
  exists rel. auto.
Qed.

Section Filter.
Context {E : Type} (R : (string * string) * E -> PositionedC4Relationship -> Prop).
Hypothesis R_key : forall e pr, R e pr -> positionedKey pr = fst e.

Lemma positionedFor_absent es prs k :
  Forall2 R es prs -> ~ In k (map fst es) -> positionedFor k prs = [].
Proof.
  induction 1 as [| e pr es prs HR _ IH]; intros Hk; [reflexivity |].
  cbn [map In] in Hk. unfold positionedFor. cbn [List.filter].
  rewrite (R_key _ _ HR).
  rewrite bool_decide_eq_false_2 by tauto.
  apply IH. tauto.
Qed.

Lemma positionedFor_single es prs e0 :
  Forall2 R es prs -> NoDup (map fst es) -> In e0 es ->
  exists pr0, R e0 pr0 /\ positionedFor (fst e0) prs = [pr0].
Proof.
  induction 1 as [| e pr es prs HR HF IH]; intros Hnd Hin; [destruct Hin |].
  cbn [map] in Hnd. apply NoDup_cons in Hnd as [Hnotin Hnd].
  rewrite list_elem_of_In in Hnotin.
  unfold positionedFor. cbn [List.filter]. rewrite (R_key _ _ HR).
  destruct Hin as [-> | Hin].
  - exists pr. split; [exact HR |].
    rewrite bool_decide_eq_true_2 by reflexivity.
    f_equal. apply (positionedFor_absent es); assumption.
  - destruct (IH Hnd Hin) as (pr0 & HR0 & Hf). exists pr0. split; [exact HR0 |].
    rewrite bool_decide_eq_false_2; [exact Hf |].
    intros Heq. apply Hnotin. rewrite Heq. apply in_map, Hin.
Qed.

End Filter.

Lemma edges_at_most_relationships all es :
  edgesOk all (length all) es -> (length es <= length all)%nat.
Proof.
  intros (Hnd & Hlbl & _).
  rewrite <- (length_map fst es), <- (length_map relKey all).
  apply submseteq_length, NoDup_submseteq; [exact Hnd |].
  intros k Hk. apply list_elem_of_In in Hk. apply list_elem_of_In.
  apply in_map_iff in Hk as ([k' lbl] & <- & Hin).
  destruct (Hlbl k' lbl Hin) as (rel & Hrel & _ & Hkey & _).
  apply in_map_iff. exists rel. split; [exact Hkey |].
  apply list_elem_of_In. eapply list_elem_of_lookup_2, Hrel.
Qed.

Lemma edges_fewer_when_repeated all es i j r1 r2 :
  edgesOk all (length all) es ->
  i <> j -> all !! i = Some r1 -> all !! j = Some r2 -> relKey r1 = relKey r2 ->
  (length es < length all)%nat.
Proof.
  intros Hok Hij H1 H2 Hkey.
  pose proof (edges_at_most_relationships _ _ Hok) as Hle.
  destruct (decide (length es = length all)) as [Heq |]; [| lia].
  exfalso. destruct Hok as (Hnd & Hlbl & _).
  assert (Hsub : map fst es ⊆+ map relKey all).
  { apply NoDup_submseteq; [exact Hnd |].
    intros k Hk. apply list_elem_of_In in Hk. apply list_elem_of_In.
    apply in_map_iff in Hk as ([k' lbl] & <- & Hin).
    destruct (Hlbl k' lbl Hin) as (rel & Hrel & _ & Hk' & _).
    apply in_map_iff. exists rel. split; [exact Hk' |].
    apply list_elem_of_In. eapply list_elem_of_lookup_2, Hrel. }
  apply submseteq_length_Permutation in Hsub;
    [| rewrite !length_map; lia].
  rewrite Hsub in Hnd.
  apply Hij. eapply NoDup_lookup; [exact Hnd | |].
  - apply lookup_map, H1.
  - rewrite Hkey. apply lookup_map, H2.
Qed.

End OnePerPair.

(** The relationships of a C4 result, pair by pair, when no end point
    holds U+0001. *)
Lemma c4_relationships_per_pair
    (dagre_layout : Graph C4Layout.Size C4Layout.C4EdgeLabel -> string + Laid)
    (diagram : C4Layout.C4Diagram) (laid : Laid) :
  C4Layout.dg_elements diagram <> [] ->
  plainEnds (C4Layout.dg_relationships diagram) = true ->
  dagre_layout (C4Layout.buildGraph diagram) = inr laid ->
  exists out,
    C4Layout.layoutC4Diagram dagre_layout diagram = inr out
    /\ (forall i rel,
          C4Layout.dg_relationships diagram !! i = Some rel ->
          exists last relLast,
            C4Layout.dg_relationships diagram !! last = Some relLast
            /\ (i <= last)%nat
            /\ relKey relLast = relKey rel
            /\ (forall j rel', (last < j)%nat ->
                  C4Layout.dg_relationships diagram !! j = Some rel' ->
                  relKey rel' <> relKey rel)
            /\ positionedFor (relKey rel) (C4Layout.pd_relationships out)
               = [C4Layout.mkPositionedRelationship
                    (C4Layout.rel_from relLast) (C4Layout.rel_to relLast)
                    (C4Layout.rel_label relLast) (C4Layout.rel_technology relLast)
                    (C4Layout.routeEdge (C4Layout.buildGraph diagram) laid (relKey rel))])
    /\ (length (C4Layout.pd_relationships out)
        <= length (C4Layout.dg_relationships diagram))%nat
    /\ (forall i j r1 r2, i <> j ->
          C4Layout.dg_relationships diagram !! i = Some r1 ->
          C4Layout.dg_relationships diagram !! j = Some r2 ->
          relKey r1 = relKey r2 ->
          (length (C4Layout.pd_relationships out)
           < length (C4Layout.dg_relationships diagram))%nat).
Proof.
  intros Hne Hplain Hd.
  destruct (layoutC4Diagram_returns dagre_layout diagram laid Hne Hd) as [out Hout].
  exists out. split; [exact Hout |].
  apply layoutC4Diagram_inr in Hout
    as [[He _] | (_ & laid' & pes & prs & Hd' & _ & Hprs & ->)]; [contradiction |].
  rewrite Hd in Hd'. injection Hd' as <-.
  cbn [C4Layout.pd_relationships].
  pose proof (buildGraph_ok diagram Hplain) as Hok.
  set (g := C4Layout.buildGraph diagram) in *.
  set (all := C4Layout.dg_relationships diagram) in *.
  pose proof (proj1 (mapM_Some _ _ _) Hprs) as HF.
  assert (Hlen : length prs = length (edgeList g))
    by (symmetry; apply (Forall2_length _ _ _ HF)).
  rewrite Hlen. repeat apply conj.
  - intros i rel Hi.
    destruct Hok as (Hnd & Hlbl & Hcov).
    pose proof (lookup_lt_Some _ _ _ Hi) as Hilt.
    pose proof (Hcov i rel Hilt Hi) as Hkey.
    apply in_map_iff in Hkey as ([k lbl] & Hk & Hin). cbn [fst] in Hk. subst k.
    destruct (Hlbl _ lbl Hin) as (relLast & Hlast & Hlt & Hsame & _ & Hafter).
    exists (C4Layout._index lbl), relLast. repeat apply conj; auto.
    + destruct (le_lt_dec i (C4Layout._index lbl)) as [| Hgt]; [assumption |].
      exfalso. apply (Hafter i rel Hgt Hilt Hi). reflexivity.
    + intros j rel' Hj Hrel'. apply (Hafter j rel' Hj); [| exact Hrel'].
      apply (lookup_lt_Some _ _ _ Hrel').
    + destruct (positionedFor_single
                  (fun e pr => In e (edgeList g)
                               /\ C4Layout.extractRelationship diagram g laid e = Some pr)
                  ltac:(intros [k l] pr [Hein Hex];
                        destruct (extractRelationship_Some diagram g laid _ k l pr
                                    (conj Hnd (conj Hlbl Hcov)) Hein Hex)
                          as (r & _ & Hr & ->); exact Hr)
                  (edgeList g) prs (relKey rel, lbl)) as (pr0 & [_ Hex] & Hf); auto.
      * clear -HF. induction HF as [| e pr es prs' He _ IH]; constructor.
        -- split; [left; reflexivity | exact He].
        -- eapply Forall2_impl; [exact IH |].
           intros e' pr' [Hin' He']. split; [right; exact Hin' | exact He'].
      * cbn [fst] in Hf. rewrite Hf. f_equal.
        destruct (extractRelationship_Some diagram g laid _ _ lbl pr0
                    (conj Hnd (conj Hlbl Hcov)) Hin Hex) as (r & Hr1 & _ & ->).
        unfold all in Hlast. rewrite Hlast in Hr1. injection Hr1 as <-. reflexivity.
  - apply edges_at_most_relationships, Hok.
  - intros i j r1 r2. apply edges_fewer_when_repeated, Hok.
Qed.

(** Whatever the end points: when dagre returns so does the layout, and
    for every relationship of the input the result has a relationship
    whose end points have the same edge key. *)
Lemma c4_relationships_drawn
    (dagre_layout : Graph C4Layout.Size C4Layout.C4EdgeLabel -> string + Laid)
    (diagram : C4Layout.C4Diagram) (laid : Laid) :
  C4Layout.dg_elements diagram <> [] ->
  dagre_layout (C4Layout.buildGraph diagram) = inr laid ->
  exists out,
    C4Layout.layoutC4Diagram dagre_layout diagram = inr out
    /\ forall rel, In rel (C4Layout.dg_relationships diagram) ->
         exists pr, In pr (C4Layout.pd_relationships out)
                    /\ sameEdge (positionedKey pr) (relKey rel) = true.
Proof.
  intros Hne Hd.
  destruct (layoutC4Diagram_returns dagre_layout diagram laid Hne Hd) as [out Hout].
  exists out. split; [exact Hout |].
  apply layoutC4Diagram_inr in Hout
    as [[He _] | (_ & laid' & pes & prs & Hd' & _ & Hprs & ->)]; [contradiction |].
  cbn [C4Layout.pd_relationships]. intros rel Hrel.
  pose proof (buildGraph_hasEdge diagram rel Hrel) as Hhas.
  apply hasEdge_true in Hhas as (k & Hk & Hsame).
  apply in_map_iff in Hk as ([k' lbl] & Hfst & Hin). cbn [fst] in Hfst. subst k'.
  destruct (buildGraph_labels diagram k lbl Hin) as (rel' & Hrel' & Hsame' & _).
  apply mapM_Some in Hprs.
  assert (Hex : exists pr, In pr prs
            /\ C4Layout.extractRelationship diagram (C4Layout.buildGraph diagram)
                 laid' (k, lbl) = Some pr).
  { clear -Hprs Hin. induction Hprs as [| e pr es prs He _ IH]; [destruct Hin |].
    destruct Hin as [-> | Hin].
    - exists pr. split; [left; reflexivity | exact He].
    - destruct (IH Hin) as (pr' & H1 & H2). exists pr'. split; [right |]; assumption. }
  destruct Hex as (pr & Hpr & Hex). exists pr. split; [exact Hpr |].
  unfold C4Layout.extractRelationship in Hex. cbn [snd fst] in Hex.
  rewrite Hrel' in Hex. cbn in Hex. injection Hex as <-.
  unfold positionedKey. cbn [C4Layout.pr_from C4Layout.pr_to]. fold (relKey rel').
  apply (sameEdge_trans _ k); [rewrite sameEdge_sym; exact Hsame' | exact Hsame].
Qed.

(** C10, as stated, fails on a diagram without elements:
    [twiceWithoutElements] has two relationships from [web] to [api], and
    the layout returns the empty result, with no positioned relationship
    for that pair instead of exactly one. *)
Lemma C10_no_element_no_relationship :
  C4Layout.dg_relationships twiceWithoutElements = [webToApi; webToApiAgain]
  /\ relKey webToApi = relKey webToApiAgain
  /\ C4Layout.layoutC4Diagram (dagreThrows "not called") twiceWithoutElements
     = inr (C4Layout.mkPositionedDiagram 0 0 None [] [] [])
  /\ positionedFor (relKey webToApi)
       (C4Layout.pd_relationships
          (c4Result (C4Layout.layoutC4Diagram (dagreThrows "not called")
                       twiceWithoutElements)))
     = [].
Proof. repeat split. Qed.

(** C10, amended: when the diagram has at least one element, no end
    point of a relationship holds the character U+0001 (the delimiter of
    the edge keys of the graph library) and dagre returns, the layout
    returns, and for every relationship of the input the output holds
    exactly one positioned relationship with its pair of end points: it
    carries the label and technology of the last input relationship with
    that pair.  The output is never longer than the input, and is shorter
    as soon as two input relationships share a pair. *)
Theorem C10_one_relationship_per_pair
    (dagre_layout : Graph C4Layout.Size C4Layout.C4EdgeLabel -> string + Laid)
    (diagram : C4Layout.C4Diagram) (laid : Laid) :
  C4Layout.dg_elements diagram <> [] ->
  plainEnds (C4Layout.dg_relationships diagram) = true ->
  dagre_layout (C4Layout.buildGraph diagram) = inr laid ->
  exists out,
    C4Layout.layoutC4Diagram dagre_layout diagram = inr out
    /\ (forall i rel,
          C4Layout.dg_relationships diagram !! i = Some rel ->
          exists last relLast,
            C4Layout.dg_relationships diagram !! last = Some relLast
            /\ (i <= last)%nat
            /\ relKey relLast = relKey rel
            /\ (forall j rel', (last < j)%nat ->
                  C4Layout.dg_relationships diagram !! j = Some rel' ->
                  relKey rel' <> relKey rel)
            /\ positionedFor (relKey rel) (C4Layout.pd_relationships out)
               = [C4Layout.mkPositionedRelationship
                    (C4Layout.rel_from relLast) (C4Layout.rel_to relLast)
                    (C4Layout.rel_label relLast) (C4Layout.rel_technology relLast)
                    (C4Layout.routeEdge (C4Layout.buildGraph diagram) laid (relKey rel))])
    /\ (length (C4Layout.pd_relationships out)
        <= length (C4Layout.dg_relationships diagram))%nat
    /\ (forall i j r1 r2, i <> j ->
          C4Layout.dg_relationships diagram !! i = Some r1 ->
          C4Layout.dg_relationships diagram !! j = Some r2 ->
          relKey r1 = relKey r2 ->
          (length (C4Layout.pd_relationships out)
           < length (C4Layout.dg_relationships diagram))%nat).
Proof. exact (c4_relationships_per_pair dagre_layout diagram laid). Qed.

(** ** The ArchiMate graph *)

Section ArchiMateGraph.
Import ArchiMateLayout.

Variable diagram : ArchiMateDiagram.

Lemma relEdgesOk_layer (g : Gr) v w minlen weight :
  relEdgesOk diagram (edgeList g) ->
  relEdgesOk diagram (edgeList (setEdge g v w (LayerEdge minlen weight))).
Proof.
  intros Hok k i label wd h Hin.
  apply In_setEdge_label in Hin as [[_ [=]] | Hin]. apply (Hok k i label wd h Hin).
Qed.

Lemma relationshipLabel_index i rel :
  exists label w h, relationshipLabel i rel = RelationshipEdge i label w h.
Proof.
  unfold relationshipLabel. destruct (C4Layout.truthy (rel_label rel)); eauto.
Qed.

Lemma relEdgesOk_relationship (g : Gr) i rel :
  dg_relationships diagram !! i = Some rel ->
  has (dg_elements diagram) (rel_source rel) = true ->
  has (dg_elements diagram) (rel_target rel) = true ->
  relEdgesOk diagram (edgeList g) ->
  relEdgesOk diagram
    (edgeList (setEdge g (rel_source rel) (rel_target rel) (relationshipLabel i rel))).
Proof.
  intros Hi Hs Ht Hok k j label wd h Hin.
  apply In_setEdge_label in Hin as [[Hk Heq] | Hin]; [| apply (Hok k j label wd h Hin)].
  destruct (relationshipLabel_index i rel) as (l' & w' & h' & Hl).
  rewrite Hl in Heq. injection Heq as -> _ _ _.
  exists rel. rewrite sameEdge_sym. auto.
Qed.

Lemma addLayerEdges_ok lowerLayers : forall upperLayer (g : Gr),
  relEdgesOk diagram (edgeList g) ->
  relEdgesOk diagram (edgeList (addLayerEdges diagram upperLayer lowerLayers g)).
Proof.
  induction lowerLayers as [| lower rest IH]; intros upper g Hok;
    cbn [addLayerEdges]; [exact Hok |].
  apply IH.
  destruct (layerElements diagram upper) as [| u0 ?]; [exact Hok |].
  destruct (layerElements diagram lower) as [| l0 ?]; [exact Hok |].
  apply relEdgesOk_layer, Hok.
Qed.

Lemma archi_addRelationships_ok rels : forall pre (g : Gr),
  dg_relationships diagram = pre ++ rels ->
  relEdgesOk diagram (edgeList g) ->
  relEdgesOk diagram
    (edgeList (addRelationships (dg_elements diagram) rels (length pre) g)).
Proof.
  induction rels as [| rel rest IH]; intros pre g Hall Hok;
    cbn [addRelationships]; [exact Hok |].
  replace (S (length pre)) with (length (pre ++ [rel]))
    by (rewrite length_app; cbn [length]; lia).
  apply IH; [rewrite Hall, <- app_assoc; reflexivity |].
  destruct (has (dg_elements diagram) (rel_source rel)) eqn:Hs; [| exact Hok].
  destruct (has (dg_elements diagram) (rel_target rel)) eqn:Ht; [| exact Hok].
  cbn [andb]. apply relEdgesOk_relationship; auto.
  rewrite Hall. apply list_lookup_middle. reflexivity.
Qed.

Lemma archi_edgeList_addElements elements (g : Gr) :
  edgeList (addElements elements g) = edgeList g.
Proof.
  unfold addElements. revert g.
  induction elements as [| e es IH]; intros g; cbn [fold_left]; [reflexivity |].
  rewrite IH. reflexivity.
Qed.

(** The relationship edges of the graph handed to dagre. *)
Lemma buildGraph_relEdgesOk : relEdgesOk diagram (edgeList (buildGraph diagram)).
Proof.
  unfold buildGraph. apply (archi_addRelationships_ok _ []); [reflexivity |].
  assert (H0 : relEdgesOk diagram
                 (edgeList (addElements (dg_elements diagram) (newGraph graphLabel)))).
  { rewrite archi_edgeList_addElements. intros k i label w h []. }
  unfold orderLayers. destruct (presentLayers diagram) as [| first rest];
    [exact H0 | apply addLayerEdges_ok, H0].
Qed.

(** [setEdge] never removes an edge. *)
Lemma addRelationships_keeps elements rels : forall i (g : Gr) k,
  In k (edges g) -> In k (edges (addRelationships elements rels i g)).
Proof.
  induction rels as [| rel rest IH]; intros i g k Hk; cbn [addRelationships];
    [exact Hk |].
  apply IH. destruct (has elements (rel_source rel) && has elements (rel_target rel));
    [| exact Hk].
  apply (setEdge_keeps g), Hk.
Qed.

Lemma addLayerEdges_keeps lowerLayers : forall upperLayer (g : Gr) k,
  In k (edges g) -> In k (edges (addLayerEdges diagram upperLayer lowerLayers g)).
Proof.
  induction lowerLayers as [| lower rest IH]; intros upper g k Hk;
    cbn [addLayerEdges]; [exact Hk |].
  apply IH.
  destruct (layerElements diagram upper) as [| u0 ?]; [exact Hk |].
  destruct (layerElements diagram lower) as [| l0 ?]; [exact Hk |].
  apply (setEdge_keeps g), Hk.
Qed.

(** The same of the edges the graph has in the sense of [g.hasEdge]. *)
Lemma addRelationships_keeps_hasEdge elements rels : forall i (g : Gr) e,
  hasEdge (edgeList g) e = true ->
  hasEdge (edgeList (addRelationships elements rels i g)) e = true.
Proof.
  induction rels as [| rel rest IH]; intros i g e He; cbn [addRelationships];
    [exact He |].
  apply IH. destruct (has elements (rel_source rel) && has elements (rel_target rel));
    [| exact He].
  apply hasEdge_setEdge_keeps, He.
Qed.

Lemma addLayerEdges_keeps_hasEdge lowerLayers : forall upperLayer (g : Gr) e,
  hasEdge (edgeList g) e = true ->
  hasEdge (edgeList (addLayerEdges diagram upperLayer lowerLayers g)) e = true.
Proof.
  induction lowerLayers as [| lower rest IH]; intros upper g e He;
    cbn [addLayerEdges]; [exact He |].
  apply IH.
  destruct (layerElements diagram upper) as [| u0 ?]; [exact He |].
  destruct (layerElements diagram lower) as [| l0 ?]; [exact He |].
  apply hasEdge_setEdge_keeps, He.
Qed.

(** Between the first elements of two consecutive layers the graph has
    an edge, in the sense of [g.hasEdge]; and the edge of that very pair
    when their ids hold no U+0001. *)
Lemma addLayerEdges_adds lowerLayers : forall upperLayer (g : Gr) upper lower,
  In (upper, lower) (zip (upperLayer :: lowerLayers) lowerLayers) ->
  forall u0 us l0 ls,
    layerElements diagram upper = u0 :: us ->
    layerElements diagram lower = l0 :: ls ->
    hasEdge (edgeList (addLayerEdges diagram upperLayer lowerLayers g))
            (el_id u0, el_id l0) = true
    /\ (plainId (el_id u0) = true -> plainId (el_id l0) = true ->
        In (el_id u0, el_id l0)
           (edges (addLayerEdges diagram upperLayer lowerLayers g))).
Proof.
  induction lowerLayers as [| low rest IH]; intros up g upper lower Hin;
    [destruct Hin |].
  cbn [zip zip_with In] in Hin. intros u0 us l0 ls Hu Hl.
  cbn [addLayerEdges]. destruct Hin as [[= <- <-] | Hin].
  - rewrite Hu, Hl. split.
    + apply addLayerEdges_keeps_hasEdge, hasEdge_setEdge.
    + intros Hpu Hpl.
      apply addLayerEdges_keeps, (setEdge_keys g _ _ _ _ Hpu Hpl). left. reflexivity.
  - eapply IH; eauto.
Qed.

End ArchiMateGraph.

(** ** The ArchiMate entry point *)

Section ArchiMateRun.
Import ArchiMateLayout.

Variable dagre_layout : Gr -> string + Laid.

Lemma layoutArchiMateDiagram_empty diagram :
  dg_elements diagram = [] ->
  layoutArchiMateDiagram dagre_layout diagram = inr (mkPositionedDiagram 0 0 [] [] []).
Proof. intros H. unfold layoutArchiMateDiagram. rewrite H. reflexivity. Qed.

Lemma layoutArchiMateDiagram_throws diagram message :
  dg_elements diagram <> [] ->
  dagre_layout (buildGraph diagram) = inl message ->
  layoutArchiMateDiagram dagre_layout diagram = inl (dagreFailed +:+ message).
Proof.
  intros Hne Hd. unfold layoutArchiMateDiagram.
  rewrite (nonempty_length _ Hne), Hd. reflexivity.
Qed.

(** When dagre returns, so does the layout. *)
Lemma layoutArchiMateDiagram_returns diagram laid :
  dg_elements diagram <> [] ->
  dagre_layout (buildGraph diagram) = inr laid ->
  exists out, layoutArchiMateDiagram dagre_layout diagram = inr out.
Proof.
  intros Hne Hd. unfold layoutArchiMateDiagram.
  rewrite (nonempty_length _ Hne), Hd.
  assert (Hr : is_Some (mapM (extractRelationship diagram (buildGraph diagram) laid)
                             (edgeList (buildGraph diagram)))).
  { apply mapM_is_Some, Forall_forall. intros [k lbl] He. apply list_elem_of_In in He.
    unfold compose, extractRelationship. cbn [snd fst].
    destruct lbl as [minlen weight | i label w h]; [eauto |].
    destruct (buildGraph_relEdgesOk diagram k i label w h He) as (rel & -> & _).
    cbn. eauto. }
  destruct Hr as [rels ->]. eauto.
Qed.

Lemma extracted_count diagram g laid es rs :
  Forall2 (fun e r => extractRelationship diagram g laid e = Some r) es rs ->
  (length (omap id rs) + length (List.filter isLayerEdge es) = length es)%nat.
Proof.
  induction 1 as [| [k lbl] r es rs He _ IH]; [reflexivity |].
  unfold extractRelationship in He. cbn [snd fst] in He.
  cbn [List.filter]. unfold isLayerEdge at 1. cbn [snd].
  destruct lbl as [minlen weight | i label w h].
  - injection He as <-. cbn. cbn in IH. lia.
  - destruct (dg_relationships diagram !! i) as [rel |]; [| discriminate].
    cbn in He. injection He as <-. cbn. cbn in IH. lia.
Qed.

Lemma extracted_origin diagram g laid es rs r :
  relEdgesOk diagram es ->
  Forall2 (fun e r => extractRelationship diagram g laid e = Some r) es rs ->
  In r (omap id rs) ->
  exists i rel,
    dg_relationships diagram !! i = Some rel
    /\ has (dg_elements diagram) (rel_source rel) = true
    /\ has (dg_elements diagram) (rel_target rel) = true
    /\ pr_source r = rel_source rel /\ pr_target r = rel_target rel
    /\ pr_type r = rel_type rel /\ pr_label r = rel_label rel.
Proof.
  intros Hok HF Hin.
  apply list_elem_of_In, list_elem_of_omap in Hin as (o & Ho & Hid).
  unfold id in Hid. subst o.
  apply list_elem_of_In in Ho.
  assert (Hex : exists e, In e es /\ extractRelationship diagram g laid e = Some (Some r)).
  { clear Hok. induction HF as [| e r' es rs He _ IH]; [destruct Ho |].
    destruct Ho as [-> | Ho].
    - exists e. split; [left; reflexivity | exact He].
    - destruct (IH Ho) as (e' & He' & Hx). exists e'. split; [right |]; assumption. }
  destruct Hex as ([k lbl] & He & Hx).
  unfold extractRelationship in Hx. cbn [snd fst] in Hx.
  destruct lbl as [minlen weight | i label w h]; [discriminate |].
  destruct (Hok k i label w h He) as (rel & Hrel & _ & Hs & Ht).
  rewrite Hrel in Hx. cbn in Hx. injection Hx as <-.
  exists i, rel. cbn. auto 10.
Qed.

Lemma In_zip_tail {A} (l : list A) x y : In (x, y) (zip l (tail l)) -> In x l /\ In y l.
Proof.
  destruct l as [| a l]; [intros [] |]. cbn [tail].
  revert a. induction l as [| b l IH]; intros a Hin; [destruct Hin |].
  cbn [zip zip_with In] in Hin. destruct Hin as [[= <- <-] | Hin].
  - split; [left | right; left]; reflexivity.
  - destruct (IH b Hin) as [Hx Hy]. split; right; assumption.
Qed.

Lemma presentLayers_nonempty diagram layer :
  In layer (presentLayers diagram) ->
  exists e0 es, dg_layers diagram layer = Some (e0 :: es).
Proof.
  unfold presentLayers. intros Hin. apply filter_In in Hin as [_ Hin].
  destruct (dg_layers diagram layer) as [[| e0 es] |]; try discriminate. eauto.
Qed.

(** Between the first elements of two consecutive present layers the
    graph handed to dagre has an edge, in the sense of [g.hasEdge]; when
    their ids hold no U+0001 it is the edge of that very pair. *)
Lemma ordering_edges_in_graph diagram upper lower :
  In (upper, lower) (adjacentLayers diagram) ->
  exists u0 us l0 ls,
    dg_layers diagram upper = Some (u0 :: us)
    /\ dg_layers diagram lower = Some (l0 :: ls)
    /\ hasEdge (edgeList (buildGraph diagram)) (el_id u0, el_id l0) = true
    /\ (plainId (el_id u0) = true -> plainId (el_id l0) = true ->
        In (el_id u0, el_id l0) (edges (buildGraph diagram))).
Proof.
  intros Hadj. destruct (In_zip_tail _ _ _ Hadj) as [Hu Hl].
  destruct (presentLayers_nonempty _ _ Hu) as (u0 & us & Hu0).
  destruct (presentLayers_nonempty _ _ Hl) as (l0 & ls & Hl0).
  exists u0, us, l0, ls. split; [exact Hu0 |]. split; [exact Hl0 |].
  unfold buildGraph, orderLayers, adjacentLayers in *.
  destruct (presentLayers diagram) as [| first rest]; [destruct Hadj |].
  cbn [tail] in Hadj.
  destruct (addLayerEdges_adds diagram rest first
              (addElements (dg_elements diagram) (newGraph graphLabel))
              upper lower Hadj u0 us l0 ls) as [Hhas Hin];
    [unfold layerElements; rewrite Hu0; reflexivity
    | unfold layerElements; rewrite Hl0; reflexivity |].
  split.
  - apply addRelationships_keeps_hasEdge, Hhas.
  - intros Hpu Hpl. apply addRelationships_keeps, Hin; assumption.
Qed.

End ArchiMateRun.

(** C9: the graph handed to dagre has an edge between the first elements
    of each two consecutive present layers, in the sense of [g.hasEdge],
    and lists the edge of that very pair when the two ids hold no U+0001,
    the delimiter of the edge keys of the graph library; every
    relationship of a result comes from a relationship of the input, at
    some index, whose two end points are elements of the diagram, and has
    its source, target, type and label; and when the diagram has elements
    the result has one relationship for each edge of the graph that is
    not an ordering edge, and none for an ordering edge. *)
Theorem C9_ordering_edges_left_out
    (dagre_layout : ArchiMateLayout.Gr -> string + Laid)
    (diagram : ArchiMateLayout.ArchiMateDiagram)
    (out : ArchiMateLayout.PositionedArchiMateDiagram) :
  ArchiMateLayout.layoutArchiMateDiagram dagre_layout diagram = inr out ->
  (forall upper lower, In (upper, lower) (adjacentLayers diagram) ->
     exists u0 us l0 ls,
       ArchiMateLayout.dg_layers diagram upper = Some (u0 :: us)
       /\ ArchiMateLayout.dg_layers diagram lower = Some (l0 :: ls)
       /\ hasEdge (edgeList (ArchiMateLayout.buildGraph diagram))
                  (ArchiMateLayout.el_id u0, ArchiMateLayout.el_id l0) = true
       /\ (plainId (ArchiMateLayout.el_id u0) = true ->
           plainId (ArchiMateLayout.el_id l0) = true ->
           In (ArchiMateLayout.el_id u0, ArchiMateLayout.el_id l0)
              (edges (ArchiMateLayout.buildGraph diagram))))
  /\ (forall r, In r (ArchiMateLayout.pd_relationships out) ->
        exists i rel,
          ArchiMateLayout.dg_relationships diagram !! i = Some rel
          /\ ArchiMateLayout.has (ArchiMateLayout.dg_elements diagram)
               (ArchiMateLayout.rel_source rel) = true
          /\ ArchiMateLayout.has (ArchiMateLayout.dg_elements diagram)
               (ArchiMateLayout.rel_target rel) = true
          /\ ArchiMateLayout.pr_source r = ArchiMateLayout.rel_source rel
          /\ ArchiMateLayout.pr_target r = ArchiMateLayout.rel_target rel
          /\ ArchiMateLayout.pr_type r = ArchiMateLayout.rel_type rel
          /\ ArchiMateLayout.pr_label r = ArchiMateLayout.rel_label rel)
  /\ (ArchiMateLayout.dg_elements diagram <> [] ->
      (length (ArchiMateLayout.pd_relationships out)
       + length (List.filter isLayerEdge
                   (edgeList (ArchiMateLayout.buildGraph diagram)))
       = length (edgeList (ArchiMateLayout.buildGraph diagram)))%nat).
Proof.
  intros Hout. split; [apply ordering_edges_in_graph |].
  apply layoutArchiMateDiagram_inr in Hout
    as [[He ->] | (Hne & laid & rs & _ & Hm & ->)];
    cbn [ArchiMateLayout.pd_relationships].
  - split; [intros r [] | intros Hne; contradiction].
  - apply mapM_Some in Hm. split.
    + intros r Hr. eapply extracted_origin; eauto. apply buildGraph_relEdgesOk.
    + intros _. eapply extracted_count, Hm.
Qed.

(** ** Orthogonal routes *)

Section Orthogonal.












Lemma orthogonalPath_tail p points : orthogonalPath (p :: points) -> orthogonalPath points.
Proof. destruct points; [intros; exact I | intros [_ H]; exact H]. Qed.








End Orthogonal.




(** ** Errors and the empty diagram *)

(** C4: a diagram without elements is laid out as the empty result of
    size 0 x 0, by both entry points, whatever else it holds and whatever
    dagre would do. *)
Theorem C4_empty_diagram
    (c4_dagre : Graph C4Layout.Size C4Layout.C4EdgeLabel -> string + Laid)
    (archimate_dagre : ArchiMateLayout.Gr -> string + Laid)
    (c4 : C4Layout.C4Diagram) (archimate : ArchiMateLayout.ArchiMateDiagram) :
  C4Layout.dg_elements c4 = [] ->
  ArchiMateLayout.dg_elements archimate = [] ->
  C4Layout.layoutC4Diagram c4_dagre c4
    = inr (C4Layout.mkPositionedDiagram 0 0 None [] [] [])
  /\ ArchiMateLayout.layoutArchiMateDiagram archimate_dagre archimate
     = inr (ArchiMateLayout.mkPositionedDiagram 0 0 [] [] []).
Proof.
  intros Hc Ha. split.
  - apply layoutC4Diagram_empty, Hc.
  - apply layoutArchiMateDiagram_empty, Ha.
Qed.

Lemma C4_empty_diagram_witness :
  C4Layout.layoutC4Diagram (dagreThrows "not called") noElements
    = inr (C4Layout.mkPositionedDiagram 0 0 None [] [] [])
  /\ ArchiMateLayout.layoutArchiMateDiagram (dagreThrows "not called") noArchiMateElements
     = inr (ArchiMateLayout.mkPositionedDiagram 0 0 [] [] []).
Proof.
  apply (C4_empty_diagram (dagreThrows "not called") (dagreThrows "not called")
           noElements noArchiMateElements); reflexivity.
Defined.

(** C1, as stated, fails.  [ghost] has a relationship from [Customer] to
    [Ghost], and [Ghost] is no element: the relationship is not made an
    edge of the graph, and with what dagre leaves for the one node the
    layout returns a result, without that relationship.  [noElements]
    has a relationship between two aliases that are no elements: the C4
    layout returns the empty result. *)
Lemma C1_unknown_end_point_not_reported :
  In customerToGhost (ArchiMateLayout.dg_relationships ghost)
  /\ ArchiMateLayout.has (ArchiMateLayout.dg_elements ghost) "Ghost" = false
  /\ edges (ArchiMateLayout.buildGraph ghost) = []
  /\ (exists out,
        ArchiMateLayout.layoutArchiMateDiagram (dagreLeaves laidOneElement) ghost = inr out
        /\ ArchiMateLayout.pd_relationships out = [])
  /\ In webToApi (C4Layout.dg_relationships noElements)
  /\ C4Layout.layoutC4Diagram (dagreThrows "not called") noElements
     = inr (C4Layout.mkPositionedDiagram 0 0 None [] [] []).
Proof.
  split; [left; reflexivity |]. split; [reflexivity |]. split; [reflexivity |].
  split; [eexists; split; [vm_compute; reflexivity | reflexivity] |].
  split; [left; reflexivity | reflexivity].
Qed.

(** C1, amended: with at least one element in the diagram, (1) the C4
    layout makes every relationship an edge of the graph, its end points
    known or not: the graph has an edge for them in the sense of
    [g.hasEdge], which is the edge of that very pair when the end points
    hold no U+0001, the delimiter of the edge keys of the graph library;
    (2) a message thrown by dagre comes back as the error
    "Dagre layout failed (C4 diagram): " followed by the message, resp.
    "Dagre layout failed (ArchiMate diagram): ", and no result; (3) when
    dagre returns, so does the C4 layout, and for every relationship of
    the input the result has a relationship whose end points have the
    same edge key, and are the same end points when they hold no U+0001;
    (4) the ArchiMate layout labels no edge from a relationship one of
    whose end points is not an element, so that no relationship edge
    joins the end points of such a relationship when they hold no U+0001,
    and every relationship of an ArchiMate result joins two elements. *)
Theorem C1_errors_of_the_library_are_wrapped
    (c4_dagre : Graph C4Layout.Size C4Layout.C4EdgeLabel -> string + Laid)
    (archimate_dagre : ArchiMateLayout.Gr -> string + Laid)
    (c4 : C4Layout.C4Diagram) (archimate : ArchiMateLayout.ArchiMateDiagram)
    (message : string) :
  C4Layout.dg_elements c4 <> [] ->
  ArchiMateLayout.dg_elements archimate <> [] ->
  (forall rel, In rel (C4Layout.dg_relationships c4) ->
     hasEdge (edgeList (C4Layout.buildGraph c4)) (relKey rel) = true
     /\ (plainId (C4Layout.rel_from rel) = true ->
         plainId (C4Layout.rel_to rel) = true ->
         In (relKey rel) (edges (C4Layout.buildGraph c4))))
  /\ (c4_dagre (C4Layout.buildGraph c4) = inl message ->
      C4Layout.layoutC4Diagram c4_dagre c4
      = inl ("Dagre layout failed (C4 diagram): " +:+ message))
  /\ (archimate_dagre (ArchiMateLayout.buildGraph archimate) = inl message ->
      ArchiMateLayout.layoutArchiMateDiagram archimate_dagre archimate
      = inl ("Dagre layout failed (ArchiMate diagram): " +:+ message))
  /\ (forall laid, c4_dagre (C4Layout.buildGraph c4) = inr laid ->
      exists out,
        C4Layout.layoutC4Diagram c4_dagre c4 = inr out
        /\ forall rel, In rel (C4Layout.dg_relationships c4) ->
             exists pr, In pr (C4Layout.pd_relationships out)
                        /\ sameEdge (positionedKey pr) (relKey rel) = true
                        /\ (plainId (C4Layout.rel_from rel) = true ->
                            plainId (C4Layout.rel_to rel) = true ->
                            positionedKey pr = relKey rel))
  /\ (forall rel i k label w h,
        ArchiMateLayout.dg_relationships archimate !! i = Some rel ->
        ArchiMateLayout.has (ArchiMateLayout.dg_elements archimate)
          (ArchiMateLayout.rel_source rel)
        && ArchiMateLayout.has (ArchiMateLayout.dg_elements archimate)
             (ArchiMateLayout.rel_target rel) = false ->
        ~ In (k, ArchiMateLayout.RelationshipEdge i label w h)
             (edgeList (ArchiMateLayout.buildGraph archimate)))
  /\ (forall rel i label w h,
        In rel (ArchiMateLayout.dg_relationships archimate) ->
        ArchiMateLayout.has (ArchiMateLayout.dg_elements archimate)
          (ArchiMateLayout.rel_source rel)
        && ArchiMateLayout.has (ArchiMateLayout.dg_elements archimate)
             (ArchiMateLayout.rel_target rel) = false ->
        plainId (ArchiMateLayout.rel_source rel) = true ->
        plainId (ArchiMateLayout.rel_target rel) = true ->
        ~ In ((ArchiMateLayout.rel_source rel, ArchiMateLayout.rel_target rel),
              ArchiMateLayout.RelationshipEdge i label w h)
             (edgeList (ArchiMateLayout.buildGraph archimate)))
  /\ (forall out r,
        ArchiMateLayout.layoutArchiMateDiagram archimate_dagre archimate = inr out ->
        In r (ArchiMateLayout.pd_relationships out) ->
        ArchiMateLayout.has (ArchiMateLayout.dg_elements archimate)
          (ArchiMateLayout.pr_source r) = true
        /\ ArchiMateLayout.has (ArchiMateLayout.dg_elements archimate)
             (ArchiMateLayout.pr_target r) = true).
Proof.
  intros Hc Ha. repeat apply conj.
  - intros rel Hrel. pose proof (buildGraph_hasEdge c4 rel Hrel) as Hhas.
    split; [exact Hhas |]. intros Hv Hw.
    apply (hasEdge_plain _ _ _ Hv Hw), Hhas.
  - apply layoutC4Diagram_throws, Hc.
  - apply layoutArchiMateDiagram_throws, Ha.
  - intros laid Hd.
    destruct (c4_relationships_drawn c4_dagre c4 laid Hc Hd) as (out & Hout & Hper).
    exists out. split; [exact Hout |]. intros rel Hrel.
    destruct (Hper rel Hrel) as (pr & Hpr & Hsame).
    exists pr. split; [exact Hpr |]. split; [exact Hsame |].
    intros Hv Hw. apply (sameEdge_plain _ _ _ Hv Hw), Hsame.
  - intros rel i k label w h Hi Hhas Hin.
    destruct (buildGraph_relEdgesOk archimate k i label w h Hin)
      as (rel' & Hi' & _ & Hs' & Ht').
    rewrite Hi in Hi'. injection Hi' as <-.
    rewrite Hs', Ht' in Hhas. discriminate.
  - intros rel i label w h _ Hhas Hv Hw Hin.
    destruct (buildGraph_relEdgesOk archimate _ i label w h Hin)
      as (rel' & _ & Hsame & Hs' & Ht').
    apply (sameEdge_plain _ _ _ Hv Hw) in Hsame. injection Hsame as Hs Ht.
    rewrite Hs in Hs'. rewrite Ht in Ht'. rewrite Hs', Ht' in Hhas. discriminate.
  - intros out r Hout Hr.
    apply layoutArchiMateDiagram_inr in Hout
      as [[_ ->] | (_ & laid & rs & _ & Hm & ->)];
      cbn [ArchiMateLayout.pd_relationships] in Hr; [destruct Hr |].
    apply mapM_Some in Hm.
    destruct (extracted_origin archimate _ laid _ rs r
                (buildGraph_relEdgesOk archimate) Hm Hr)
      as (i & rel & _ & Hs & Ht & -> & -> & _).
    split; assumption.
Qed.

Lemma C1_errors_of_the_library_are_wrapped_witness :
  C4Layout.layoutC4Diagram (dagreThrows "boom") twice
    = inl ("Dagre layout failed (C4 diagram): boom")
  /\ ArchiMateLayout.layoutArchiMateDiagram (dagreThrows "boom") layered
     = inl ("Dagre layout failed (ArchiMate diagram): boom").
Proof.
  destruct (C1_errors_of_the_library_are_wrapped
              (dagreThrows "boom") (dagreThrows "boom") twice layered "boom")
    as (_ & Hc & Ha & _); [discriminate | discriminate |].
  split; [apply Hc | apply Ha]; reflexivity.
Defined.

(** ** The canvas *)

(** The canvas of a C4 result reaches 40 px beyond the right and the
    bottom edge of every boundary. *)
Lemma canvas_reaches_right_and_bottom dagre_layout diagram out b :
  C4Layout.layoutC4Diagram dagre_layout diagram = inr out ->
  In b (C4Layout.flattenBoundaries (C4Layout.pd_boundaries out)) ->
  C4Layout.pb_x b + C4Layout.pb_width b + C4.padding <= C4Layout.pd_width out
  /\ C4Layout.pb_y b + C4Layout.pb_height b + C4.padding <= C4Layout.pd_height out.
Proof.
  intros Hout Hb. apply layoutC4Diagram_inr in Hout
    as [[_ ->] | (_ & laid & pes & prs & _ & _ & _ & ->)];
    cbn [C4Layout.pd_boundaries C4Layout.pd_width C4Layout.pd_height] in *;
    [destruct Hb |].
  unfold C4Layout.canvasWidth, C4Layout.canvasHeight. split.
  - apply (fold_max_ge_elem
             (fun b => C4Layout.pb_x b + C4Layout.pb_width b + C4.padding)), Hb.
  - apply (fold_max_ge_elem
             (fun b => C4Layout.pb_y b + C4Layout.pb_height b + C4.padding)), Hb.
Qed.

(** Whatever dagre leaves: a boundary with a direct element whose top is
    less than 30 + 28 px below the top of the canvas starts above the
    canvas.  dagre puts the topmost node at its top margin, which the
    layout sets to 40. *)
Lemma boundary_starts_above_canvas elementLookup boundary element pos :
  In element (C4Layout.b_elements boundary) ->
  elementLookup !! C4Layout.el_alias element = Some pos ->
  C4Layout.pe_y pos < C4.boundaryPadding + C4.boundaryHeaderHeight ->
  C4Layout.pb_y (C4Layout.layoutBoundary elementLookup boundary) < 0.
Proof.
  intros Hel Hpos Hy.
  assert (H : insidePadded (C4Layout.elementRect pos)
                           (C4Layout.layoutBoundary elementLookup boundary)).
  { apply collected_inside. unfold C4Layout.collectRects.
    apply in_or_app. left. apply list_elem_of_In, list_elem_of_omap.
    exists element. split; [apply list_elem_of_In, Hel |].
    rewrite Hpos. reflexivity. }
  destruct H as (_ & _ & H & _). cbn [C4Layout.elementRect C4Layout.r_y] in H.
  unfold C4.boundaryPadding, C4.boundaryHeaderHeight in *. lra.
Qed.

(** C5 at [oneBoxed], one 160 x 80 element in one boundary, with what
    dagre leaves for it: the element sits at (40, 40); the boundary is
    the rectangle from (10, -18) of size 220 x 168 and the canvas is
    270 x 190, so the top 18 px of the boundary are above the canvas, and
    its left edge is 10 px, not 40 px, from the canvas edge. *)
Theorem C5_boundary_above_the_canvas :
  exists out el b,
    C4Layout.layoutC4Diagram (dagreLeaves laidOneBox) oneBoxed = inr out
    /\ C4Layout.pd_elements out = [el]
    /\ C4Layout.pe_x el == 40 /\ C4Layout.pe_y el == 40
    /\ C4Layout.pe_width el == 160 /\ C4Layout.pe_height el == 80
    /\ C4Layout.pd_boundaries out = [b]
    /\ C4Layout.pd_width out == 270 /\ C4Layout.pd_height out == 190
    /\ C4Layout.pb_x b == 10 /\ C4Layout.pb_y b == -18
    /\ C4Layout.pb_width b == 220 /\ C4Layout.pb_height b == 168
    /\ C4Layout.pb_y b < 0
    /\ C4Layout.pb_x b < C4.padding.
Proof.
  eexists. eexists. eexists. split; [vm_compute; reflexivity |].
  split; [reflexivity |]. do 4 (split; [reflexivity |]).
  split; [reflexivity |]. repeat split.
Qed.

(** ** Instances *)

Lemma C2_boundary_contains_members_witness :
  exists el b,
    C4Layout.pd_elements
      (c4Result (C4Layout.layoutC4Diagram (dagreLeaves laidOneBox) oneBoxed)) = [el]
    /\ C4Layout.pd_boundaries
         (c4Result (C4Layout.layoutC4Diagram (dagreLeaves laidOneBox) oneBoxed)) = [b]
    /\ insidePadded (C4Layout.elementRect el) b.
Proof.
  destruct (C2_boundary_contains_members (dagreLeaves laidOneBox) oneBoxed
              (c4Result (C4Layout.layoutC4Diagram (dagreLeaves laidOneBox) oneBoxed)))
    as (_ & _ & Hin & _); [vm_compute; reflexivity |].
  eexists. eexists. split; [vm_compute; reflexivity |].
  split; [vm_compute; reflexivity |].
  apply (Hin sys sys api); [left; reflexivity .. | vm_compute; reflexivity].
Defined.


Lemma C6_layer_bands_share_x_and_width_witness :
  map ArchiMateLayout.pl_name
    (ArchiMateLayout.pd_layers
       (archiMateResult
          (ArchiMateLayout.layoutArchiMateDiagram (dagreLeaves laidLayered) layered)))
  = map ArchiMateLayout.pl_name
      (ArchiMateLayout.layerBands (ArchiMateLayout.presentLayers layered)
         (ArchiMateLayout.pd_elements
            (archiMateResult
               (ArchiMateLayout.layoutArchiMateDiagram (dagreLeaves laidLayered) layered)))).
Proof.
  destruct (C6_layer_bands_share_x_and_width
              (dagreLeaves laidLayered) layered
              (archiMateResult
                 (ArchiMateLayout.layoutArchiMateDiagram (dagreLeaves laidLayered) layered)))
    as (_ & Hn & _); [vm_compute; reflexivity | exact Hn].
Defined.

Example layered_bands_are_aligned :
  map (fun l => (ArchiMateLayout.pl_name l,
                 Qred (ArchiMateLayout.pl_x l), Qred (ArchiMateLayout.pl_width l)))
    (ArchiMateLayout.pd_layers
       (archiMateResult
          (ArchiMateLayout.layoutArchiMateDiagram (dagreLeaves laidLayered) layered)))
  = [(ArchiMateLayout.business, 20, 320); (ArchiMateLayout.application, 20, 320)].
Proof. vm_compute. reflexivity. Qed.

Lemma C7_calculateElementSize_witness :
  C4Layout.calculateElementSize user = C4Layout.mkSize 160 180
  /\ C4Layout.sz_width (C4Layout.calculateElementSize web)
     == Qmax C4.minBoxWidth (claimedWidest web + 2 * C4.boxPadX)
  /\ C4Layout.sz_height (C4Layout.calculateElementSize web) == 80.
Proof.
  split.
  - apply (proj1 (C7_calculateElementSize user)). reflexivity.
  - destruct (proj2 (C7_calculateElementSize web)) as (Hw & _ & Hh); [discriminate |].
    exact (conj Hw Hh).
Defined.

Lemma C9_ordering_edges_left_out_witness :
  (length (ArchiMateLayout.pd_relationships
             (archiMateResult
                (ArchiMateLayout.layoutArchiMateDiagram (dagreLeaves laidLayered) layered)))
   + length (List.filter isLayerEdge (edgeList (ArchiMateLayout.buildGraph layered)))
   = length (edgeList (ArchiMateLayout.buildGraph layered)))%nat.
Proof.
  destruct (C9_ordering_edges_left_out
              (dagreLeaves laidLayered) layered
              (archiMateResult
                 (ArchiMateLayout.layoutArchiMateDiagram (dagreLeaves laidLayered) layered)))
    as (_ & _ & H); [vm_compute; reflexivity |].
  apply H. discriminate.
Defined.

Lemma C10_one_relationship_per_pair_witness :
  exists out,
    C4Layout.layoutC4Diagram (dagreLeaves laidTwo) twice = inr out
    /\ (length (C4Layout.pd_relationships out)
        < length (C4Layout.dg_relationships twice))%nat.
Proof.
  destruct (C10_one_relationship_per_pair (dagreLeaves laidTwo) twice laidTwo)
    as (out & Hout & _ & _ & Hlt); [discriminate | reflexivity | reflexivity |].
  exists out. split; [exact Hout |].
  apply (Hlt 0%nat 1%nat webToApi webToApiAgain); [discriminate | reflexivity ..].
Defined.

Example twice_keeps_the_last :
  C4Layout.pr_label <$>
    C4Layout.pd_relationships
      (c4Result (C4Layout.layoutC4Diagram (dagreLeaves laidTwo) twice))
  = [textCalls].
Proof. vm_compute. reflexivity. Qed.

(** Two relationships of [merged] differ in their end points and have
    one edge key: the graph has one edge, with the end points of the
    first and the label of the second, and the result has the second
    relationship and none for the pair of the first. *)
Example merged_by_the_edge_key :
  relKey abToC <> relKey aToBc
  /\ plainEnds (C4Layout.dg_relationships merged) = false
  /\ edges (C4Layout.buildGraph merged) = [relKey abToC]
  /\ map positionedKey
       (C4Layout.pd_relationships
          (c4Result (C4Layout.layoutC4Diagram (dagreLeaves laidOneBox) merged)))
     = [relKey aToBc]
  /\ positionedFor (relKey abToC)
       (C4Layout.pd_relationships
          (c4Result (C4Layout.layoutC4Diagram (dagreLeaves laidOneBox) merged)))
     = [].
Proof. split; [discriminate |]. repeat split; vm_compute; reflexivity. Qed.

(** The two ordering edges of [mergedLayers] have one edge key: the graph
    has an edge for either pair of first elements in the sense of
    [g.hasEdge], and lists the first pair only. *)
Example ordering_edges_merged_by_the_edge_key :
  ArchiMateLayout.presentLayers mergedLayers
  = [ArchiMateLayout.business; ArchiMateLayout.application; ArchiMateLayout.technology]
  /\ hasEdge (edgeList (ArchiMateLayout.buildGraph mergedLayers))
             ("a", "b" +:+ EDGE_KEY_DELIM +:+ "a") = true
  /\ edges (ArchiMateLayout.buildGraph mergedLayers)
     = [("a" +:+ EDGE_KEY_DELIM +:+ "b", "a")].
Proof. repeat split; vm_compute; reflexivity. Qed.

Example layered_has_an_ordering_edge :
  edges (ArchiMateLayout.buildGraph layered) = [("Customer", "App"); ("App", "Customer")]
  /\ ArchiMateLayout.pr_source <$>
       ArchiMateLayout.pd_relationships
         (archiMateResult
            (ArchiMateLayout.layoutArchiMateDiagram (dagreLeaves laidLayered) layered))
     = ["App"].
Proof. split; vm_compute; reflexivity. Qed.

(** * Further properties *)

(** ** The elements of a C4 result *)

Section C4Elements.
Import C4Layout.

Lemma Forall2_impl_In {A B} (P Q : A -> B -> Prop) l k :
  Forall2 P l k -> (forall x y, In x l -> P x y -> Q x y) -> Forall2 Q l k.
Proof.
  induction 1 as [| x y l k HP _ IH]; intros H; constructor.
  - apply H; [left; reflexivity | exact HP].
  - apply IH. intros x' y' Hin. apply H. right. exact Hin.
Qed.

Lemma sizeElements_snoc elements x :
  sizeElements (elements ++ [x])
  = <[el_alias x := calculateElementSize x]> (sizeElements elements).
Proof. unfold sizeElements. rewrite fold_left_app. reflexivity. Qed.

(** The size kept for an alias is the size of an element with that
    alias, the last one; with distinct aliases, of the element itself. *)
Lemma sizeElements_lookup elements e :
  In e elements ->
  exists e', In e' elements /\ el_alias e' = el_alias e
             /\ sizeElements elements !! el_alias e = Some (calculateElementSize e')
             /\ (NoDup (map el_alias elements) -> e' = e).
Proof.
  induction elements as [| x l IH] using rev_ind; intros Hin; [destruct Hin |].
  rewrite sizeElements_snoc.
  destruct (decide (el_alias x = el_alias e)) as [Heq | Hne].
  - exists x. rewrite Heq, lookup_insert_eq.
    repeat split; auto; [apply in_or_app; right; left; reflexivity |].
    intros Hnd. apply in_app_or in Hin as [Hin | [-> | []]]; [| reflexivity].
    exfalso. rewrite map_app in Hnd. apply NoDup_app in Hnd as (_ & Hd & _).
    apply (Hd (el_alias e)).
    + apply list_elem_of_In, in_map, Hin.
    + cbn [map]. rewrite Heq. apply list_elem_of_here.
  - apply in_app_or in Hin as [Hin | [-> | []]]; [| contradiction].
    destruct (IH Hin) as (e' & He' & Ha & Hl & Hu).
    exists e'. rewrite lookup_insert_ne by exact Hne.
    repeat split; auto; [apply in_or_app; left; exact He' |].
    intros Hnd. apply Hu. rewrite map_app in Hnd.
    apply NoDup_app in Hnd as (Hnd & _). exact Hnd.
Qed.

Lemma node_addElements_size sizes elements : forall (g : Graph Size C4EdgeLabel) e s,
  In e elements -> sizes !! el_alias e = Some s ->
  node (addElements sizes elements g) (el_alias e) = Some s.
Proof.
  unfold addElements.
  induction elements as [| x l IH] using rev_ind; intros g e s Hin Hs; [destruct Hin |].
  rewrite fold_left_app. cbn [fold_left]. rewrite node_setNode.
  destruct (decide (el_alias x = el_alias e)) as [Heq | Hne].
  - rewrite Heq, Hs. reflexivity.
  - apply in_app_or in Hin as [Hin | [-> | []]]; [| contradiction].
    apply IH; assumption.
Qed.

Lemma positionElement_spec diagram laid e pe :
  In e (dg_elements diagram) ->
  positionElement (buildGraph diagram) laid e = Some pe ->
  exists sized, In sized (dg_elements diagram)
                /\ el_alias sized = el_alias e
                /\ positionedAs e sized pe
                /\ (NoDup (map el_alias (dg_elements diagram)) -> sized = e).
Proof.
  intros Hin Hpe.
  destruct (sizeElements_lookup _ _ Hin) as (sized & Hs & Ha & Hl & Hu).
  exists sized. repeat split; auto.
  all: unfold positionElement, buildGraph in Hpe;
    rewrite node_addRelationships in Hpe;
    rewrite (node_addElements_size _ _ _ e _ Hin Hl) in Hpe;
    cbn in Hpe; injection Hpe as <-; try reflexivity.
  cbn. destruct (calculateElementSize sized); reflexivity.
Qed.

End C4Elements.

(** X1: when dagre returns, the C4 result lists one positioned element
    per element of the diagram, in the same order, with the same kind,
    alias, label, description, technology and external flag; its box has
    the size computed from an element with the same alias, which is the
    element itself when the aliases of the diagram are distinct. *)
Theorem X1_c4_elements_keep_order_and_fields
    (dagre_layout : Graph C4Layout.Size C4Layout.C4EdgeLabel -> string + Laid)
    (diagram : C4Layout.C4Diagram) (laid : Laid) :
  C4Layout.dg_elements diagram <> [] ->
  dagre_layout (C4Layout.buildGraph diagram) = inr laid ->
  exists out,
    C4Layout.layoutC4Diagram dagre_layout diagram = inr out
    /\ Forall2
         (fun element pos =>
            exists sized,
              In sized (C4Layout.dg_elements diagram)
              /\ C4Layout.el_alias sized = C4Layout.el_alias element
              /\ positionedAs element sized pos
              /\ (NoDup (map C4Layout.el_alias (C4Layout.dg_elements diagram)) ->
                  sized = element))
         (C4Layout.dg_elements diagram) (C4Layout.pd_elements out).
Proof.
  intros Hne Hd.
  destruct (layoutC4Diagram_returns dagre_layout diagram laid Hne Hd) as [out Hout].
  exists out. split; [exact Hout |].
  apply layoutC4Diagram_inr in Hout
    as [[He _] | (_ & laid' & pes & prs & Hd' & Hpes & _ & ->)]; [contradiction |].
  rewrite Hd in Hd'. injection Hd' as <-. cbn [C4Layout.pd_elements].
  apply mapM_Some in Hpes.
  eapply Forall2_impl_In; [exact Hpes |].
  intros e pe Hin Hpe. apply (positionElement_spec diagram laid e pe Hin Hpe).
Qed.

Lemma X1_c4_elements_keep_order_and_fields_witness :
  exists out,
    C4Layout.layoutC4Diagram (dagreLeaves laidTwo) twice = inr out
    /\ length (C4Layout.dg_elements twice) = length (C4Layout.pd_elements out).
Proof.
  destruct (X1_c4_elements_keep_order_and_fields (dagreLeaves laidTwo) twice laidTwo)
    as (out & Hout & HF); [discriminate | reflexivity |].
  exists out. split; [exact Hout | exact (Forall2_length _ _ _ HF)].
Defined.

(** ** The canvas of a C4 result *)

(** X2: when dagre returns, the canvas of the C4 result is at least what
    dagre reports for the graph (600 x 400 where dagre reports nothing)
    and reaches 40 px beyond the right and the bottom edge of every
    boundary, nested ones included; it is no larger than that: width and
    height are each attained by dagre's value or by a boundary; without
    boundaries the canvas is dagre's. *)
Theorem X2_c4_canvas_is_the_largest_extent
    (dagre_layout : Graph C4Layout.Size C4Layout.C4EdgeLabel -> string + Laid)
    (diagram : C4Layout.C4Diagram) (laid : Laid)
    (out : C4Layout.PositionedC4Diagram) :
  C4Layout.dg_elements diagram <> [] ->
  dagre_layout (C4Layout.buildGraph diagram) = inr laid ->
  C4Layout.layoutC4Diagram dagre_layout diagram = inr out ->
  let all := C4Layout.flattenBoundaries (C4Layout.pd_boundaries out) in
  orElse (laidWidth laid) 600 <= C4Layout.pd_width out
  /\ orElse (laidHeight laid) 400 <= C4Layout.pd_height out
  /\ (forall b, In b all ->
        C4Layout.pb_x b + C4Layout.pb_width b + 40 <= C4Layout.pd_width out
        /\ C4Layout.pb_y b + C4Layout.pb_height b + 40 <= C4Layout.pd_height out)
  /\ (C4Layout.pd_width out == orElse (laidWidth laid) 600
      \/ exists b, In b all
                   /\ C4Layout.pd_width out == C4Layout.pb_x b + C4Layout.pb_width b + 40)
  /\ (C4Layout.pd_height out == orElse (laidHeight laid) 400
      \/ exists b, In b all
                   /\ C4Layout.pd_height out == C4Layout.pb_y b + C4Layout.pb_height b + 40)
  /\ (C4Layout.dg_boundaries diagram = [] ->
      C4Layout.pd_width out = orElse (laidWidth laid) 600
      /\ C4Layout.pd_height out = orElse (laidHeight laid) 400).
Proof.
  intros Hne Hd Hout all. subst all.
  apply layoutC4Diagram_inr in Hout
    as [[He _] | (_ & laid' & pes & prs & Hd' & _ & _ & ->)]; [contradiction |].
  rewrite Hd in Hd'. injection Hd' as <-.
  cbn [C4Layout.pd_boundaries C4Layout.pd_width C4Layout.pd_height].
  unfold C4Layout.canvasWidth, C4Layout.canvasHeight.
  set (bs := C4Layout.flattenBoundaries _).
  repeat apply conj.
  - apply (fold_max_ge_seed
             (fun b => C4Layout.pb_x b + C4Layout.pb_width b + C4.padding)).
  - apply (fold_max_ge_seed
             (fun b => C4Layout.pb_y b + C4Layout.pb_height b + C4.padding)).
  - intros b Hb. split.
    + apply (fold_max_ge_elem
               (fun b => C4Layout.pb_x b + C4Layout.pb_width b + C4.padding)), Hb.
    + apply (fold_max_ge_elem
               (fun b => C4Layout.pb_y b + C4Layout.pb_height b + C4.padding)), Hb.
  - apply (fold_max_attained
             (fun b => C4Layout.pb_x b + C4Layout.pb_width b + C4.padding)).
  - apply (fold_max_attained
             (fun b => C4Layout.pb_y b + C4Layout.pb_height b + C4.padding)).
  - intros Hb. subst bs. rewrite Hb. split; reflexivity.
Qed.

Lemma X2_c4_canvas_is_the_largest_extent_witness :
  orElse (laidWidth laidOneBox) 600
  <= C4Layout.pd_width
       (c4Result (C4Layout.layoutC4Diagram (dagreLeaves laidOneBox) oneBoxed)).
Proof.
  destruct (X2_c4_canvas_is_the_largest_extent (dagreLeaves laidOneBox) oneBoxed
              laidOneBox
              (c4Result (C4Layout.layoutC4Diagram (dagreLeaves laidOneBox) oneBoxed)))
    as (H & _); [discriminate | reflexivity | vm_compute; reflexivity | exact H].
Defined.

(** ** The tree of boundaries *)

Section BoundaryTree.
Import C4Layout.

Variable elementLookup : gmap string PositionedC4Element.

Lemma layoutBoundary_fields b :
  pb_alias (layoutBoundary elementLookup b) = b_alias b
  /\ pb_label (layoutBoundary elementLookup b) = b_label b
  /\ pb_kind (layoutBoundary elementLookup b) = b_kind b.
Proof.
  destruct b as [alias label kind elements cs parent]. cbn [layoutBoundary].
  destruct (collectRects _ _ _); repeat split.
Qed.

Lemma flattenBoundary_unfold pb :
  flattenBoundary pb = pb :: concat (map flattenBoundary (pb_children pb)).
Proof. destruct pb. reflexivity. Qed.

Lemma allBoundaries_unfold b :
  allBoundaries b = b :: concat (map allBoundaries (b_childBoundaries b)).
Proof. destruct b. reflexivity. Qed.

(** The boundaries of a laid-out tree, root first, are the laid-out
    boundaries of the tree, root first. *)
Lemma flattenBoundary_preorder b :
  flattenBoundary (layoutBoundary elementLookup b)
  = map (layoutBoundary elementLookup) (allBoundaries b).
Proof.
  induction b as [alias label kind elements cs parent IH] using C4Boundary_tree_ind.
  rewrite flattenBoundary_unfold, allBoundaries_unfold, layoutBoundary_children.
  cbn [b_childBoundaries map]. f_equal.
  unfold layoutBoundaries. rewrite concat_map, !map_map. f_equal.
  induction IH as [| c cs' Hc _ IHcs]; [reflexivity |].
  cbn [map]. rewrite Hc, IHcs. reflexivity.
Qed.

Lemma flattenBoundaries_preorder boundaries :
  flattenBoundaries (layoutBoundaries boundaries elementLookup)
  = map (layoutBoundary elementLookup) (concat (map allBoundaries boundaries)).
Proof.
  unfold flattenBoundaries, layoutBoundaries.
  rewrite concat_map, !map_map. f_equal. apply map_ext.
  intros b. apply flattenBoundary_preorder.
Qed.

End BoundaryTree.

(** X3: the boundaries of a C4 result mirror the boundaries of the
    diagram: listed root first, they have the aliases, the labels and the
    kinds of the diagram's boundaries listed root first, and as many
    children each.  A diagram without elements loses its boundaries. *)
Theorem X3_c4_boundaries_mirror_the_diagram
    (dagre_layout : Graph C4Layout.Size C4Layout.C4EdgeLabel -> string + Laid)
    (diagram : C4Layout.C4Diagram) (out : C4Layout.PositionedC4Diagram) :
  C4Layout.layoutC4Diagram dagre_layout diagram = inr out ->
  let given := concat (map allBoundaries (C4Layout.dg_boundaries diagram)) in
  let drawn := C4Layout.flattenBoundaries (C4Layout.pd_boundaries out) in
  (C4Layout.dg_elements diagram = [] -> C4Layout.pd_boundaries out = [])
  /\ (C4Layout.dg_elements diagram <> [] ->
      map pb_alias drawn = map b_alias given
      /\ map pb_label drawn = map b_label given
      /\ map pb_kind drawn = map b_kind given
      /\ map (fun b => length (C4Layout.pb_children b)) drawn
         = map (fun b => length (C4Layout.b_childBoundaries b)) given).
Proof.
  intros Hout given drawn. subst given drawn.
  apply layoutC4Diagram_inr in Hout
    as [[He ->] | (Hne & laid & pes & prs & _ & _ & _ & ->)];
    cbn [C4Layout.pd_boundaries].
  - split; [reflexivity | intros Hne; contradiction].
  - split; [intros He; contradiction | intros _].
    rewrite flattenBoundaries_preorder, !map_map.
    repeat split; apply map_ext; intros b.
    + apply layoutBoundary_fields.
    + apply layoutBoundary_fields.
    + apply layoutBoundary_fields.
    + rewrite layoutBoundary_children. unfold C4Layout.layoutBoundaries.
      apply length_map.
Qed.

Lemma X3_c4_boundaries_mirror_the_diagram_witness :
  map pb_alias
    (C4Layout.flattenBoundaries
       (C4Layout.pd_boundaries
          (c4Result (C4Layout.layoutC4Diagram (dagreLeaves laidOneBox) oneBoxed))))
  = map b_alias (concat (map allBoundaries (C4Layout.dg_boundaries oneBoxed))).
Proof.
  destruct (X3_c4_boundaries_mirror_the_diagram (dagreLeaves laidOneBox) oneBoxed
              (c4Result (C4Layout.layoutC4Diagram (dagreLeaves laidOneBox) oneBoxed)))
    as (_ & H); [vm_compute; reflexivity |].
  destruct H as (H & _); [discriminate | exact H].
Defined.

(** X4: a boundary without a positioned element and without a child
    boundary is the 160 x 80 placeholder at the origin.  Any other
    boundary is exactly the padded bounding box of its rectangles: one of
    them lies 30 px from its left edge, one 30 px from its right edge,
    one 30 + 28 px from its top edge and one 30 px from its bottom
    edge. *)
Theorem X4_c4_boundary_is_the_padded_bounding_box
    (elementLookup : gmap string C4Layout.PositionedC4Element)
    (boundary : C4Layout.C4Boundary) :
  let rects := C4Layout.collectRects elementLookup (C4Layout.b_elements boundary)
                 (C4Layout.layoutBoundaries (C4Layout.b_childBoundaries boundary)
                                            elementLookup) in
  let b := C4Layout.layoutBoundary elementLookup boundary in
  (rects = [] ->
   C4Layout.pb_x b = 0 /\ C4Layout.pb_y b = 0
   /\ C4Layout.pb_width b = 160 /\ C4Layout.pb_height b = 80)
  /\ (rects <> [] ->
      (exists r, In r rects /\ C4Layout.r_x r == C4Layout.pb_x b + 30)
      /\ (exists r, In r rects
                    /\ C4Layout.r_right r + 30 == C4Layout.pb_x b + C4Layout.pb_width b)
      /\ (exists r, In r rects /\ C4Layout.r_y r == C4Layout.pb_y b + 30 + 28)
      /\ (exists r, In r rects
                    /\ C4Layout.r_bottom r + 30
                       == C4Layout.pb_y b + C4Layout.pb_height b)).
Proof.
  destruct boundary as [alias label kind elements cs parent].
  cbn [C4Layout.layoutBoundary C4Layout.b_elements C4Layout.b_childBoundaries].
  unfold C4Layout.layoutBoundaries.
  destruct (C4Layout.collectRects _ _ _) as [| rect0 rects] eqn:Hr; cbn zeta.
  - split; [intros _; repeat split | intros H; contradiction].
  - split; [discriminate | intros _].
    cbn [C4Layout.pb_x C4Layout.pb_y C4Layout.pb_width C4Layout.pb_height].
    unfold C4.boundaryPadding, C4.boundaryHeaderHeight.
    repeat apply conj.
    + destruct (fold_min_attained C4Layout.r_x rects (C4Layout.r_x rect0))
        as [H | (r & Hin & H)];
        [exists rect0 | exists r]; (split; [auto using in_eq, in_cons | lra]).
    + destruct (fold_max_attained C4Layout.r_right rects (C4Layout.r_right rect0))
        as [H | (r & Hin & H)];
        [exists rect0 | exists r]; (split; [auto using in_eq, in_cons | lra]).
    + destruct (fold_min_attained C4Layout.r_y rects (C4Layout.r_y rect0))
        as [H | (r & Hin & H)];
        [exists rect0 | exists r]; (split; [auto using in_eq, in_cons | lra]).
    + destruct (fold_max_attained C4Layout.r_bottom rects (C4Layout.r_bottom rect0))
        as [H | (r & Hin & H)];
        [exists rect0 | exists r]; (split; [auto using in_eq, in_cons | lra]).
Qed.

(** ** The size of a C4 box *)

Lemma fold_Qmax_ge_member (xs : list Q) (a x : Q) :
  In x xs -> x <= fold_left Qmax xs a.
Proof. exact (fold_max_ge_elem (fun x => x) xs a x). Qed.

(** X5: a C4 box is at least 160 wide and 80 tall, and the box of an
    element that is not a Person is wide enough for each of its lines of
    text (label, bracketed technology, description) with 16 px on either
    side. *)
Theorem X5_c4_box_holds_its_text (element : C4Layout.C4Element) :
  160 <= C4Layout.sz_width (C4Layout.calculateElementSize element)
  /\ 80 <= C4Layout.sz_height (C4Layout.calculateElementSize element)
  /\ (C4Layout.el_kind element <> C4Layout.Person ->
      forall line, In line (claimedLines element) ->
        lineWidth line + 16 + 16
        <= C4Layout.sz_width (C4Layout.calculateElementSize element)).
Proof.
  unfold C4Layout.calculateElementSize.
  destruct (C4Layout.isPerson (C4Layout.el_kind element)) eqn:Hp.
  - cbn. repeat split; try discriminate.
    intros Hk. destruct (C4Layout.el_kind element); try discriminate. contradiction.
  - cbn [C4Layout.sz_width C4Layout.sz_height].
    split; [apply Q.le_max_l |]. split; [apply Q.le_max_l |].
    intros _ line Hin. unfold claimedLines in Hin.
    eapply Qle_trans; [| apply Q.le_max_r].
    unfold C4.boxPadX.
    assert (Hfit : forall m, lineWidth line <= m -> lineWidth line + 16 + 16 <= m + 16 * 2)
      by (intros m Hm; lra).
    apply Hfit. clear Hfit.
    destruct (C4Layout.truthy (C4Layout.el_technology element)) as [technology |];
      destruct (C4Layout.truthy (C4Layout.el_description element)) as [description |];
      cbn [app In] in Hin;
      repeat (destruct Hin as [<- | Hin]; [unfold lineWidth; cbn [fst snd] |]);
      try destruct Hin;
      repeat first
        [ apply Qle_refl
        | apply Q.le_max_r
        | (eapply Qle_trans; [| apply Q.le_max_l]) ].
Qed.

(** ** More on text widths *)

Section TextWidths.

Lemma trail_not_lead d : isTrailSurrogate d = true -> isLeadSurrogate d = false.
Proof.
  unfold isTrailSurrogate, isLeadSurrogate, in_range.
  intros H. apply andb_true_iff in H as [H1 _]. apply Z.leb_le in H1.
  apply andb_false_iff. right. apply Z.leb_gt. lia.
Qed.

Lemma trail_one_column d : isTrailSurrogate d = true -> charColumns [d] = 1%Z.
Proof.
  unfold isTrailSurrogate, in_range. intros H.
  apply andb_true_iff in H as [H1 H2]. apply Z.leb_le in H1. apply Z.leb_le in H2.
  unfold charColumns, isFullWidth, charCodeAt0, in_range.
  replace (_ || _) with false; [reflexivity |].
  symmetry. repeat (apply orb_false_iff; split);
    apply andb_false_iff;
    first [ left; apply Z.leb_gt; lia | right; apply Z.leb_gt; lia ].
Qed.

Lemma lead_one_column c : isLeadSurrogate c = true -> charColumns [c] = 1%Z.
Proof.
  unfold isLeadSurrogate, in_range. intros H.
  apply andb_true_iff in H as [H1 H2]. apply Z.leb_le in H1. apply Z.leb_le in H2.
  unfold charColumns, isFullWidth, charCodeAt0, in_range.
  replace (_ || _) with false; [reflexivity |].
  symmetry. repeat (apply orb_false_iff; split);
    apply andb_false_iff;
    first [ left; apply Z.leb_gt; lia | right; apply Z.leb_gt; lia ].
Qed.

(** A trail surrogate at the head of a text is an item of its own. *)
Lemma getDisplayWidth_trail d rest :
  isTrailSurrogate d = true ->
  getDisplayWidth (d :: rest) = (1 + getDisplayWidth rest)%Z.
Proof.
  intros Hd. destruct rest as [| e rest].
  - rewrite getDisplayWidth_one, getDisplayWidth_nil, (trail_one_column d Hd). reflexivity.
  - rewrite getDisplayWidth_two, (trail_not_lead d Hd), (trail_one_column d Hd).
    reflexivity.
Qed.

Lemma endsWithLead_cons c d rest :
  endsWithLead (c :: d :: rest) = endsWithLead (d :: rest).
Proof. unfold endsWithLead. rewrite last_cons_cons. reflexivity. Qed.

Lemma getDisplayWidth_app (text : jsstring) : forall more : jsstring,
  getDisplayWidth (text ++ more)
  = (getDisplayWidth text + getDisplayWidth more
     - (if endsWithLead text && startsWithTrail more then 1 else 0))%Z.
Proof.
  induction text as [| c | c d rest IH1 IH2] using jsstring_pair_ind; intros more.
  - cbn [List.app endsWithLead last andb]. rewrite getDisplayWidth_nil. lia.
  - cbn [List.app]. unfold endsWithLead. cbn [last].
    rewrite getDisplayWidth_one.
    destruct more as [| d more]; cbn [startsWithTrail].
    + rewrite andb_false_r, getDisplayWidth_one, getDisplayWidth_nil. lia.
    + rewrite getDisplayWidth_two, (charColumns_head c [d]).
      destruct (isLeadSurrogate c) eqn:Hc; destruct (isTrailSurrogate d) eqn:Hd;
        cbn [andb]; try lia.
      rewrite (getDisplayWidth_trail d more Hd). lia.
  - cbn [List.app]. rewrite !getDisplayWidth_two, endsWithLead_cons.
    destruct (isLeadSurrogate c && isTrailSurrogate d) eqn:Hp.
    + rewrite IH1. apply andb_true_iff in Hp as [_ Hd].
      destruct rest as [| e rest].
      * unfold endsWithLead. cbn [last]. rewrite (trail_not_lead d Hd). cbn [andb]. lia.
      * rewrite endsWithLead_cons. lia.
    + specialize (IH2 more). cbn [List.app] in IH2. rewrite IH2. lia.
Qed.

End TextWidths.

(** X6: for a font size that is not negative, the estimate for
    monospace text is never below the estimate for proportional text, at
    any weight, and both are 0 for the empty text. *)
Theorem X6_mono_estimate_is_the_widest (text : jsstring) (fontSize fontWeight : Q) :
  0 <= fontSize ->
  estimateTextWidth text fontSize fontWeight <= estimateMonoTextWidth text fontSize
  /\ estimateMonoTextWidth [] fontSize == 0
  /\ 0 <= estimateMonoTextWidth text fontSize.
Proof.
  intros Hs. unfold estimateTextWidth, estimateMonoTextWidth.
  pose proof (getDisplayWidth_nonneg text) as H0. rewrite Zle_Qle in H0.
  assert (Hk : 0 <= inject_Z (getDisplayWidth text) * fontSize)
    by (apply Qmult_le_0_compat; auto).
  repeat apply conj.
  - rewrite !(Qmult_comm (inject_Z (getDisplayWidth text) * fontSize)).
    apply Qmult_le_compat_r; [| exact Hk].
    destruct (widthRatio_values fontWeight) as [-> | [-> | ->]]; discriminate.
  - rewrite getDisplayWidth_nil. ring.
  - apply Qmult_le_0_compat; [exact Hk | discriminate].
Qed.

Lemma X6_mono_estimate_is_the_widest_witness :
  estimateTextWidth textAPI 13 600 <= estimateMonoTextWidth textAPI 13.
Proof.
  destruct (X6_mono_estimate_is_the_widest textAPI 13 600) as (H & _);
    [discriminate | exact H].
Defined.

(** X7: the columns of a concatenation are the columns of the two texts
    added up, less one when the seam joins a lead surrogate at the end of
    the first to a trail surrogate at the start of the second: the two
    halves counted one column each and the pair counts one. *)
Theorem X7_getDisplayWidth_of_a_concatenation (text more : jsstring) :
  getDisplayWidth (text ++ more)
  = (getDisplayWidth text + getDisplayWidth more
     - (if endsWithLead text && startsWithTrail more then 1 else 0))%Z.
Proof. apply getDisplayWidth_app. Qed.

(** ** The elements and the bands of an ArchiMate result *)

Section ArchiMateElements.
Import ArchiMateLayout.

Lemma archi_node_addLayerEdges diagram lowerLayers : forall upperLayer (g : Gr) u,
  node (addLayerEdges diagram upperLayer lowerLayers g) u = node g u.
Proof.
  induction lowerLayers as [| lower rest IH]; intros upper g u; cbn [addLayerEdges];
    [reflexivity |].
  rewrite IH.
  destruct (layerElements diagram upper) as [| u0 ?]; [reflexivity |].
  destruct (layerElements diagram lower) as [| l0 ?]; [reflexivity |].
  apply node_setEdge.
Qed.

Lemma archi_node_addRelationships elements rels : forall i (g : Gr) u,
  node (addRelationships elements rels i g) u = node g u.
Proof.
  induction rels as [| rel rest IH]; intros i g u; cbn [addRelationships];
    [reflexivity |].
  rewrite IH.
  destruct (has elements (rel_source rel) && has elements (rel_target rel));
    [apply node_setEdge | reflexivity].
Qed.

Lemma archi_node_addElements elements : forall (g : Gr) entry,
  NoDup (map fst elements) -> In entry elements ->
  node (addElements elements g) (fst entry)
  = Some (mkNodeLabel (fst (elementSize (snd entry))) (snd (elementSize (snd entry)))
                      (el_layer (snd entry))).
Proof.
  unfold addElements.
  induction elements as [| x l IH] using rev_ind; intros g entry Hnd Hin;
    [destruct Hin |].
  rewrite fold_left_app. cbn [fold_left]. rewrite node_setNode.
  rewrite map_app in Hnd. apply NoDup_app in Hnd as (Hnd & Hd & _).
  apply in_app_or in Hin as [Hin | [-> | []]].
  - destruct (decide (fst x = fst entry)) as [Heq | Hne]; [| apply IH; assumption].
    exfalso. apply (Hd (fst entry)).
    + apply list_elem_of_In, in_map, Hin.
    + cbn [map]. rewrite Heq. apply list_elem_of_here.
  - rewrite decide_True by reflexivity. reflexivity.
Qed.

(** Every entry of [elements] has its labelled node in the graph. *)
Lemma archi_buildGraph_node diagram entry :
  NoDup (map fst (dg_elements diagram)) -> In entry (dg_elements diagram) ->
  node (buildGraph diagram) (fst entry)
  = Some (mkNodeLabel (fst (elementSize (snd entry))) (snd (elementSize (snd entry)))
                      (el_layer (snd entry))).
Proof.
  intros Hnd Hin. unfold buildGraph. rewrite archi_node_addRelationships.
  unfold orderLayers. destruct (presentLayers diagram) as [| first rest].
  - apply archi_node_addElements; assumption.
  - rewrite archi_node_addLayerEdges. apply archi_node_addElements; assumption.
Qed.

Lemma omap_all_Some {A B} (f : A -> option B) (P : A -> B -> Prop) (l : list A) :
  (forall x, In x l -> exists y, f x = Some y /\ P x y) ->
  Forall2 P l (omap f l).
Proof.
  induction l as [| x l IH]; intros H; [constructor |].
  destruct (H x (or_introl eq_refl)) as (y & Hy & HP).
  cbn. rewrite Hy. constructor; [exact HP |].
  apply IH. intros x' Hx'. apply H. right. exact Hx'.
Qed.

Lemma elementSize_bounds element :
  120 <= fst (elementSize element)
  /\ estimateTextWidth (el_label element) FONT_SIZES_nodeLabel FONT_WEIGHTS_nodeLabel + 24
     <= fst (elementSize element)
  /\ snd (elementSize element) = 50.
Proof.
  unfold elementSize. cbn [fst snd]. repeat split.
  - eapply Qle_trans; [apply Q.le_max_l |]. eapply Qle_trans; [| apply Q.le_max_l].
    apply Qle_refl.
  - eapply Qle_trans; [apply Q.le_max_r |]. apply Q.le_max_l.
Qed.

End ArchiMateElements.

(** X8: when the entries of [elements] have distinct keys, as those of a
    map have, and dagre returns, the ArchiMate result lists one
    positioned element per entry, in the order of the map, none skipped,
    with the entry's key as id and the element's label, type and layer;
    its box is 50 tall and at least 120 wide and at least the estimated
    label width plus 24. *)
Theorem X8_archimate_elements_keep_order_and_fields
    (dagre_layout : ArchiMateLayout.Gr -> string + Laid)
    (diagram : ArchiMateLayout.ArchiMateDiagram) (laid : Laid) :
  NoDup (map fst (ArchiMateLayout.dg_elements diagram)) ->
  ArchiMateLayout.dg_elements diagram <> [] ->
  dagre_layout (ArchiMateLayout.buildGraph diagram) = inr laid ->
  exists out,
    ArchiMateLayout.layoutArchiMateDiagram dagre_layout diagram = inr out
    /\ Forall2
         (fun entry pos =>
            positionedEntry entry pos
            /\ ArchiMateLayout.pe_height pos = 50
            /\ 120 <= ArchiMateLayout.pe_width pos
            /\ estimateTextWidth (ArchiMateLayout.el_label (snd entry))
                 FONT_SIZES_nodeLabel FONT_WEIGHTS_nodeLabel + 24
               <= ArchiMateLayout.pe_width pos)
         (ArchiMateLayout.dg_elements diagram) (ArchiMateLayout.pd_elements out).
Proof.
  intros Hnd Hne Hd.
  destruct (layoutArchiMateDiagram_returns dagre_layout diagram laid Hne Hd)
    as [out Hout].
  exists out. split; [exact Hout |].
  apply layoutArchiMateDiagram_inr in Hout
    as [[He _] | (_ & laid' & rs & Hd' & _ & ->)]; [contradiction |].
  rewrite Hd in Hd'. injection Hd' as <-. cbn [ArchiMateLayout.pd_elements].
  apply omap_all_Some. intros entry Hin.
  unfold ArchiMateLayout.positionElement.
  rewrite (archi_buildGraph_node diagram entry Hnd Hin). cbn.
  eexists. split; [reflexivity |].
  destruct (elementSize_bounds (snd entry)) as (H1 & H2 & H3).
  unfold positionedEntry. cbn.
  repeat split; auto.
Qed.

Lemma X8_archimate_elements_keep_order_and_fields_witness :
  exists out,
    ArchiMateLayout.layoutArchiMateDiagram (dagreLeaves laidLayered) layered = inr out
    /\ length (ArchiMateLayout.dg_elements layered)
       = length (ArchiMateLayout.pd_elements out).
Proof.
  destruct (X8_archimate_elements_keep_order_and_fields
              (dagreLeaves laidLayered) layered laidLayered)
    as (out & Hout & HF); [| discriminate | reflexivity |].
  - cbn. apply NoDup_cons. split; [| apply NoDup_singleton].
    intros H. apply list_elem_of_singleton in H. discriminate H.
  - exists out. split; [exact Hout | exact (Forall2_length _ _ _ HF)].
Defined.

Section ArchiMateBands.
Import ArchiMateLayout.

Lemma filter_nil_existsb {A} (p : A -> bool) (l : list A) :
  List.filter p l = [] <-> existsb p l = false.
Proof.
  induction l as [| x l IH]; cbn; [tauto |].
  destruct (p x); cbn; [split; discriminate | exact IH].
Qed.

(** The band of one layer, before the widths are aligned. *)
Lemma layerBand_spec pes layer :
  match layerBand pes layer with
  | None => populated pes layer = false
  | Some band =>
      pl_name band = layer /\ populated pes layer = true
      /\ forall e, In e pes -> pe_layer e = layer -> insideBand e band
  end.
Proof.
  unfold layerBand, populated.
  destruct (List.filter _ pes) as [| el0 els] eqn:Hf.
  - apply filter_nil_existsb, Hf.
  - split; [reflexivity |]. split.
    + destruct (existsb _ pes) eqn:Hex; [reflexivity |].
      apply filter_nil_existsb in Hex. rewrite Hex in Hf. discriminate.
    + intros e Hin Hl.
      assert (Hin' : In e (el0 :: els)).
      { rewrite <- Hf. apply filter_In. split; [exact Hin |].
        apply bool_decide_eq_true, Hl. }
      unfold insideBand. cbn [pl_x pl_y pl_width pl_height].
      unfold ARCHIMATE.layerPadding, ARCHIMATE.layerLabelHeight.
      assert (Hx : fold_left (fun m el => Qmin m (pe_x el)) els (pe_x el0) <= pe_x e)
        by (destruct Hin' as [<- | Hin'];
            [apply fold_min_le_seed | apply (fold_min_le_elem pe_x), Hin']).
      assert (Hy : fold_left (fun m el => Qmin m (pe_y el)) els (pe_y el0) <= pe_y e)
        by (destruct Hin' as [<- | Hin'];
            [apply fold_min_le_seed | apply (fold_min_le_elem pe_y), Hin']).
      assert (Hr : pe_x e + pe_width e
                   <= fold_left (fun m el => Qmax m (pe_x el + pe_width el)) els
                                (pe_x el0 + pe_width el0))
        by (destruct Hin' as [<- | Hin'];
            [apply fold_max_ge_seed
            | apply (fold_max_ge_elem (fun el => pe_x el + pe_width el)), Hin']).
      assert (Hb : pe_y e + pe_height e
                   <= fold_left (fun m el => Qmax m (pe_y el + pe_height el)) els
                                (pe_y el0 + pe_height el0))
        by (destruct Hin' as [<- | Hin'];
            [apply fold_max_ge_seed
            | apply (fold_max_ge_elem (fun el => pe_y el + pe_height el)), Hin']).
      repeat split; lra.
Qed.

Lemma layerBands_names pes layers :
  map pl_name (layerBands layers pes) = List.filter (populated pes) layers.
Proof.
  unfold layerBands. induction layers as [| layer layers IH]; [reflexivity |].
  cbn [omap list_omap List.filter]. fold (omap (layerBand pes) layers).
  pose proof (layerBand_spec pes layer) as H.
  destruct (layerBand pes layer) as [band |].
  - destruct H as (Hn & -> & _). cbn [map]. rewrite Hn, IH. reflexivity.
  - rewrite H. exact IH.
Qed.

Lemma presentLayers_listed diagram :
  presentLayers diagram = List.filter (listed diagram) LAYER_ORDER.
Proof.
  unfold presentLayers. apply filter_ext. intros layer. unfold listed.
  destruct (dg_layers diagram layer) as [[| ? ?] |]; reflexivity.
Qed.

Lemma filter_filter {A} (p q : A -> bool) (l : list A) :
  List.filter q (List.filter p l) = List.filter (fun x => p x && q x) l.
Proof.
  induction l as [| x l IH]; [reflexivity |].
  cbn [List.filter]. destruct (p x); cbn [andb List.filter]; [| exact IH].
  destruct (q x); rewrite IH; reflexivity.
Qed.

(** Aligning the bands keeps each one's name, y and height. *)
Lemma normalizeLayers_member bands band :
  In band bands ->
  exists l, In l (normalizeLayers bands)
            /\ pl_name l = pl_name band /\ pl_y l = pl_y band
            /\ pl_height l = pl_height band.
Proof.
  destruct bands as [| l0 ls]; [intros [] |].
  intros Hin. unfold normalizeLayers.
  eexists. split; [apply in_map_iff; eexists; split; [reflexivity | exact Hin] |].
  repeat split.
Qed.

End ArchiMateBands.

(** X9: in an ArchiMate result every element whose layer is listed, with
    at least one element, in [layers] lies inside the band named for its
    layer, at least 20 away from the band's left, right and bottom side
    and 44 from its top; an element whose layer is not listed has no band
    of its name. *)
Theorem X9_archimate_band_holds_its_elements
    (dagre_layout : ArchiMateLayout.Gr -> string + Laid)
    (diagram : ArchiMateLayout.ArchiMateDiagram)
    (out : ArchiMateLayout.PositionedArchiMateDiagram) :
  ArchiMateLayout.layoutArchiMateDiagram dagre_layout diagram = inr out ->
  forall e, In e (ArchiMateLayout.pd_elements out) ->
    if listed diagram (ArchiMateLayout.pe_layer e)
    then exists band,
           In band (ArchiMateLayout.pd_layers out)
           /\ ArchiMateLayout.pl_name band = ArchiMateLayout.pe_layer e
           /\ insideBand e band
    else forall band, In band (ArchiMateLayout.pd_layers out) ->
           ArchiMateLayout.pl_name band <> ArchiMateLayout.pe_layer e.
Proof.
  intros H e He.
  rewrite (pd_layers_normalized dagre_layout diagram out H).
  set (pes := ArchiMateLayout.pd_elements out) in *.
  set (bands := ArchiMateLayout.layerBands (ArchiMateLayout.presentLayers diagram) pes).
  destruct (listed diagram (ArchiMateLayout.pe_layer e)) eqn:Hl.
  - assert (Hp : In (ArchiMateLayout.pe_layer e) (ArchiMateLayout.presentLayers diagram)).
    { rewrite presentLayers_listed. apply filter_In. split; [| exact Hl].
      destruct (ArchiMateLayout.pe_layer e); cbn; tauto. }
    pose proof (layerBand_spec pes (ArchiMateLayout.pe_layer e)) as Hs.
    destruct (ArchiMateLayout.layerBand pes (ArchiMateLayout.pe_layer e))
      as [band |] eqn:Hb.
    + destruct Hs as (Hn & _ & Hin).
      assert (Hband : In band bands).
      { apply list_elem_of_In, list_elem_of_omap.
        exists (ArchiMateLayout.pe_layer e).
        split; [apply list_elem_of_In, Hp | exact Hb]. }
      destruct (normalizeLayers_member bands band Hband) as (l & Hlin & Hln & Hly & Hlh).
      destruct (normalizeLayers_covers bands l band Hlin Hband) as (Hx & Hr).
      exists l. split; [exact Hlin |]. split; [congruence |].
      specialize (Hin e He eq_refl). unfold insideBand in *.
      rewrite Hly, Hlh. destruct Hin as (H1 & H2 & H3 & H4).
      repeat split; try assumption; lra.
    + exfalso. unfold populated in Hs.
      apply filter_nil_existsb in Hs.
      assert (Hin : In e (List.filter
                            (fun e0 => bool_decide (ArchiMateLayout.pe_layer e0
                                                    = ArchiMateLayout.pe_layer e)) pes)).
      { apply filter_In. split; [exact He | apply bool_decide_eq_true; reflexivity]. }
      rewrite Hs in Hin. destruct Hin.
  - intros band Hband Hname.
    assert (Hnames : In (ArchiMateLayout.pe_layer e)
                        (map ArchiMateLayout.pl_name
                           (ArchiMateLayout.normalizeLayers bands))).
    { rewrite <- Hname. apply in_map, Hband. }
    destruct (normalizeLayers_names bands) as (Hn & _). rewrite Hn in Hnames.
    unfold bands in Hnames. rewrite layerBands_names, presentLayers_listed in Hnames.
    apply filter_In in Hnames as (Hnames & _).
    apply filter_In in Hnames as (_ & Hlisted). congruence.
Qed.

Lemma X9_archimate_band_holds_its_elements_witness :
  exists e band,
    In e (ArchiMateLayout.pd_elements
            (archiMateResult
               (ArchiMateLayout.layoutArchiMateDiagram (dagreLeaves laidLayered) layered)))
    /\ In band (ArchiMateLayout.pd_layers
                  (archiMateResult
                     (ArchiMateLayout.layoutArchiMateDiagram
                        (dagreLeaves laidLayered) layered)))
    /\ ArchiMateLayout.pl_name band = ArchiMateLayout.pe_layer e
    /\ insideBand e band.
Proof.
  pose proof (X9_archimate_band_holds_its_elements
                (dagreLeaves laidLayered) layered
                (archiMateResult
                   (ArchiMateLayout.layoutArchiMateDiagram
                      (dagreLeaves laidLayered) layered))
                ltac:(vm_compute; reflexivity)) as H.
  destruct (ArchiMateLayout.pd_elements _) as [| e rest] eqn:E;
    [vm_compute in E; discriminate |].
  specialize (H e (or_introl eq_refl)).
  assert (Hl : listed layered (ArchiMateLayout.pe_layer e) = true)
    by (vm_compute in E; injection E as <- _; reflexivity).
  rewrite Hl in H. destruct H as (band & Hin & Hn & Hi).
  exists e, band. split; [left; reflexivity |]. auto.
Defined.

(** X10: the bands of an ArchiMate result are named, in the canonical
    order of the layers and one band each, for exactly the layers that
    [layers] lists with at least one element and that have a positioned
    element. *)
Theorem X10_archimate_bands_follow_the_layer_order
    (dagre_layout : ArchiMateLayout.Gr -> string + Laid)
    (diagram : ArchiMateLayout.ArchiMateDiagram)
    (out : ArchiMateLayout.PositionedArchiMateDiagram) :
  ArchiMateLayout.layoutArchiMateDiagram dagre_layout diagram = inr out ->
  map ArchiMateLayout.pl_name (ArchiMateLayout.pd_layers out)
  = List.filter (fun layer => listed diagram layer
                              && populated (ArchiMateLayout.pd_elements out) layer)
                ArchiMateLayout.LAYER_ORDER.
Proof.
  intros H. rewrite (pd_layers_normalized dagre_layout diagram out H).
  destruct (normalizeLayers_names
              (ArchiMateLayout.layerBands (ArchiMateLayout.presentLayers diagram)
                 (ArchiMateLayout.pd_elements out))) as (-> & _).
  rewrite layerBands_names, presentLayers_listed. apply filter_filter.
Qed.

Lemma X10_archimate_bands_follow_the_layer_order_witness :
  map ArchiMateLayout.pl_name
    (ArchiMateLayout.pd_layers
       (archiMateResult
          (ArchiMateLayout.layoutArchiMateDiagram (dagreLeaves laidLayered) layered)))
  = [ArchiMateLayout.business; ArchiMateLayout.application].
Proof.
  rewrite (X10_archimate_bands_follow_the_layer_order
             (dagreLeaves laidLayered) layered
             (archiMateResult
                (ArchiMateLayout.layoutArchiMateDiagram (dagreLeaves laidLayered) layered))
             ltac:(vm_compute; reflexivity)).
  vm_compute. reflexivity.
Defined.

(** ** One positioned ArchiMate relationship per ordered pair *)

Section ArchiMatePairs.
Import ArchiMateLayout.

Variable diagram : ArchiMateDiagram.

Lemma addLayerEdges_layerOnly lowerLayers : forall upperLayer (g : Gr),
  (forall e, In e (edgeList g) -> isLayerEdge e = true) ->
  forall e, In e (edgeList (addLayerEdges diagram upperLayer lowerLayers g)) ->
            isLayerEdge e = true.
Proof.
  induction lowerLayers as [| lower rest IH]; intros upper g Hg;
    cbn [addLayerEdges]; [exact Hg |].
  apply IH.
  destruct (layerElements diagram upper) as [| u0 ?]; [exact Hg |].
  destruct (layerElements diagram lower) as [| l0 ?]; [exact Hg |].
  intros [k lbl] Hin. apply In_setEdge_label in Hin as [[_ ->] | Hin];
    [reflexivity | apply Hg, Hin].
Qed.

Lemma addLayerEdges_NoDup lowerLayers : forall upperLayer (g : Gr),
  NoDup (edges g) -> NoDup (edges (addLayerEdges diagram upperLayer lowerLayers g)).
Proof.
  induction lowerLayers as [| lower rest IH]; intros upper g Hg;
    cbn [addLayerEdges]; [exact Hg |].
  apply IH.
  destruct (layerElements diagram upper) as [| u0 ?]; [exact Hg |].
  destruct (layerElements diagram lower) as [| l0 ?]; [exact Hg |].
  apply setEdge_NoDup, Hg.
Qed.

(** Before the relationships are added the graph has ordering edges
    only, one per pair. *)
Lemma orderLayers_edgesOk :
  archiEdgesOk diagram 0
    (edgeList (orderLayers diagram (addElements (dg_elements diagram)
                                      (newGraph graphLabel)))).
Proof.
  set (g0 := addElements (dg_elements diagram) (newGraph graphLabel)).
  assert (E0 : edgeList g0 = []) by apply archi_edgeList_addElements.
  assert (Hnd : NoDup (edges (orderLayers diagram g0))).
  { unfold orderLayers. destruct (presentLayers diagram) as [| first rest].
    - unfold edges. rewrite E0. apply NoDup_nil_2.
    - apply addLayerEdges_NoDup. unfold edges. rewrite E0. apply NoDup_nil_2. }
  assert (Hl : forall e, In e (edgeList (orderLayers diagram g0)) -> isLayerEdge e = true).
  { unfold orderLayers. destruct (presentLayers diagram) as [| first rest].
    - rewrite E0. intros e [].
    - apply addLayerEdges_layerOnly. rewrite E0. intros e []. }
  split; [exact Hnd |]. split.
  - intros k i label w h Hin. apply Hl in Hin. discriminate.
  - intros j rel Hj. lia.
Qed.

Lemma archiEdgesOk_step (g : Gr) n rel :
  plainId (rel_source rel) = true -> plainId (rel_target rel) = true ->
  dg_relationships diagram !! n = Some rel ->
  archiEdgesOk diagram n (edgeList g) ->
  archiEdgesOk diagram (S n)
    (edgeList (if has (dg_elements diagram) (rel_source rel)
                  && has (dg_elements diagram) (rel_target rel)
               then setEdge g (rel_source rel) (rel_target rel) (relationshipLabel n rel)
               else g)).
Proof.
  intros Hv Hw Hn (Hnd & Hlbl & Hcov).
  destruct (relationshipLabel_index n rel) as (l0 & w0 & h0 & Hl0).
  fold (joinsElements diagram rel). destruct (joinsElements diagram rel) eqn:Hj.
  - split; [apply (setEdge_NoDup g), Hnd |]. split.
    + intros k i label w h Hin.
      apply (In_setEdge g _ _ _ _ _ Hv Hw) in Hin as [[-> Heq] | [Hne Hin]].
      * rewrite Hl0 in Heq. injection Heq as -> _ _ _.
        exists rel. repeat split; auto. intros j rel' H1 H2. lia.
      * destruct (Hlbl k i label w h Hin) as (rel0 & H0 & Hlt & Hk & Hj0 & Hafter).
        exists rel0. repeat split; auto.
        intros j rel' H1 H2 Hrel' Hj'.
        destruct (decide (j = n)) as [-> |].
        -- rewrite Hn in Hrel'. injection Hrel' as <-. intros Heq. apply Hne.
           rewrite <- Heq. reflexivity.
        -- apply (Hafter j rel'); auto. lia.
    + intros j rel' Hlt Hrel' Hj'.
      destruct (decide (archiRelKey rel' = (rel_source rel, rel_target rel)))
        as [Heq | Hne].
      * exists n, l0, w0, h0. apply (In_setEdge g _ _ _ _ _ Hv Hw). left.
        split; [exact Heq | auto].
      * assert (Hjn : j <> n).
        { intros ->. rewrite Hn in Hrel'. injection Hrel' as <-. apply Hne. reflexivity. }
        destruct (Hcov j rel' ltac:(lia) Hrel' Hj') as (i & l & w & h & Hin).
        exists i, l, w, h. apply (In_setEdge g _ _ _ _ _ Hv Hw). right.
        split; assumption.
  - split; [exact Hnd |]. split.
    + intros k i label w h Hin.
      destruct (Hlbl k i label w h Hin) as (rel0 & H0 & Hlt & Hk & Hj0 & Hafter).
      exists rel0. repeat split; auto.
      intros j rel' H1 H2 Hrel' Hj'.
      destruct (decide (j = n)) as [-> |].
      * rewrite Hn in Hrel'. injection Hrel' as <-. congruence.
      * apply (Hafter j rel'); auto. lia.
    + intros j rel' Hlt Hrel' Hj'.
      destruct (decide (j = n)) as [-> |].
      * rewrite Hn in Hrel'. injection Hrel' as <-. congruence.
      * apply (Hcov j rel'); auto. lia.
Qed.

Lemma addRelationships_edgesOk rels : forall pre (g : Gr),
  plainArchiEnds rels = true ->
  dg_relationships diagram = pre ++ rels ->
  archiEdgesOk diagram (length pre) (edgeList g) ->
  archiEdgesOk diagram (length (dg_relationships diagram))
    (edgeList (addRelationships (dg_elements diagram) rels (length pre) g)).
Proof.
  induction rels as [| rel rest IH]; intros pre g Hplain Hall Hok;
    cbn [addRelationships].
  - rewrite Hall, app_nil_r. exact Hok.
  - cbn [plainArchiEnds forallb] in Hplain.
    apply andb_true_iff in Hplain as [Hrel Hplain].
    apply andb_true_iff in Hrel as [Hv Hw].
    replace (S (length pre)) with (length (pre ++ [rel]))
      by (rewrite length_app; cbn [length]; lia).
    apply IH; [exact Hplain | rewrite Hall, <- app_assoc; reflexivity |].
    rewrite length_app. cbn [length]. rewrite Nat.add_1_r.
    apply archiEdgesOk_step; [exact Hv | exact Hw | | exact Hok].
    rewrite Hall. apply list_lookup_middle. reflexivity.
Qed.

(** The edges of the graph handed to dagre, when no end point of a
    relationship holds U+0001. *)
Lemma buildGraph_edgesOk :
  plainArchiEnds (dg_relationships diagram) = true ->
  archiEdgesOk diagram (length (dg_relationships diagram))
    (edgeList (buildGraph diagram)).
Proof.
  intros Hplain.
  unfold buildGraph. apply (addRelationships_edgesOk _ []); [exact Hplain | reflexivity |].
  apply orderLayers_edgesOk.
Qed.

Lemma NoDup_keys_label {E} (es : list ((string * string) * E)) k l1 l2 :
  NoDup (map fst es) -> In (k, l1) es -> In (k, l2) es -> l1 = l2.
Proof.
  induction es as [| [k' l'] es IH]; intros Hnd H1 H2; [destruct H1 |].
  cbn [map fst] in Hnd. apply NoDup_cons in Hnd as [Hnotin Hnd].
  rewrite list_elem_of_In in Hnotin.
  destruct H1 as [H1 | H1], H2 as [H2 | H2].
  - congruence.
  - exfalso. apply Hnotin. injection H1 as -> _. apply (in_map fst _ _ H2).
  - exfalso. apply Hnotin. injection H2 as -> _. apply (in_map fst _ _ H1).
  - apply IH; assumption.
Qed.

Variables (g : Gr) (laid : Laid).

Lemma drawnFor_absent es rs k :
  Forall2 (fun e r => extractRelationship diagram g laid e = Some r) es rs ->
  (forall k i label w h, In (k, RelationshipEdge i label w h) es ->
     exists rel, dg_relationships diagram !! i = Some rel /\ archiRelKey rel = k) ->
  ~ In k (map fst es) -> drawnFor k (omap id rs) = [].
Proof.
  induction 1 as [| [k' lbl] r es rs He _ IH]; intros Hlbl Hk; [reflexivity |].
  cbn [map fst In] in Hk.
  assert (IH' : drawnFor k (omap id rs) = []).
  { apply IH; [| tauto]. intros k0 i label w h Hin. apply (Hlbl k0 i label w h).
    right. exact Hin. }
  unfold extractRelationship in He. cbn [snd fst] in He.
  destruct lbl as [minlen weight | i label w h].
  - injection He as <-. exact IH'.
  - destruct (Hlbl k' i label w h (or_introl eq_refl)) as (rel & Hrel & Hkey).
    rewrite Hrel in He. cbn in He. injection He as <-.
    cbn. unfold archiPositionedKey. cbn. fold (archiRelKey rel). rewrite Hkey.
    rewrite bool_decide_eq_false_2 by tauto. exact IH'.
Qed.

Lemma drawnFor_single es rs k i label w h rel :
  Forall2 (fun e r => extractRelationship diagram g laid e = Some r) es rs ->
  (forall k i label w h, In (k, RelationshipEdge i label w h) es ->
     exists rel, dg_relationships diagram !! i = Some rel /\ archiRelKey rel = k) ->
  NoDup (map fst es) ->
  In (k, RelationshipEdge i label w h) es ->
  dg_relationships diagram !! i = Some rel ->
  drawnFor k (omap id rs)
  = [mkPositionedRelationship (rel_source rel) (rel_target rel) (rel_type rel)
       (rel_label rel) (routeEdge g laid k)].
Proof.
  induction 1 as [| [k' lbl] r es rs He HF IH]; intros Hlbl Hnd Hin Hrel;
    [destruct Hin |].
  cbn [map fst] in Hnd. apply NoDup_cons in Hnd as [Hnotin Hnd].
  rewrite list_elem_of_In in Hnotin.
  assert (Hlbl' : forall k i label w h, In (k, RelationshipEdge i label w h) es ->
            exists rel, dg_relationships diagram !! i = Some rel /\ archiRelKey rel = k).
  { intros k0 i0 l0 w0 h0 H0. apply (Hlbl k0 i0 l0 w0 h0). right. exact H0. }
  unfold extractRelationship in He. cbn [snd fst] in He.
  destruct Hin as [[= -> ->] | Hin].
  - rewrite Hrel in He. cbn in He. injection He as <-.
    destruct (Hlbl k i label w h (or_introl eq_refl)) as (rel0 & Hrel0 & Hkey).
    rewrite Hrel in Hrel0. injection Hrel0 as <-.
    cbn. unfold archiPositionedKey. cbn. fold (archiRelKey rel). rewrite Hkey.
    rewrite bool_decide_eq_true_2 by reflexivity.
    f_equal. apply (drawnFor_absent es); assumption.
  - assert (Hne : k' <> k).
    { intros ->. apply Hnotin. apply (in_map fst _ _ Hin). }
    specialize (IH Hlbl' Hnd Hin Hrel).
    destruct lbl as [minlen weight | i' label' w' h'].
    + injection He as <-. exact IH.
    + destruct (Hlbl k' i' label' w' h' (or_introl eq_refl)) as (rel' & Hrel' & Hkey).
      rewrite Hrel' in He. cbn in He. injection He as <-.
      cbn. unfold archiPositionedKey. cbn. fold (archiRelKey rel'). rewrite Hkey.
      rewrite bool_decide_eq_false_2 by exact Hne. exact IH.
Qed.

End ArchiMatePairs.

(** X11: when dagre returns and no end point of a relationship holds
    the character U+0001 (the parser reads end points as words of
    letters, digits and underscores; U+0001 is the delimiter of the edge
    keys of the graph library), each relationship of an ArchiMate diagram
    whose two end points are elements is drawn once per ordered pair of
    end points: the result has exactly one relationship for its pair, with
    the type and label of the last relationship of the diagram that joins
    two elements at that pair, and the graph handed to dagre has no
    ordering edge left at that pair; a pair that no such relationship
    joins has no relationship in the result. *)
Theorem X11_archimate_one_relationship_per_pair
    (dagre_layout : ArchiMateLayout.Gr -> string + Laid)
    (diagram : ArchiMateLayout.ArchiMateDiagram) (laid : Laid) :
  ArchiMateLayout.dg_elements diagram <> [] ->
  plainArchiEnds (ArchiMateLayout.dg_relationships diagram) = true ->
  dagre_layout (ArchiMateLayout.buildGraph diagram) = inr laid ->
  exists out,
    ArchiMateLayout.layoutArchiMateDiagram dagre_layout diagram = inr out
    /\ (forall i rel,
          ArchiMateLayout.dg_relationships diagram !! i = Some rel ->
          joinsElements diagram rel = true ->
          exists last relLast,
            ArchiMateLayout.dg_relationships diagram !! last = Some relLast
            /\ (i <= last)%nat
            /\ joinsElements diagram relLast = true
            /\ archiRelKey relLast = archiRelKey rel
            /\ (forall j rel', (last < j)%nat ->
                  ArchiMateLayout.dg_relationships diagram !! j = Some rel' ->
                  joinsElements diagram rel' = true ->
                  archiRelKey rel' <> archiRelKey rel)
            /\ drawnFor (archiRelKey rel) (ArchiMateLayout.pd_relationships out)
               = [ArchiMateLayout.mkPositionedRelationship
                    (ArchiMateLayout.rel_source relLast)
                    (ArchiMateLayout.rel_target relLast)
                    (ArchiMateLayout.rel_type relLast)
                    (ArchiMateLayout.rel_label relLast)
                    (ArchiMateLayout.routeEdge (ArchiMateLayout.buildGraph diagram)
                       laid (archiRelKey rel))]
            /\ forall minlen weight,
                 ~ In (archiRelKey rel, ArchiMateLayout.LayerEdge minlen weight)
                      (edgeList (ArchiMateLayout.buildGraph diagram)))
    /\ (forall k,
          (forall rel, In rel (ArchiMateLayout.dg_relationships diagram) ->
                       joinsElements diagram rel = true -> archiRelKey rel <> k) ->
          drawnFor k (ArchiMateLayout.pd_relationships out) = []).
Proof.
  intros Hne Hplain Hd.
  destruct (layoutArchiMateDiagram_returns dagre_layout diagram laid Hne Hd)
    as [out Hout].
  exists out. split; [exact Hout |].
  apply layoutArchiMateDiagram_inr in Hout
    as [[He _] | (_ & laid' & rs & Hd' & Hm & ->)]; [contradiction |].
  rewrite Hd in Hd'. injection Hd' as <-.
  cbn [ArchiMateLayout.pd_relationships].
  pose proof (buildGraph_edgesOk diagram Hplain) as (Hnd & Hlbl & Hcov).
  set (g := ArchiMateLayout.buildGraph diagram) in *.
  apply mapM_Some in Hm.
  assert (Hlbl' : forall k i label w h,
            In (k, ArchiMateLayout.RelationshipEdge i label w h) (edgeList g) ->
            exists rel, ArchiMateLayout.dg_relationships diagram !! i = Some rel
                        /\ archiRelKey rel = k).
  { intros k i label w h Hin.
    destruct (Hlbl k i label w h Hin) as (rel & H1 & _ & H2 & _). eauto. }
  split.
  - intros i rel Hi Hj.
    pose proof (lookup_lt_Some _ _ _ Hi) as Hilt.
    destruct (Hcov i rel Hilt Hi Hj) as (last & label & w & h & Hin).
    destruct (Hlbl _ last label w h Hin) as (relLast & Hlast & Hlt & Hk & Hjl & Hafter).
    exists last, relLast. repeat apply conj; auto.
    + destruct (le_lt_dec i last) as [| Hgt]; [assumption |].
      exfalso. apply (Hafter i rel Hgt Hilt Hi Hj). reflexivity.
    + intros j rel' Hlj Hrel'. apply (Hafter j rel' Hlj); [| exact Hrel'].
      apply (lookup_lt_Some _ _ _ Hrel').
    + apply (drawnFor_single diagram g laid (edgeList g) rs _ last label w h relLast);
        assumption.
    + intros minlen weight Hin'.
      pose proof (NoDup_keys_label _ _ _ _ Hnd Hin Hin'). discriminate.
  - intros k Hk.
    destruct (drawnFor k (omap id rs)) as [| r rest] eqn:Hf; [reflexivity |].
    exfalso.
    assert (Hr : In r (drawnFor k (omap id rs))) by (rewrite Hf; left; reflexivity).
    apply filter_In in Hr as [Hr Hkey]. apply bool_decide_eq_true in Hkey.
    destruct (extracted_origin diagram g laid (edgeList g) rs r
                (buildGraph_relEdgesOk diagram) Hm Hr)
      as (i & rel & Hi & Hs & Ht & Hps & Hpt & _).
    apply (Hk rel).
    + apply list_elem_of_In. eapply list_elem_of_lookup_2, Hi.
    + unfold joinsElements. rewrite Hs, Ht. reflexivity.
    + rewrite <- Hkey. unfold archiRelKey, archiPositionedKey. congruence.
Qed.

Lemma X11_archimate_one_relationship_per_pair_witness :
  exists out,
    ArchiMateLayout.layoutArchiMateDiagram (dagreLeaves laidLayered) layered = inr out
    /\ length (drawnFor (archiRelKey portalToCustomer)
                 (ArchiMateLayout.pd_relationships out)) = 1%nat
    /\ drawnFor (archiRelKey customerToGhost)
         (ArchiMateLayout.pd_relationships out) = [].
Proof.
  destruct (X11_archimate_one_relationship_per_pair
              (dagreLeaves laidLayered) layered laidLayered)
    as (out & Hout & Hone & Hnone); [discriminate | reflexivity | reflexivity |].
  exists out. split; [exact Hout |]. split.
  - destruct (Hone 0%nat portalToCustomer eq_refl eq_refl)
      as (last & relLast & _ & _ & _ & _ & _ & -> & _). reflexivity.
  - apply Hnone. intros rel [<- | [<- | []]] Hj; [discriminate | discriminate Hj].
Defined.

(** ** The order of the relationships of a C4 result *)

Section RelationshipOrder.
Import C4Layout.





End RelationshipOrder.



(** ** Escaping text for the SVG *)

Section EscapeXml.
Import ArchiMateRenderer.

Lemma replaceAll_app c r (a b : jsstring) :
  replaceAll c r (a ++ b) = replaceAll c r a ++ replaceAll c r b.
Proof. unfold replaceAll. apply flat_map_app. Qed.

Lemma escapeXml_app (a b : jsstring) : escapeXml (a ++ b) = escapeXml a ++ escapeXml b.
Proof. unfold escapeXml. rewrite !replaceAll_app. reflexivity. Qed.

Lemma escapeXml_unit (u : Z) : escapeXml [u] = escapedUnit u.
Proof.
  unfold escapeXml, escapedUnit, replaceAll at 5. cbn [flat_map app].
  destruct (Z.eqb_spec u 38) as [-> |]; [reflexivity |].
  unfold replaceAll at 4. cbn [flat_map app].
  destruct (Z.eqb_spec u 60) as [-> |]; [reflexivity |].
  unfold replaceAll at 3. cbn [flat_map app].
  destruct (Z.eqb_spec u 62) as [-> |]; [reflexivity |].
  unfold replaceAll at 2. cbn [flat_map app].
  destruct (Z.eqb_spec u 34) as [-> |]; [reflexivity |].
  unfold replaceAll. cbn [flat_map app].
  destruct (Z.eqb_spec u 39) as [-> |]; reflexivity.
Qed.

(** The five passes amount to one pass that rewrites each code unit on
    its own. *)
Lemma escapeXml_cons (u : Z) (text : jsstring) :
  escapeXml (u :: text) = escapedUnit u ++ escapeXml text.
Proof. rewrite <- escapeXml_unit. apply (escapeXml_app [u] text). Qed.

Lemma escapedUnit_no_markup (u v : Z) :
  In v (escapedUnit u) -> v <> 60%Z /\ v <> 62%Z /\ v <> 34%Z /\ v <> 39%Z.
Proof.
  unfold escapedUnit, amp, lt, gt, quot, apos.
  destruct (Z.eqb_spec u 38); [| destruct (Z.eqb_spec u 60);
    [| destruct (Z.eqb_spec u 62); [| destruct (Z.eqb_spec u 34);
      [| destruct (Z.eqb_spec u 39)]]]];
    cbn [In]; intros H; repeat (destruct H as [<- | H]; [lia |]); destruct H.
Qed.

Lemma escapedUnit_plain (u : Z) : isMarkup u = false -> escapedUnit u = [u].
Proof.
  unfold isMarkup, escapedUnit. intros H.
  destruct (u =? 38)%Z; [discriminate |]. destruct (u =? 60)%Z; [discriminate |].
  destruct (u =? 62)%Z; [discriminate |]. destruct (u =? 34)%Z; [discriminate |].
  destruct (u =? 39)%Z; [discriminate | reflexivity].
Qed.

(** Each unit's image starts with a unit that no other image shares,
    or with [&] and a second unit that no other image shares. *)
Lemma escapedUnit_prefix_free (u v : Z) (r s : jsstring) :
  escapedUnit u ++ r = escapedUnit v ++ s -> u = v /\ r = s.
Proof.
  unfold escapedUnit, amp, lt, gt, quot, apos.
  destruct (Z.eqb_spec u 38); [| destruct (Z.eqb_spec u 60);
    [| destruct (Z.eqb_spec u 62); [| destruct (Z.eqb_spec u 34);
      [| destruct (Z.eqb_spec u 39)]]]];
  (destruct (Z.eqb_spec v 38); [| destruct (Z.eqb_spec v 60);
    [| destruct (Z.eqb_spec v 62); [| destruct (Z.eqb_spec v 34);
      [| destruct (Z.eqb_spec v 39)]]]]);
  cbn [app]; intros H; injection H; intros; subst;
    try (split; [lia | congruence]); try discriminate; try lia.
Qed.

Lemma escapedUnit_nonempty (u : Z) : escapedUnit u <> [].
Proof.
  unfold escapedUnit, amp, lt, gt, quot, apos.
  destruct (u =? 38)%Z; [discriminate |]. destruct (u =? 60)%Z; [discriminate |].
  destruct (u =? 62)%Z; [discriminate |]. destruct (u =? 34)%Z; [discriminate |].
  destruct (u =? 39)%Z; discriminate.
Qed.

Lemma escapeXml_injective (a : jsstring) : forall b : jsstring,
  escapeXml a = escapeXml b -> a = b.
Proof.
  induction a as [| u a IH]; intros [| v b] H.
  - reflexivity.
  - rewrite escapeXml_cons in H. exfalso.
    destruct (escapedUnit v) eqn:E; [apply (escapedUnit_nonempty v E) | discriminate H].
  - rewrite escapeXml_cons in H. exfalso.
    destruct (escapedUnit u) eqn:E; [apply (escapedUnit_nonempty u E) | discriminate H].
  - rewrite !escapeXml_cons in H.
    apply escapedUnit_prefix_free in H as [-> H]. f_equal. apply IH, H.
Qed.

End EscapeXml.

(** X13: the text [escapeXml] returns holds no [<], [>], double or single
    quote; the function rewrites each character on its own, so that it
    distributes over concatenation, leaves a text without [&], [<], [>]
    and quotes as it is, and never escapes the [&] of an entity it has
    just written; and two different texts are never escaped to the same
    text. *)
Theorem X13_escapeXml_is_safe_and_injective :
  (forall text v, In v (ArchiMateRenderer.escapeXml text) ->
     v <> 60%Z /\ v <> 62%Z /\ v <> 34%Z /\ v <> 39%Z)
  /\ (forall a b, ArchiMateRenderer.escapeXml (a ++ b)
                  = ArchiMateRenderer.escapeXml a ++ ArchiMateRenderer.escapeXml b)
  /\ (forall u, ArchiMateRenderer.escapeXml [u] = escapedUnit u)
  /\ (forall text, forallb (fun u => negb (isMarkup u)) text = true ->
                   ArchiMateRenderer.escapeXml text = text)
  /\ (forall a b, ArchiMateRenderer.escapeXml a = ArchiMateRenderer.escapeXml b -> a = b).
Proof.
  split; [| split; [exact escapeXml_app | split; [exact escapeXml_unit | split]]].
  - induction text as [| u text IH]; intros v Hin; [destruct Hin |].
    rewrite escapeXml_cons in Hin. apply in_app_or in Hin as [Hin | Hin].
    + eapply escapedUnit_no_markup, Hin.
    + apply IH, Hin.
  - induction text as [| u text IH]; intros H; [reflexivity |].
    cbn [forallb] in H. apply andb_prop in H as [Hu Ht].
    rewrite escapeXml_cons, (IH Ht), escapedUnit_plain; [reflexivity |].
    apply negb_true_iff, Hu.
  - intros a b. apply escapeXml_injective.
Qed.

(** ** Where the label of a relationship is put *)

Section MidpointFacts.
Import ArchiMateRenderer.

Variable sqrt : Q -> Q.
Hypothesis sqrt_nonneg : forall x, 0 <= sqrt x.

Lemma pathLength_ge prev rest : forall totalLen, totalLen <= pathLength sqrt prev rest totalLen.
Proof.
  revert prev. induction rest as [| curr rest IH]; intros prev totalLen;
    cbn [pathLength]; [apply Qle_refl |].
  eapply Qle_trans; [| apply IH]. unfold segLen.
  pose proof (sqrt_nonneg ((pt_x curr - pt_x prev) * (pt_x curr - pt_x prev)
                           + (pt_y curr - pt_y prev) * (pt_y curr - pt_y prev))).
  lra.
Qed.

(** The second loop walks the lengths the first one added up, so that it
    returns at the last segment at the latest. *)
Lemma walk_returns halfLen rest : forall prev walked,
  rest <> [] -> halfLen <= pathLength sqrt prev rest walked ->
  exists mid, walk sqrt halfLen prev rest walked = Some mid.
Proof.
  induction rest as [| curr rest IH]; intros prev walked Hne Hlen; [contradiction |].
  cbn [walk pathLength] in *. unfold segLen in Hlen.
  destruct (Qle_bool halfLen _) eqn:Hle; [eauto |].
  destruct rest as [| next rest].
  - cbn [pathLength] in Hlen. apply Qle_bool_iff in Hlen. congruence.
  - apply IH; [discriminate | exact Hlen].
Qed.

Lemma walk_onSegment halfLen rest : forall prev walked mid,
  walked <= halfLen ->
  walk sqrt halfLen prev rest walked = Some mid ->
  exists a b, In (a, b) (segments (prev :: rest)) /\ onSegment a b mid.
Proof.
  induction rest as [| curr rest IH]; intros prev walked mid Hw Hwalk; [discriminate |].
  cbn [walk] in Hwalk.
  set (dx := pt_x curr - pt_x prev) in *. set (dy := pt_y curr - pt_y prev) in *.
  set (len := sqrt (dx * dx + dy * dy)) in *.
  destruct (Qle_bool halfLen (walked + len)) eqn:Hle.
  - injection Hwalk as <-. exists prev, curr. split; [left; reflexivity |].
    apply Qle_bool_iff in Hle. unfold Qlt_bool.
    destruct (Qle_bool len 0) eqn:Hpos; cbn [negb].
    + exists 0. cbn [pt_x pt_y]. repeat split; try lra.
    + assert (Hlen : 0 < len).
      { apply Qnot_le_lt. rewrite <- Qle_bool_iff. congruence. }
      exists ((halfLen - walked) / len). cbn [pt_x pt_y]. fold dx dy.
      repeat split; try reflexivity.
      * apply Qle_shift_div_l; [exact Hlen | lra].
      * apply Qle_shift_div_r; [exact Hlen | lra].
  - assert (Hw' : walked + len <= halfLen).
    { apply Qlt_le_weak, Qnot_le_lt. rewrite <- Qle_bool_iff. congruence. }
    destruct (IH curr (walked + len) mid Hw' Hwalk) as (a & b & Hin & Hon).
    exists a, b. split; [right; exact Hin | exact Hon].
Qed.

Lemma midpoint_onSegment p0 p1 rest :
  exists a b, In (a, b) (segments (p0 :: p1 :: rest))
              /\ onSegment a b (midpoint sqrt (p0 :: p1 :: rest)).
Proof.
  cbn [midpoint].
  pose proof (pathLength_ge p0 (p1 :: rest) 0) as Hge.
  destruct (Qeq_bool (pathLength sqrt p0 (p1 :: rest) 0) 0) eqn:Hz.
  - exists p0, p1. split; [left; reflexivity |].
    exists 0. repeat split; lra.
  - assert (Hpos : 0 < pathLength sqrt p0 (p1 :: rest) 0).
    { apply Qle_lt_or_eq in Hge as [Hlt | Heq]; [exact Hlt |].
      symmetry in Heq. apply Qeq_bool_iff in Heq. congruence. }
    destruct (walk_returns (pathLength sqrt p0 (p1 :: rest) 0 / 2) (p1 :: rest) p0 0)
      as [mid Hmid]; [discriminate | |].
    + apply Qle_shift_div_r; lra.
    + rewrite Hmid. eapply walk_onSegment; [| exact Hmid].
      apply Qle_shift_div_l; lra.
Qed.

End MidpointFacts.

(** X14: whatever non-negative function stands for [Math.sqrt], the
    midpoint of a polyline of two points or more lies on one of its
    segments, between the two ends of that segment; the midpoint of no
    point is the origin and the midpoint of one point is that point. *)
Theorem X14_midpoint_lies_on_the_path (sqrt : Q -> Q) :
  (forall x, 0 <= sqrt x) ->
  ArchiMateRenderer.midpoint sqrt [] = mkPoint 0 0
  /\ (forall p, ArchiMateRenderer.midpoint sqrt [p] = p)
  /\ (forall p0 p1 rest,
        exists a b, In (a, b) (segments (p0 :: p1 :: rest))
                    /\ onSegment a b (ArchiMateRenderer.midpoint sqrt (p0 :: p1 :: rest))).
Proof.
  intros Hs. split; [reflexivity |]. split; [reflexivity |].
  apply midpoint_onSegment, Hs.
Qed.

Lemma X14_midpoint_lies_on_the_path_witness :
  (exists a b, In (a, b) (segments [mkPoint 0 0; mkPoint 0 30; mkPoint 40 30])
               /\ onSegment a b
                    (ArchiMateRenderer.midpoint sqrtOfSquares
                       [mkPoint 0 0; mkPoint 0 30; mkPoint 40 30]))
  /\ pt_x (ArchiMateRenderer.midpoint sqrtOfSquares
             [mkPoint 0 0; mkPoint 0 30; mkPoint 40 30]) == 5
  /\ pt_y (ArchiMateRenderer.midpoint sqrtOfSquares
             [mkPoint 0 0; mkPoint 0 30; mkPoint 40 30]) == 30.
Proof.
  split; [| split; reflexivity].
  apply (X14_midpoint_lies_on_the_path sqrtOfSquares).
  intros x. unfold sqrtOfSquares.
  change 0 with (inject_Z 0). rewrite <- Zle_Qle. apply Z.sqrt_nonneg.
Defined.

(** ** Reading the arguments of a C4 statement *)

Section ParseArgs.
Import JS C4Parser.

Lemma trimStart_blank (w s : jsstring) :
  forallb isWhiteSpace w = true -> trimStart (w ++ s) = trimStart s.
Proof.
  induction w as [| u w IH]; intros H; [reflexivity |].
  cbn [forallb] in H. apply andb_prop in H as [Hu Hw].
  cbn [app trimStart]. rewrite Hu. apply IH, Hw.
Qed.

Lemma forallb_rev {A} (p : A -> bool) (l : list A) :
  forallb p (rev l) = forallb p l.
Proof.
  induction l as [| x l IH]; [reflexivity |].
  cbn [rev forallb]. rewrite forallb_app, IH. cbn [forallb].
  rewrite andb_true_r. apply andb_comm.
Qed.

Lemma tight_ends (a : jsstring) :
  tight a = true ->
  exists u a' z a'', a = u :: a' /\ rev a = z :: a''
                     /\ isWhiteSpace u = false /\ isWhiteSpace z = false.
Proof.
  unfold tight. destruct a as [| u a']; [discriminate |].
  destruct (rev (u :: a')) as [| z a''] eqn:Hr; [discriminate |].
  intros H. apply andb_prop in H as [Hu Hz].
  apply negb_true_iff in Hu, Hz. exists u, a', z, a''. auto.
Qed.

(** White space around a tight text is all that [trim] takes away. *)
Lemma trim_padded (before a after : jsstring) :
  forallb isWhiteSpace before = true -> forallb isWhiteSpace after = true ->
  tight a = true -> trim (before ++ a ++ after) = a.
Proof.
  intros Hb Ha Ht.
  destruct (tight_ends a Ht) as (u & a' & z & a'' & Ea & Er & Hu & Hz).
  unfold trim, trimEnd. rewrite trimStart_blank by exact Hb.
  assert (E1 : trimStart (a ++ after) = a ++ after).
  { rewrite Ea. cbn [app trimStart]. rewrite Hu. reflexivity. }
  rewrite E1, rev_app_distr, trimStart_blank by (rewrite forallb_rev; exact Ha).
  rewrite Er. cbn [trimStart]. rewrite Hz, <- Er. apply rev_involutive.
Qed.

Lemma tight_quoted (s : jsstring) : tight (quoted s) = true.
Proof.
  unfold tight, quoted. cbn [app rev]. rewrite rev_app_distr. reflexivity.
Qed.

Lemma blank_lacks (w : jsstring) :
  forallb isWhiteSpace w = true -> lacks 34 w = true /\ lacks 44 w = true.
Proof.
  unfold lacks. induction w as [| u w IH]; intros H; [split; reflexivity |].
  cbn [forallb] in *. apply andb_prop in H as [Hu Hw].
  destruct (IH Hw) as [-> ->].
  destruct (Z.eqb_spec u 34) as [-> |]; [discriminate |].
  destruct (Z.eqb_spec u 44) as [-> |]; [discriminate |].
  split; reflexivity.
Qed.

(** Inside quotes everything but a double quote is taken as it is. *)
Lemma parseArgsLoop_inside (s : jsstring) : forall rest args current,
  lacks 34 s = true ->
  parseArgsLoop (s ++ rest) args current true
  = parseArgsLoop rest args (current ++ s) true.
Proof.
  induction s as [| u s IH]; intros rest args current H.
  - rewrite app_nil_r. reflexivity.
  - unfold lacks in H. cbn [forallb] in H. apply andb_prop in H as [Hu Hs].
    apply negb_true_iff in Hu. cbn [app parseArgsLoop]. rewrite Hu.
    cbn [negb andb]. rewrite andb_false_r.
    rewrite (IH rest args (current ++ [u]) Hs), <- app_assoc. reflexivity.
Qed.

(** Outside quotes everything but a comma or a double quote is taken as
    it is. *)
Lemma parseArgsLoop_bare (s : jsstring) : forall rest args current,
  lacks 34 s = true -> lacks 44 s = true ->
  parseArgsLoop (s ++ rest) args current false
  = parseArgsLoop rest args (current ++ s) false.
Proof.
  induction s as [| u s IH]; intros rest args current H1 H2.
  - rewrite app_nil_r. reflexivity.
  - unfold lacks in H1, H2. cbn [forallb] in H1, H2.
    apply andb_prop in H1 as [Hu1 Hs1]. apply andb_prop in H2 as [Hu2 Hs2].
    apply negb_true_iff in Hu1, Hu2. cbn [app parseArgsLoop]. rewrite Hu1, Hu2.
    cbn [andb].
    rewrite (IH rest args (current ++ [u]) Hs1 Hs2), <- app_assoc. reflexivity.
Qed.

Lemma parseArgsLoop_arg (a : jsstring) rest args current :
  wellFormedArg a ->
  parseArgsLoop (a ++ rest) args current false
  = parseArgsLoop rest args (current ++ a) false.
Proof.
  intros [(s & -> & Hs) | (H1 & H2 & _)]; [| apply parseArgsLoop_bare; assumption].
  unfold quoted. cbn [app parseArgsLoop]. cbn [Z.eqb Pos.eqb negb].
  rewrite <- app_assoc, (parseArgsLoop_inside s _ args (current ++ [34%Z]) Hs).
  cbn [app parseArgsLoop]. cbn [Z.eqb Pos.eqb negb].
  rewrite <- !app_assoc. reflexivity.
Qed.

Lemma wellFormedArg_tight (a : jsstring) : wellFormedArg a -> tight a = true.
Proof. intros [(s & -> & _) | (_ & _ & H)]; [apply tight_quoted | exact H]. Qed.

Lemma parseArgsLoop_piece piece rest args current :
  wellFormedPiece piece ->
  parseArgsLoop (padded piece ++ rest) args current false
  = parseArgsLoop rest args (current ++ padded piece) false.
Proof.
  destruct piece as [[before a] after]. intros (Hb & Ha & Harg).
  cbn [fst snd] in *. unfold padded. cbn [fst snd].
  destruct (blank_lacks before Hb) as [B1 B2].
  destruct (blank_lacks after Ha) as [A1 A2].
  rewrite <- !app_assoc.
  rewrite parseArgsLoop_bare, parseArgsLoop_arg, parseArgsLoop_bare by assumption.
  rewrite <- !app_assoc. reflexivity.
Qed.

Lemma trim_piece piece : wellFormedPiece piece -> trim (padded piece) = snd (fst piece).
Proof.
  destruct piece as [[before a] after]. intros (Hb & Ha & Harg).
  apply trim_padded; auto. apply wellFormedArg_tight, Harg.
Qed.

Lemma last_of_cons {A} (l : list A) : forall x d, List.last (x :: l) d = List.last l x.
Proof.
  induction l as [| y l IH]; intros x d; [reflexivity |].
  change (List.last (x :: y :: l) d) with (List.last (y :: l) d).
  rewrite (IH y d), (IH y x). reflexivity.
Qed.

Lemma last_of_cons_In {A} (l : list A) : forall x d, In (List.last (x :: l) d) (x :: l).
Proof.
  induction l as [| y l IH]; intros x d; [left; reflexivity |].
  change (List.last (x :: y :: l) d) with (List.last (y :: l) d).
  right. apply IH.
Qed.

Lemma parseArgsLoop_written pieces : forall piece args,
  Forall wellFormedPiece (piece :: pieces) ->
  parseArgsLoop (writtenArgs (piece :: pieces)) args [] false
  = (args ++ map (fun p => snd (fst p)) (removelast (piece :: pieces)),
     padded (List.last pieces piece)).
Proof.
  induction pieces as [| next pieces IH]; intros piece args HF.
  - apply Forall_inv in HF. cbn [writtenArgs removelast map List.last].
    rewrite <- (app_nil_r (padded piece)) at 1.
    rewrite parseArgsLoop_piece by exact HF. rewrite app_nil_r. reflexivity.
  - pose proof (Forall_inv HF) as Hp. apply Forall_inv_tail in HF.
    change (writtenArgs (piece :: next :: pieces))
      with (padded piece ++ [44%Z] ++ writtenArgs (next :: pieces)).
    rewrite parseArgsLoop_piece by exact Hp.
    cbn [app parseArgsLoop]. cbn [Z.eqb Pos.eqb negb andb].
    rewrite IH by exact HF. rewrite trim_piece by exact Hp.
    change (removelast (piece :: next :: pieces))
      with (piece :: removelast (next :: pieces)).
    rewrite (last_of_cons pieces next piece).
    cbn [map]. rewrite <- app_assoc. reflexivity.
Qed.

Lemma parseArgs_written pieces :
  Forall wellFormedPiece pieces ->
  parseArgs (writtenArgs pieces) = map (fun p => snd (fst p)) pieces.
Proof.
  destruct pieces as [| piece pieces]; [reflexivity |]. intros HF.
  unfold parseArgs. rewrite parseArgsLoop_written by exact HF.
  rewrite <- (last_of_cons pieces piece piece).
  assert (Hlast : wellFormedPiece (List.last (piece :: pieces) piece)).
  { rewrite Forall_forall in HF. apply HF.
    apply list_elem_of_In, last_of_cons_In. }
  rewrite (trim_piece _ Hlast).
  destruct (tight_ends _ (wellFormedArg_tight _ (proj2 (proj2 Hlast))))
    as (u & a' & _ & _ & Ea & _).
  rewrite Ea at 1. cbn [length Nat.ltb Nat.leb]. rewrite <- app_assoc.
  change [snd (fst (List.last (piece :: pieces) piece))]
    with (map (fun p : jsstring * jsstring * jsstring => snd (fst p))
              [List.last (piece :: pieces) piece]).
  rewrite <- map_app, app_nil_l. f_equal. symmetry.
  apply app_removelast_last. discriminate.
Qed.

Lemma unquote_quoted (s : jsstring) : unquote (quoted s) = s.
Proof.
  unfold unquote, quoted. cbn [app length List.hd tl].
  rewrite length_app. cbn [length].
  replace (2 <=? S (length s + 1))%nat with true
    by (symmetry; apply Nat.leb_le; lia).
  rewrite (last_of_cons (s ++ [34%Z]) 34%Z 0%Z), last_last.
  cbn [Z.eqb Pos.eqb andb]. apply removelast_last.
Qed.

Lemma unquote_bare (a : jsstring) : lacks 34 a = true -> unquote a = a.
Proof.
  unfold unquote. destruct a as [| u a]; [reflexivity |].
  unfold lacks. cbn [forallb List.hd]. intros H. apply andb_prop in H as [Hu _].
  apply negb_true_iff in Hu. rewrite Hu, andb_false_r. reflexivity.
Qed.

End ParseArgs.

(** X15: an argument list written as arguments separated by commas, each
    between optional white space and each either a text between double
    quotes that holds no double quote (commas and white space inside
    allowed) or a bare word without comma, double quote or white space at
    its ends, is read back by [parseArgs] as exactly these arguments, in
    order; and [unquote] takes the quotes off a quoted text, whatever it
    holds, and leaves a text without a double quote as it is. *)
Theorem X15_parseArgs_reads_back_what_was_written
    (pieces : list (jsstring * jsstring * jsstring)) :
  Forall wellFormedPiece pieces ->
  C4Parser.parseArgs (writtenArgs pieces) = map (fun piece => snd (fst piece)) pieces
  /\ (forall s, C4Parser.unquote (quoted s) = s)
  /\ (forall a, lacks 34 a = true -> C4Parser.unquote a = a).
Proof.
  intros HF. split; [apply parseArgs_written, HF |].
  split; [exact unquote_quoted | exact unquote_bare].
Qed.

Lemma X15_parseArgs_reads_back_what_was_written_witness :
  map C4Parser.unquote
    (C4Parser.parseArgs
       (writtenArgs [([], [119; 101; 98]%Z, []);
                     ([32%Z], quoted [87; 101; 98; 44; 32; 65; 112; 112]%Z, [32%Z])]))
  = [[119; 101; 98]%Z; [87; 101; 98; 44; 32; 65; 112; 112]%Z].
Proof.
  destruct (X15_parseArgs_reads_back_what_was_written
              [([], [119; 101; 98]%Z, []);
               ([32%Z], quoted [87; 101; 98; 44; 32; 65; 112; 112]%Z, [32%Z])])
    as (Hargs & _ & _).
  - apply List.Forall_cons; [| apply List.Forall_cons; [| apply List.Forall_nil]].
    + split; [reflexivity | split; [reflexivity |]].
      right. split; [reflexivity | split; reflexivity].
    + split; [reflexivity | split; [reflexivity |]].
      left. exists [87; 101; 98; 44; 32; 65; 112; 112]%Z. split; reflexivity.
  - rewrite Hargs. reflexivity.
Defined.

(** ** The element types the ArchiMate parser accepts *)

Section ElementTypes.
Import ArchiMateParser.

Lemma setAdd_spec (s : list string) (t x : string) :
  In x (setAdd s t) <-> In x s \/ x = t.
Proof.
  unfold setAdd, setHas. destruct (bool_decide (t ∈ s)) eqn:E.
  - apply bool_decide_eq_true, list_elem_of_In in E. split; [auto |].
    intros [H | ->]; assumption.
  - rewrite in_app_iff. cbn [In]. intuition congruence.
Qed.

Lemma fold_setAdd_spec (types : list string) : forall all x,
  In x (fold_left setAdd types all) <-> In x all \/ In x types.
Proof.
  induction types as [| t types IH]; intros all x; cbn [fold_left In]; [tauto |].
  rewrite IH, setAdd_spec. intuition congruence.
Qed.

Lemma union_spec (sets : list (list string)) : forall all x,
  In x (fold_left (fun all types => fold_left setAdd types all) sets all)
  <-> In x all \/ exists types, In types sets /\ In x types.
Proof.
  induction sets as [| types sets IH]; intros all x; cbn [fold_left In].
  - split; [auto | intros [H | (types & [] & _)]; exact H].
  - rewrite IH, fold_setAdd_spec. split.
    + intros [[H | H] | (types' & H1 & H2)]; eauto.
    + intros [H | (types' & [<- | H1] & H2)]; eauto.
Qed.

(** The set of all element types holds the types of the layers and
    nothing else. *)
Lemma ALL_ELEMENT_TYPES_spec (typeName : string) :
  In typeName ALL_ELEMENT_TYPES <-> exists l, In typeName (LAYER_ELEMENT_TYPES l).
Proof.
  unfold ALL_ELEMENT_TYPES, buildAllElementTypes. rewrite union_spec. split.
  - intros [[] | (types & Hin & Ht)].
    apply in_map_iff in Hin as (l & <- & _). eauto.
  - intros (l & Hl). right. exists (LAYER_ELEMENT_TYPES l). split; [| exact Hl].
    apply in_map. destruct l; cbn; tauto.
Qed.

End ElementTypes.

(** X16: the layer handed to [isValidElementType] has no effect: a type
    name is accepted in a layer exactly when it is the element type of
    some layer, so that a type of one layer is accepted in every other
    layer; a name that is the type of no layer is refused everywhere. *)
Theorem X16_element_type_valid_in_every_layer :
  (forall typeName layer,
     ArchiMateParser.isValidElementType typeName layer = true
     <-> exists l, In typeName (ArchiMateParser.LAYER_ELEMENT_TYPES l))
  /\ (forall typeName layer1 layer2,
        ArchiMateParser.isValidElementType typeName layer1
        = ArchiMateParser.isValidElementType typeName layer2).
Proof.
  assert (H : forall typeName layer,
            ArchiMateParser.isValidElementType typeName layer
            = ArchiMateParser.setHas ArchiMateParser.ALL_ELEMENT_TYPES typeName).
  { intros typeName layer. unfold ArchiMateParser.isValidElementType.
    destruct (ArchiMateParser.setHas (ArchiMateParser.LAYER_ELEMENT_TYPES layer) typeName)
      eqn:E; [| reflexivity].
    symmetry. unfold ArchiMateParser.setHas in *.
    apply bool_decide_eq_true_1 in E. rewrite list_elem_of_In in E.
    apply bool_decide_eq_true_2. rewrite list_elem_of_In, ALL_ELEMENT_TYPES_spec.
    exists layer. exact E. }
  split; [| intros typeName l1 l2; rewrite !H; reflexivity].
  intros typeName layer. rewrite H. unfold ArchiMateParser.setHas.
  rewrite bool_decide_eq_true, list_elem_of_In. apply ALL_ELEMENT_TYPES_spec.
Qed.

(** ** The grid of the ASCII renderer *)

Section AsciiGrid.
Import C4Layout AsciiC4.

Lemma fold_lines_ge (section : list jsstring) : forall m, (m <= fold_left
    (fun maxTextW line => Z.max maxTextW (Z.of_nat (length line))) section m)%Z.
Proof.
  induction section as [| line section IH]; intros m; cbn [fold_left]; [lia |].
  specialize (IH (Z.max m (Z.of_nat (length line)))). lia.
Qed.

Lemma fold_lines_member (section : list jsstring) line : forall m,
  In line section ->
  (Z.of_nat (length line) <= fold_left
     (fun maxTextW line => Z.max maxTextW (Z.of_nat (length line))) section m)%Z.
Proof.
  induction section as [| l section IH]; intros m Hin; [destruct Hin |].
  cbn [fold_left]. destruct Hin as [-> | Hin]; [| apply IH, Hin].
  pose proof (fold_lines_ge section (Z.max m (Z.of_nat (length line)))). lia.
Qed.

Lemma fold_sections_ge (sections : list (list jsstring)) : forall m,
  (m <= fold_left
     (fun maxTextW section =>
        fold_left (fun maxTextW line => Z.max maxTextW (Z.of_nat (length line)))
                  section maxTextW) sections m)%Z.
Proof.
  induction sections as [| section sections IH]; intros m; cbn [fold_left]; [lia |].
  eapply Z.le_trans; [apply (fold_lines_ge section) | apply IH].
Qed.

Lemma fold_sections_member (sections : list (list jsstring)) section line : forall m,
  In section sections -> In line section ->
  (Z.of_nat (length line) <= fold_left
     (fun maxTextW section =>
        fold_left (fun maxTextW line => Z.max maxTextW (Z.of_nat (length line)))
                  section maxTextW) sections m)%Z.
Proof.
  induction sections as [| s sections IH]; intros m Hs Hl; [destruct Hs |].
  cbn [fold_left]. destruct Hs as [-> | Hs]; [| apply IH; assumption].
  eapply Z.le_trans; [apply (fold_lines_member section line m Hl) |].
  apply fold_sections_ge.
Qed.

(** The maximum is the seed or the length of a line. *)
Lemma fold_lines_attained (section : list jsstring) : forall m,
  fold_left (fun maxTextW line => Z.max maxTextW (Z.of_nat (length line))) section m = m
  \/ exists line,
       In line section
       /\ fold_left (fun maxTextW line => Z.max maxTextW (Z.of_nat (length line)))
                    section m
          = Z.of_nat (length line).
Proof.
  induction section as [| l section IH]; intros m; cbn [fold_left]; [left; reflexivity |].
  destruct (IH (Z.max m (Z.of_nat (length l)))) as [E | (line & Hin & E)].
  - rewrite E. destruct (Z.max_spec m (Z.of_nat (length l))) as [[_ E'] | [_ E']];
      rewrite E'; [right; exists l; split; [left; reflexivity | reflexivity] | left; reflexivity].
  - right. exists line. split; [right; exact Hin | exact E].
Qed.

Lemma fold_sections_attained (sections : list (list jsstring)) : forall m,
  fold_left (fun maxTextW section =>
               fold_left (fun maxTextW line => Z.max maxTextW (Z.of_nat (length line)))
                         section maxTextW) sections m = m
  \/ exists line,
       In line (concat sections)
       /\ fold_left (fun maxTextW section =>
                       fold_left (fun maxTextW line =>
                                    Z.max maxTextW (Z.of_nat (length line)))
                                 section maxTextW) sections m
          = Z.of_nat (length line).
Proof.
  induction sections as [| s sections IH]; intros m; cbn [fold_left concat];
    [left; reflexivity |].
  destruct (IH (fold_left (fun maxTextW line => Z.max maxTextW (Z.of_nat (length line)))
                          s m)) as [E | (line & Hin & E)].
  - rewrite E. destruct (fold_lines_attained s m) as [E' | (line & Hin & E')].
    + left. exact E'.
    + right. exists line. split; [apply in_or_app; left; exact Hin | exact E'].
  - right. exists line. split; [apply in_or_app; right; exact Hin | exact E].
Qed.

(** A box is as wide as its widest line plus 4. *)
Lemma computeBoxSize_widest (sections : list (list jsstring)) :
  concat sections <> [] ->
  (forall line, In line (concat sections) ->
     (Z.of_nat (length line) + 4 <= fst (computeBoxSize sections))%Z)
  /\ (exists line, In line (concat sections)
                   /\ fst (computeBoxSize sections) = (Z.of_nat (length line) + 4)%Z).
Proof.
  intros Hne. unfold computeBoxSize. cbn [fst].
  assert (Hle : forall line, In line (concat sections) ->
            (Z.of_nat (length line)
             <= fold_left
                  (fun maxTextW section =>
                     fold_left (fun maxTextW line =>
                                  Z.max maxTextW (Z.of_nat (length line)))
                               section maxTextW) sections 0)%Z).
  { intros line Hin. apply in_concat in Hin as (section & Hs & Hl).
    apply (fold_sections_member sections section line 0 Hs Hl). }
  split; [intros line Hin; specialize (Hle line Hin); lia |].
  destruct (fold_sections_attained sections 0) as [E | (line & Hin & E)].
  - destruct (concat sections) as [| line0 rest] eqn:Hc; [contradiction |].
    exists line0. split; [left; reflexivity |].
    specialize (Hle line0 (or_introl eq_refl)). lia.
  - exists line. split; [exact Hin | lia].
Qed.

Lemma fold_totalLines_ge (sections : list (list jsstring)) : forall m,
  (m <= fold_left (fun totalLines section =>
                     (totalLines + Z.max (Z.of_nat (length section)) 1)%Z) sections m)%Z.
Proof.
  induction sections as [| s sections IH]; intros m; cbn [fold_left]; [lia |].
  specialize (IH (m + Z.max (Z.of_nat (length s)) 1)%Z). lia.
Qed.

Lemma boxW_ge (el : C4Element) : (16 <= boxW el)%Z.
Proof. unfold boxW. lia. Qed.

Lemma boxH_ge (el : C4Element) : (0 <= boxH el)%Z.
Proof.
  unfold boxH, computeBoxSize, PERSON_FIGURE_HEIGHT. cbn [snd].
  pose proof (fold_totalLines_ge (buildElementSections el) 0).
  destruct (isPerson (el_kind el)); lia.
Qed.

Lemma elementBoxW_ge elements :
  map_Forall (fun _ w => (16 <= w)%Z) (elementBoxW elements).
Proof.
  unfold elementBoxW.
  assert (H : forall m : gmap string Z,
            map_Forall (fun (_ : string) w => (16 <= w)%Z) m ->
            map_Forall (fun (_ : string) w => (16 <= w)%Z)
              (fold_left (fun m el => <[el_alias el := boxW el]> m) elements m)).
  { induction elements as [| el elements IH]; intros m Hm; cbn [fold_left]; [exact Hm |].
    apply IH, map_Forall_insert_2; [apply boxW_ge | exact Hm]. }
  apply H, map_Forall_empty.
Qed.

Lemma elementBoxH_ge elements :
  map_Forall (fun _ h => (0 <= h)%Z) (elementBoxH elements).
Proof.
  unfold elementBoxH.
  assert (H : forall m : gmap string Z,
            map_Forall (fun (_ : string) h => (0 <= h)%Z) m ->
            map_Forall (fun (_ : string) h => (0 <= h)%Z)
              (fold_left (fun m el => <[el_alias el := boxH el]> m) elements m)).
  { induction elements as [| el elements IH]; intros m Hm; cbn [fold_left]; [exact Hm |].
    apply IH, map_Forall_insert_2; [apply boxH_ge | exact Hm]. }
  apply H, map_Forall_empty.
Qed.

Lemma place_ok sectionsOf widthOf heightOf perRow elements :
  map_Forall (fun _ w => (16 <= w)%Z) widthOf ->
  map_Forall (fun _ h => (0 <= h)%Z) heightOf ->
  forall boxes currentX currentY maxRowH colCount,
    gridOk boxes currentX currentY maxRowH ->
    exists cx cy mh,
      gridOk (place sectionsOf widthOf heightOf perRow elements boxes
                    currentX currentY maxRowH colCount) cx cy mh.
Proof.
  intros HW HH. induction elements as [| el rest IH];
    intros boxes cx cy mh cc Hok; cbn [place]; [eauto |].
  apply IH. clear IH.
  set (w := default (boxW el) (widthOf !! el_alias el)).
  set (h := default (boxH el) (heightOf !! el_alias el)).
  assert (Hw : (16 <= w)%Z).
  { unfold w. destruct (widthOf !! el_alias el) as [v |] eqn:E; cbn [default].
    - apply (HW _ _ E).
    - apply boxW_ge. }
  assert (Hh : (0 <= h)%Z).
  { unfold h. destruct (heightOf !! el_alias el) as [v |] eqn:E; cbn [default].
    - apply (HH _ _ E).
    - apply boxH_ge. }
  destruct Hok as (Hx & Hy & Hm & Hbox & Hsep).
  unfold gridOk. unfold hGap, vGap in *.
  set (cy' := if (perRow <=? cc)%Z then (cy + (mh + 4))%Z else cy).
  set (cx' := if (perRow <=? cc)%Z then 0%Z else cx).
  set (mh' := if (perRow <=? cc)%Z then 0%Z else mh).
  assert (Hstate : (0 <= cx')%Z /\ (0 <= cy')%Z /\ (0 <= mh')%Z)
    by (unfold cx', cy', mh'; destruct (perRow <=? cc)%Z; lia).
  assert (Hold : forall k p, boxes !! k = Some p ->
            (0 <= p_x p)%Z /\ (0 <= p_y p)%Z /\ (16 <= p_width p)%Z /\ (0 <= p_height p)%Z
            /\ ((p_y p = cy' /\ (p_x p + p_width p + 6 <= cx')%Z
                 /\ (p_height p <= mh')%Z)
                \/ (p_y p + p_height p + 4 <= cy')%Z)).
  { intros k p Hp. destruct (Hbox k p Hp) as (H1 & H2 & H3 & H4 & H5).
    repeat split; try assumption.
    unfold cx', cy', mh'. destruct (perRow <=? cc)%Z; [right; lia | exact H5]. }
  split; [lia | split; [lia | split; [lia | split]]].
  - intros k p Hp. rewrite lookup_insert in Hp.
    destruct (decide (el_alias el = k)) as [_ | _].
    + injection Hp as <-. cbn [p_x p_y p_width p_height]. repeat split; lia.
    + destruct (Hold k p Hp) as (H1 & H2 & H3 & H4 & H5).
      repeat split; try assumption. destruct H5 as [H5 | H5]; [left | right]; lia.
  - intros k1 k2 p1 p2 Hne H1 H2. rewrite lookup_insert in H1, H2.
    destruct (decide (el_alias el = k1)) as [E1 | N1],
             (decide (el_alias el = k2)) as [E2 | N2].
    + congruence.
    + injection H1 as <-. right.
      destruct (Hold k2 p2 H2) as (_ & _ & _ & _ & [H5 | H5]);
        unfold apart, hGap, vGap; cbn [p_x p_y p_width p_height]; [left | right]; lia.
    + injection H2 as <-. left.
      destruct (Hold k1 p1 H1) as (_ & _ & _ & _ & [H5 | H5]);
        unfold apart, hGap, vGap; cbn [p_x p_y p_width p_height]; [left | right]; lia.
    + apply (Hsep k1 k2); assumption.
Qed.

End AsciiGrid.

(** X17: in the grid of the ASCII renderer any two boxes placed under
    different aliases are apart: one ends at least 6 columns before the
    other begins, or at least 4 rows above it; and each box is at a
    position that is not negative and is at least 16 columns wide. *)
Theorem X17_ascii_grid_boxes_are_apart (elements : list C4Layout.C4Element) :
  (forall k p, AsciiC4.placed elements !! k = Some p ->
     (0 <= AsciiC4.p_x p)%Z /\ (0 <= AsciiC4.p_y p)%Z
     /\ (16 <= AsciiC4.p_width p)%Z /\ (0 <= AsciiC4.p_height p)%Z)
  /\ (forall k1 k2 p1 p2, k1 <> k2 ->
        AsciiC4.placed elements !! k1 = Some p1 ->
        AsciiC4.placed elements !! k2 = Some p2 ->
        apart p1 p2 \/ apart p2 p1).
Proof.
  unfold AsciiC4.placed.
  destruct (place_ok (AsciiC4.elementSections elements) (AsciiC4.elementBoxW elements)
              (AsciiC4.elementBoxH elements) (AsciiC4.maxPerRow (length elements))
              elements (elementBoxW_ge elements) (elementBoxH_ge elements)
              ∅ 0%Z 0%Z 0%Z 0%Z)
    as (cx & cy & mh & _ & _ & _ & Hbox & Hsep).
  - split; [lia | split; [lia | split; [lia | split]]].
    + intros k p H. rewrite lookup_empty in H. discriminate.
    + intros k1 k2 p1 p2 _ H. rewrite lookup_empty in H. discriminate.
  - split; [| exact Hsep].
    intros k p Hp. destruct (Hbox k p Hp) as (H1 & H2 & H3 & H4 & _). auto.
Qed.

(** X18: the lines of the ASCII box of a C4 element are exactly the
    label, then the technology between brackets when it is there and not
    empty, then the description when it is there and not empty.  The box
    is as wide as the widest of these lines, counted in code units, plus
    4 columns: every line fits with 4 columns to spare and one line fits
    exactly.  The box is 3 rows high without technology and description,
    5 rows with one of them and 6 with both. *)
Theorem X18_ascii_box_holds_its_lines (element : C4Layout.C4Element) :
  let sections := AsciiC4.buildElementSections element in
  let size := AsciiC4.computeBoxSize sections in
  concat sections
  = [C4Layout.el_label element]
    ++ match C4Layout.truthy (C4Layout.el_technology element) with
       | Some technology => [[91%Z] ++ technology ++ [93%Z]]
       | None => []
       end
    ++ match C4Layout.truthy (C4Layout.el_description element) with
       | Some description => [description]
       | None => []
       end
  /\ (forall line, In line (concat sections) ->
        (Z.of_nat (length line) + 4 <= fst size)%Z)
  /\ (exists line, In line (concat sections)
                   /\ fst size = (Z.of_nat (length line) + 4)%Z)
  /\ snd size
     = match C4Layout.isTruthy (C4Layout.el_technology element),
             C4Layout.isTruthy (C4Layout.el_description element) with
       | false, false => 3%Z
       | true, true => 6%Z
       | _, _ => 5%Z
       end.
Proof.
  intros sections size.
  assert (Hlines : concat sections
            = [C4Layout.el_label element]
              ++ match C4Layout.truthy (C4Layout.el_technology element) with
                 | Some technology => [[91%Z] ++ technology ++ [93%Z]]
                 | None => []
                 end
              ++ match C4Layout.truthy (C4Layout.el_description element) with
                 | Some description => [description]
                 | None => []
                 end).
  { unfold sections, AsciiC4.buildElementSections.
    destruct (C4Layout.truthy (C4Layout.el_technology element)) as [t |];
      destruct (C4Layout.truthy (C4Layout.el_description element)) as [d |];
      reflexivity. }
  split; [exact Hlines |].
  destruct (computeBoxSize_widest sections) as [Hle Hat];
    [rewrite Hlines; discriminate |].
  split; [exact Hle |]. split; [exact Hat |].
  unfold size, sections, AsciiC4.computeBoxSize, AsciiC4.buildElementSections,
    C4Layout.isTruthy.
  destruct (C4Layout.truthy (C4Layout.el_technology element)) as [t |];
    destruct (C4Layout.truthy (C4Layout.el_description element)) as [d |];
    reflexivity.
Qed.

(** ** Hex colours *)

Section HexColours.
Import Theme.

Lemma jsEqb_eq (s : jsstring) : forall t, jsEqb s t = true <-> s = t.
Proof.
  induction s as [| u s IH]; intros [| v t]; cbn [jsEqb];
    try (split; [discriminate || reflexivity | discriminate || reflexivity]).
  rewrite andb_true_iff, Z.eqb_eq, IH. split; [intros [-> ->]; reflexivity |].
  intros [= -> ->]. auto.
Qed.

Lemma isHexDigit_In (u : Z) : isHexDigit u = true -> In u hexDigits.
Proof.
  unfold isHexDigit, hexValue, hexDigits.
  destruct ((48 <=? u) && (u <=? 57))%Z eqn:E1;
    [| destruct ((97 <=? u) && (u <=? 102))%Z eqn:E2;
       [| destruct ((65 <=? u) && (u <=? 70))%Z eqn:E3; [| discriminate]]];
    intros _;
    [apply andb_prop in E1 as [A B] | apply andb_prop in E2 as [A B]
     | apply andb_prop in E3 as [A B]];
    apply Z.leb_le in A, B; cbn [In];
    assert (H : (u = 48 \/ u = 49 \/ u = 50 \/ u = 51 \/ u = 52 \/ u = 53 \/ u = 54
                 \/ u = 55 \/ u = 56 \/ u = 57 \/ u = 97 \/ u = 98 \/ u = 99 \/ u = 100
                 \/ u = 101 \/ u = 102 \/ u = 65 \/ u = 66 \/ u = 67 \/ u = 68
                 \/ u = 69 \/ u = 70)%Z) by lia;
    intuition congruence.
Qed.

Lemma pairs_checked :
  forallb (fun d1 => forallb (pairChecked d1) hexDigits) hexDigits = true.
Proof. vm_compute. reflexivity. Qed.

Lemma bytes_checked : forallb byteChecked (map Z.of_nat (seq 0 256)) = true.
Proof. vm_compute. reflexivity. Qed.

(** Two digits are the byte they write, and a byte is written as the two
    digits, in lower case, that it is read from. *)
Lemma pair_spec (d1 d2 : Z) :
  isHexDigit d1 = true -> isHexDigit d2 = true ->
  exists k, parseInt16 [d1; d2] = Some k /\ (0 <= k <= 255)%Z
            /\ byteHex k = [lowerHex d1; lowerHex d2]
            /\ ((k =? 255)%Z = jsEqb [lowerHex d1; lowerHex d2] [102; 102]%Z).
Proof.
  intros H1 H2. apply isHexDigit_In in H1, H2.
  pose proof pairs_checked as Hall. rewrite forallb_forall in Hall.
  specialize (Hall d1 H1). rewrite forallb_forall in Hall. specialize (Hall d2 H2).
  unfold pairChecked in Hall.
  destruct (parseInt16 [d1; d2]) as [k |]; [| discriminate].
  apply andb_prop in Hall as [Hall H4]. apply andb_prop in Hall as [Hall H3].
  apply andb_prop in Hall as [Ha Hb].
  apply Z.leb_le in Ha, Hb. apply jsEqb_eq in H3. apply Bool.eqb_prop in H4.
  exists k. auto.
Qed.

Lemma byte_spec (k : Z) :
  (0 <= k <= 255)%Z ->
  exists d1 d2, byteHex k = [d1; d2]
                /\ isHexDigit d1 = true /\ isHexDigit d2 = true
                /\ lowerHex d1 = d1 /\ lowerHex d2 = d2
                /\ parseInt16 [d1; d2] = Some k.
Proof.
  intros Hk.
  assert (Hin : In k (map Z.of_nat (seq 0 256))).
  { apply in_map_iff. exists (Z.to_nat k). split; [lia |]. apply in_seq. lia. }
  pose proof bytes_checked as Hall. rewrite forallb_forall in Hall.
  specialize (Hall k Hin). unfold byteChecked in Hall.
  destruct (byteHex k) as [| d1 [| d2 [| ? ?]]]; try discriminate.
  apply andb_prop in Hall as [Hall H5]. apply andb_prop in Hall as [Hall H4].
  apply andb_prop in Hall as [Hall H3]. apply andb_prop in Hall as [H1 H2].
  apply Z.eqb_eq in H3, H4.
  destruct (parseInt16 [d1; d2]) as [k' |] eqn:Hp; [| discriminate].
  apply Z.eqb_eq in H5. subst k'. exists d1, d2.
  repeat split; assumption.
Qed.

Lemma clamp_range (q : Q) : 0 <= Qmax 0 (Qmin 255 q) /\ Qmax 0 (Qmin 255 q) <= 255.
Proof.
  split; [apply Q.le_max_l |].
  apply Q.max_lub; [discriminate | apply Q.le_min_l].
Qed.

Lemma clamp_inside (q : Q) : 0 <= q -> q <= 255 -> Qmax 0 (Qmin 255 q) == q.
Proof.
  intros H0 H1. rewrite (Q.min_r 255 q) by exact H1. apply Q.max_r, H0.
Qed.

Lemma Qfloor_between (x : Q) (k : Z) :
  inject_Z k <= x -> x < inject_Z (k + 1) -> Qfloor x = k.
Proof.
  intros Hl Hu. apply Z.le_antisymm.
  - apply Z.lt_succ_r. rewrite Zlt_Qlt.
    eapply Qle_lt_trans; [apply Qfloor_le | exact Hu].
  - rewrite <- (Qfloor_Z k). apply Qfloor_resp_le, Hl.
Qed.

(** Rounding a clamped number gives a byte, and leaves a byte as it
    is. *)
Lemma round_range (q : Q) : (0 <= Qfloor (Qmax 0 (Qmin 255 q) + (1 # 2)) <= 255)%Z.
Proof.
  destruct (clamp_range q) as [H0 H1]. split.
  - apply Z.le_trans with (Qfloor (1 # 2)); [discriminate |].
    apply Qfloor_resp_le. lra.
  - apply Z.le_trans with (Qfloor (511 # 2)); [| discriminate].
    apply Qfloor_resp_le. lra.
Qed.

Lemma round_byte (q : Q) (k : Z) :
  (0 <= k <= 255)%Z -> q == inject_Z k -> Qfloor (Qmax 0 (Qmin 255 q) + (1 # 2)) = k.
Proof.
  intros [H0 H1] Hq.
  assert (Hlo : 0 <= q) by (rewrite Hq; change 0 with (inject_Z 0); rewrite <- Zle_Qle; lia).
  assert (Hhi : q <= 255)
    by (rewrite Hq; change 255 with (inject_Z 255); rewrite <- Zle_Qle; lia).
  pose proof (clamp_inside q Hlo Hhi) as Hc.
  apply Qfloor_between.
  - rewrite Hc, Hq. lra.
  - rewrite Hc, Hq, inject_Z_plus. change (inject_Z 1) with 1. lra.
Qed.

Lemma c_Some (q : Q) : c (Some q) = byteHex (Qfloor (Qmax 0 (Qmin 255 q) + (1 # 2))).
Proof. reflexivity. Qed.

Lemma c_byte (q : Q) (k : Z) :
  (0 <= k <= 255)%Z -> q == inject_Z k -> c (Some q) = byteHex k.
Proof. intros Hk Hq. rewrite c_Some, (round_byte q k Hk Hq). reflexivity. Qed.

End HexColours.

Section HexRoundTrip.
Import Theme.

Lemma channel_pair (d1 d2 : Z) :
  isHexDigit d1 = true -> isHexDigit d2 = true ->
  exists k, channel [d1; d2] = Some (inject_Z k) /\ (0 <= k <= 255)%Z
            /\ c (Some (inject_Z k)) = [lowerHex d1; lowerHex d2]
            /\ c (Some (Qmax 0 (Qmin 255 (inject_Z k)))) = [lowerHex d1; lowerHex d2]
            /\ Qeq_bool (Qmax 0 (Qmin 255 (inject_Z k))) 255
               = jsEqb [lowerHex d1; lowerHex d2] [102; 102]%Z.
Proof.
  intros H1 H2. destruct (pair_spec d1 d2 H1 H2) as (k & Hp & Hk & Hb & H255).
  exists k. unfold channel. rewrite Hp.
  assert (Hlo : 0 <= inject_Z k)
    by (change 0 with (inject_Z 0); rewrite <- Zle_Qle; lia).
  assert (Hhi : inject_Z k <= 255)
    by (change 255 with (inject_Z 255); rewrite <- Zle_Qle; lia).
  pose proof (clamp_inside _ Hlo Hhi) as Hc.
  repeat split; try lia.
  - rewrite (c_byte _ k Hk (Qeq_refl _)). exact Hb.
  - rewrite (c_byte _ k Hk Hc). exact Hb.
  - rewrite <- H255. destruct (Z.eqb_spec k 255) as [-> | Hne].
    + reflexivity.
    + destruct (Qeq_bool _ 255) eqn:E; [| reflexivity].
      apply Qeq_bool_iff in E. rewrite Hc in E.
      unfold Qeq, inject_Z in E. cbn [Qnum Qden] in E. lia.
Qed.

(** A colour that [HEX_RE] matches is parsed, and written back in its
    canonical form. *)
Lemma toHex_parseHex (value : jsstring) :
  HEX_RE value = true ->
  exists rgba, parseHex value = inr rgba /\ toHex rgba = canonicalHex value.
Proof.
  unfold HEX_RE. destruct value as [| u ds]; [discriminate |].
  destruct (Z.eqb_spec u 35) as [-> | Hne];
    [| destruct u as [| [p | p |] |]; try discriminate;
       repeat (destruct p as [p | p |]; try discriminate);
       exfalso; apply Hne; reflexivity].
  destruct ds as [| d0 [| d1 [| d2 [| d3 [| d4 [| d5 [| d6 [| d7 [| d8 ds]]]]]]]]];
    cbn [length Nat.eqb orb andb forallb]; try discriminate; intros H;
    repeat match type of H with
           | (_ && _) = true => let Hd := fresh "Hd" in apply andb_prop in H as [Hd H]
           end.
  - destruct (channel_pair d0 d0 Hd Hd) as (k0 & C0 & _ & B0 & _).
    destruct (channel_pair d1 d1 Hd0 Hd0) as (k1 & C1 & _ & B1 & _).
    destruct (channel_pair d2 d2 Hd1 Hd1) as (k2 & C2 & _ & B2 & _).
    eexists. split.
    + unfold parseHex. cbn [length Nat.eqb negb andb slice firstn skipn Nat.sub].
      rewrite C0, C1, C2. reflexivity.
    + unfold toHex. cbn [rgba_r rgba_g rgba_b rgba_a]. rewrite B0, B1, B2. reflexivity.
  - destruct (channel_pair d0 d1 Hd Hd0) as (k0 & C0 & _ & B0 & _).
    destruct (channel_pair d2 d3 Hd1 Hd2) as (k1 & C1 & _ & B1 & _).
    destruct (channel_pair d4 d5 Hd3 Hd4) as (k2 & C2 & _ & B2 & _).
    eexists. split.
    + unfold parseHex. cbn [length Nat.eqb negb andb slice firstn skipn Nat.sub].
      rewrite C0, C1, C2. reflexivity.
    + unfold toHex. cbn [rgba_r rgba_g rgba_b rgba_a]. rewrite B0, B1, B2. reflexivity.
  - destruct (channel_pair d0 d1 Hd Hd0) as (k0 & C0 & _ & B0 & _).
    destruct (channel_pair d2 d3 Hd1 Hd2) as (k1 & C1 & _ & B1 & _).
    destruct (channel_pair d4 d5 Hd3 Hd4) as (k2 & C2 & _ & B2 & _).
    destruct (channel_pair d6 d7 Hd5 Hd6) as (k3 & C3 & _ & _ & B3 & E3).
    eexists. split.
    + unfold parseHex. cbn [length Nat.eqb negb andb slice firstn skipn Nat.sub].
      rewrite C0, C1, C2, C3. reflexivity.
    + unfold toHex, clamp. cbn [rgba_r rgba_g rgba_b rgba_a fmap option_fmap option_map].
      rewrite B0, B1, B2, B3, E3.
      unfold canonicalHex. cbn [map skipn firstn].
      destruct (jsEqb [lowerHex d6; lowerHex d7] [102; 102]%Z); reflexivity.
Qed.

End HexRoundTrip.

Section HexBackAndForth.
Import Theme.

Lemma toHex_ofBytes (r g b : Z) (a : option Z) :
  isByte r -> isByte g -> isByte b -> (forall k, a = Some k -> isByte k) ->
  toHex (ofBytes r g b a)
  = [35%Z] ++ byteHex r ++ byteHex g ++ byteHex b
    ++ match a with
       | Some k => if (k =? 255)%Z then [] else byteHex k
       | None => []
       end.
Proof.
  intros Hr Hg Hb Ha. unfold toHex, ofBytes. cbn [rgba_r rgba_g rgba_b rgba_a].
  rewrite (c_byte _ r Hr (Qeq_refl _)), (c_byte _ g Hg (Qeq_refl _)),
    (c_byte _ b Hb (Qeq_refl _)).
  destruct a as [k |]; cbn [fmap option_fmap option_map]; [| rewrite app_nil_r; reflexivity].
  rewrite (c_byte _ k (Ha k eq_refl) (Qeq_refl _)).
  destruct (Z.eqb_spec k 255) as [-> | Hne].
  - cbn [negb]. rewrite app_nil_r. reflexivity.
  - destruct (Qeq_bool (inject_Z k) 255) eqn:E; cbn [negb];
      [| rewrite <- !app_assoc; reflexivity].
    apply Qeq_bool_iff in E. unfold Qeq, inject_Z in E. cbn [Qnum Qden] in E. lia.
Qed.

(** A colour of bytes is written as a colour that [HEX_RE] matches and
    that is read back as the same colour; an alpha of 255 is not
    written. *)
Lemma parseHex_toHex (r g b : Z) (a : option Z) :
  isByte r -> isByte g -> isByte b -> (forall k, a = Some k -> isByte k) ->
  HEX_RE (toHex (ofBytes r g b a)) = true
  /\ exists rgba,
       parseHex (toHex (ofBytes r g b a)) = inr rgba
       /\ sameColor rgba (ofBytes r g b (if bool_decide (a = Some 255%Z) then None else a)).
Proof.
  intros Hr Hg Hb Ha. rewrite (toHex_ofBytes r g b a Hr Hg Hb Ha).
  destruct (byte_spec r Hr) as (r1 & r2 & -> & R1 & R2 & _ & _ & Pr).
  destruct (byte_spec g Hg) as (g1 & g2 & -> & G1 & G2 & _ & _ & Pg).
  destruct (byte_spec b Hb) as (b1 & b2 & -> & B1 & B2 & _ & _ & Pb).
  assert (Hsix : HEX_RE ([35%Z] ++ [r1; r2] ++ [g1; g2] ++ [b1; b2] ++ []) = true
                 /\ exists rgba,
                      parseHex ([35%Z] ++ [r1; r2] ++ [g1; g2] ++ [b1; b2] ++ []) = inr rgba
                      /\ sameColor rgba (ofBytes r g b None)).
  { split.
    - cbn. rewrite R1, R2, G1, G2, B1, B2. reflexivity.
    - eexists. split.
      + unfold parseHex. cbn [app length Nat.eqb negb andb slice firstn skipn Nat.sub].
        unfold channel. rewrite Pr, Pg, Pb. reflexivity.
      + repeat split; cbn; reflexivity. }
  destruct a as [k |]; [| rewrite bool_decide_eq_false_2 by discriminate; exact Hsix].
  destruct (Z.eqb_spec k 255) as [-> | Hne].
  - rewrite bool_decide_eq_true_2 by reflexivity. exact Hsix.
  - rewrite bool_decide_eq_false_2 by congruence.
    pose proof (Ha k eq_refl) as Hk.
    destruct (byte_spec k Hk) as (a1 & a2 & -> & A1 & A2 & _ & _ & Pa).
    split.
    + cbn. rewrite R1, R2, G1, G2, B1, B2, A1, A2. reflexivity.
    + eexists. split.
      * unfold parseHex. cbn [app length Nat.eqb negb andb slice firstn skipn Nat.sub].
        unfold channel. rewrite Pr, Pg, Pb, Pa. reflexivity.
      * repeat split; cbn; try reflexivity.
        apply clamp_inside; [change 0 with (inject_Z 0) | change 255 with (inject_Z 255)];
          rewrite <- Zle_Qle; unfold isByte in Hk; lia.
Qed.

(** [parseHex] goes by the length alone. *)
Lemma parseHex_error (hex : jsstring) :
  let n := length (withoutHash hex) in
  if bool_decide (n = 3 \/ n = 6 \/ n = 8)%nat
  then exists rgba, parseHex hex = inr rgba
  else parseHex hex = inl (InvalidHexColor hex).
Proof.
  unfold parseHex. fold (withoutHash hex).
  generalize (withoutHash hex). intros h.
  destruct h as [| d0 [| d1 [| d2 [| d3 [| d4 [| d5 [| d6 [| d7 [| d8 ds]]]]]]]]];
    cbn [length];
    first [ rewrite bool_decide_eq_true_2 by lia; cbn; eauto
          | rewrite bool_decide_eq_false_2 by lia; reflexivity ].
Qed.

End HexBackAndForth.

(** X19: a colour that [HEX_RE] matches is parsed by [parseHex], and
    [toHex] writes the parsed colour back in canonical form: the three
    digits doubled, all digits in lower case, and the alpha channel left
    out when it is [ff]. *)
Theorem X19_toHex_after_parseHex_is_canonical (value : jsstring) :
  Theme.HEX_RE value = true ->
  exists rgba, Theme.parseHex value = inr rgba /\ Theme.toHex rgba = canonicalHex value.
Proof. apply toHex_parseHex. Qed.

Lemma X19_toHex_after_parseHex_is_canonical_witness :
  exists rgba,
    Theme.parseHex [35; 70; 97; 48]%Z = inr rgba
    /\ Theme.toHex rgba = [35; 102; 102; 97; 97; 48; 48]%Z.
Proof.
  apply (X19_toHex_after_parseHex_is_canonical [35; 70; 97; 48]%Z). reflexivity.
Defined.

(** X20: a colour whose channels are integers from 0 to 255 is written
    by [toHex] as a colour that [HEX_RE] matches, and [parseHex] reads it
    back with the same channels; only an alpha of 255 is lost, being left
    out of the writing. *)
Theorem X20_parseHex_after_toHex_gives_the_colour_back (r g b : Z) (a : option Z) :
  isByte r -> isByte g -> isByte b -> (forall k, a = Some k -> isByte k) ->
  Theme.HEX_RE (Theme.toHex (ofBytes r g b a)) = true
  /\ exists rgba,
       Theme.parseHex (Theme.toHex (ofBytes r g b a)) = inr rgba
       /\ sameColor rgba (ofBytes r g b (if bool_decide (a = Some 255%Z) then None else a)).
Proof. apply parseHex_toHex. Qed.

Lemma X20_parseHex_after_toHex_gives_the_colour_back_witness :
  Theme.HEX_RE (Theme.toHex (ofBytes 39 39 42 (Some 128%Z))) = true
  /\ exists rgba,
       Theme.parseHex (Theme.toHex (ofBytes 39 39 42 (Some 128%Z))) = inr rgba
       /\ sameColor rgba (ofBytes 39 39 42 (Some 128%Z)).
Proof.
  apply (X20_parseHex_after_toHex_gives_the_colour_back 39 39 42 (Some 128%Z));
    unfold isByte; try lia.
  intros k [= <-]. lia.
Defined.

(** [parseInt(s, 16)] is [NaN] when no number starts with the first code
    unit of [s], whatever follows. *)
Lemma parseInt16_NaN (u : Z) (rest : jsstring) :
  startsNoNumber u = true -> Theme.parseInt16 (u :: rest) = None.
Proof.
  unfold startsNoNumber. rewrite negb_true_iff, !orb_false_iff.
  intros [[[Hd Hw] Hp] Hm].
  apply Z.eqb_neq in Hp. apply Z.eqb_neq in Hm.
  unfold Theme.parseInt16. cbn [JS.trimStart]. rewrite Hw.
  destruct (Z.eqb_spec u 48) as [-> | H48]; [discriminate Hd |].
  destruct u as [| p | p]; try (rewrite Hd; reflexivity).
  repeat (destruct p as [p | p |]; try (rewrite Hd; reflexivity); try lia).
Qed.

(** X21: [parseHex] throws exactly when the colour, without the [#] it
    may start with, is not 3, 6 or 8 code units long, and then with the
    colour in the message; it never throws for what the code units are:
    a colour of six code units, with or without the [#], is parsed, and
    each of its three channels is [NaN] as soon as the first of its two
    code units is no hex digit, white space or sign, whatever the
    second; so six code units that are no hex digits, white space or
    signs are parsed to channels that are all [NaN]. *)
Theorem X21_parseHex_throws_by_length_alone :
  (forall hex,
     let n := length (withoutHash hex) in
     if bool_decide (n = 3 \/ n = 6 \/ n = 8)%nat
     then exists rgba, Theme.parseHex hex = inr rgba
     else Theme.parseHex hex = inl (Theme.InvalidHexColor hex))
  /\ (forall hex u1 u2 u3 u4 u5 u6,
        withoutHash hex = [u1; u2; u3; u4; u5; u6] ->
        exists r g b,
          Theme.parseHex hex = inr (Theme.mkRGBA r g b None)
          /\ (startsNoNumber u1 = true -> r = None)
          /\ (startsNoNumber u3 = true -> g = None)
          /\ (startsNoNumber u5 = true -> b = None))
  /\ (forall hex u1 u2 u3 u4 u5 u6,
        withoutHash hex = [u1; u2; u3; u4; u5; u6] ->
        startsNoNumber u1 = true -> startsNoNumber u2 = true ->
        startsNoNumber u3 = true -> startsNoNumber u4 = true ->
        startsNoNumber u5 = true -> startsNoNumber u6 = true ->
        Theme.parseHex hex = inr (Theme.mkRGBA None None None None)).
Proof.
  assert (Hsix : forall hex u1 u2 u3 u4 u5 u6,
            withoutHash hex = [u1; u2; u3; u4; u5; u6] ->
            Theme.parseHex hex
            = inr (Theme.mkRGBA (Theme.channel [u1; u2]) (Theme.channel [u3; u4])
                                (Theme.channel [u5; u6]) None)).
  { intros hex u1 u2 u3 u4 u5 u6 Hh. unfold Theme.parseHex.
    fold (withoutHash hex). rewrite Hh. reflexivity. }
  split; [exact parseHex_error |]. split.
  - intros hex u1 u2 u3 u4 u5 u6 Hh. do 3 eexists.
    split; [apply (Hsix hex u1 u2 u3 u4 u5 u6 Hh) |].
    unfold Theme.channel.
    split; [| split]; intros H; rewrite (parseInt16_NaN _ _ H); reflexivity.
  - intros hex u1 u2 u3 u4 u5 u6 Hh H1 _ H3 _ H5 _.
    rewrite (Hsix hex u1 u2 u3 u4 u5 u6 Hh). unfold Theme.channel.
    rewrite (parseInt16_NaN _ _ H1), (parseInt16_NaN _ _ H3), (parseInt16_NaN _ _ H5).
    reflexivity.
Qed.

Section ColorMix.
Import Theme.

Lemma clamp_compat (p q : Q) : p == q -> Qmax 0 (Qmin 255 p) == Qmax 0 (Qmin 255 q).
Proof. intros H. rewrite H. reflexivity. Qed.

Lemma byte_in_range (k : Z) : isByte k -> 0 <= inject_Z k /\ inject_Z k <= 255.
Proof.
  intros [H0 H1]. split.
  - change 0 with (inject_Z 0). rewrite <- Zle_Qle. exact H0.
  - change 255 with (inject_Z 255). rewrite <- Zle_Qle. exact H1.
Qed.

Lemma is255_byte (q : Q) (k : Z) : q == inject_Z k -> Qeq_bool q 255 = (k =? 255)%Z.
Proof.
  intros Hq. destruct (Z.eqb_spec k 255) as [-> | Hne].
  - apply Qeq_bool_iff. exact Hq.
  - destruct (Qeq_bool q 255) eqn:E; [| reflexivity].
    apply Qeq_bool_iff in E. rewrite Hq in E.
    unfold Qeq, inject_Z in E. cbn [Qnum Qden] in E. lia.
Qed.

(** What [toHex] writes for a colour that holds bytes. *)
Lemma toHex_holdsBytes (x : RGBA) r g b a :
  holdsBytes x r g b a -> toHex x = writtenHex r g b a.
Proof.
  destruct x as [xr xg xb xa]. unfold holdsBytes. cbn [rgba_r rgba_g rgba_b rgba_a].
  intros (Hr & Hg & Hb & Sr & Sg & Sb & Sa).
  destruct xr as [qr |], xg as [qg |], xb as [qb |]; cbn [sameNum] in *; try contradiction.
  unfold toHex, writtenHex. cbn [rgba_r rgba_g rgba_b rgba_a].
  rewrite (c_byte qr r Hr Sr), (c_byte qg g Hg Sg), (c_byte qb b Hb Sb).
  destruct xa as [alpha |], a as [k |]; try contradiction; cbn [alphaHex].
  - destruct Sa as [Hk Sa]. destruct alpha as [qa |]; cbn [sameNum] in Sa; [| contradiction].
    rewrite (is255_byte qa k Sa), (c_byte qa k Hk Sa).
    destruct (k =? 255)%Z; cbn [negb]; [rewrite app_nil_r | rewrite <- !app_assoc];
      reflexivity.
  - rewrite app_nil_r. reflexivity.
Qed.

Lemma byteHex_digits (k : Z) :
  isByte k -> exists d1 d2, byteHex k = [d1; d2]
                            /\ isHexDigit d1 = true /\ isHexDigit d2 = true.
Proof.
  intros Hk. destruct (byte_spec k Hk) as (d1 & d2 & E & H1 & H2 & _). eauto.
Qed.

Lemma writtenHex_valid r g b a :
  isByte r -> isByte g -> isByte b -> (forall k, a = Some k -> isByte k) ->
  HEX_RE (writtenHex r g b a) = true.
Proof.
  intros Hr Hg Hb Ha. unfold writtenHex.
  destruct (byteHex_digits r Hr) as (r1 & r2 & -> & R1 & R2).
  destruct (byteHex_digits g Hg) as (g1 & g2 & -> & G1 & G2).
  destruct (byteHex_digits b Hb) as (b1 & b2 & -> & B1 & B2).
  destruct a as [k |]; cbn [alphaHex]; [destruct (k =? 255)%Z |];
    try (cbn; rewrite R1, R2, G1, G2, B1, B2; reflexivity).
  destruct (byteHex_digits k (Ha k eq_refl)) as (a1 & a2 & -> & A1 & A2).
  cbn. rewrite R1, R2, G1, G2, B1, B2, A1, A2. reflexivity.
Qed.

(** Any numbers that are not [NaN] are written as a colour that holds
    bytes: the channels clamped and rounded. *)
Lemma numbers_hold_bytes (qr qg qb : Q) (alpha : option Q) :
  let round q := Qfloor (Qmax 0 (Qmin 255 q) + (1 # 2)) in
  toHex (mkRGBA (Some qr) (Some qg) (Some qb) (Some <$> alpha))
  = [35%Z] ++ byteHex (round qr) ++ byteHex (round qg) ++ byteHex (round qb)
    ++ match alpha with
       | Some qa => if Qeq_bool qa 255 then [] else byteHex (round qa)
       | None => []
       end.
Proof.
  intros round. unfold toHex. cbn [rgba_r rgba_g rgba_b rgba_a].
  rewrite !c_Some. fold (round qr) (round qg) (round qb).
  destruct alpha as [qa |]; cbn [fmap option_fmap option_map];
    [| rewrite app_nil_r; reflexivity].
  rewrite c_Some. fold (round qa).
  destruct (Qeq_bool qa 255); cbn [negb]; [rewrite app_nil_r | rewrite <- !app_assoc];
    reflexivity.
Qed.

Lemma numbers_written_valid (qr qg qb : Q) (alpha : option Q) :
  HEX_RE (toHex (mkRGBA (Some qr) (Some qg) (Some qb) (Some <$> alpha))) = true.
Proof.
  rewrite numbers_hold_bytes.
  destruct (byteHex_digits _ (round_range qr)) as (r1 & r2 & -> & R1 & R2).
  destruct (byteHex_digits _ (round_range qg)) as (g1 & g2 & -> & G1 & G2).
  destruct (byteHex_digits _ (round_range qb)) as (b1 & b2 & -> & B1 & B2).
  destruct alpha as [qa |]; [destruct (Qeq_bool qa 255) |];
    try (cbn; rewrite R1, R2, G1, G2, B1, B2; reflexivity).
  destruct (byteHex_digits _ (round_range qa)) as (a1 & a2 & -> & A1 & A2).
  cbn. rewrite R1, R2, G1, G2, B1, B2, A1, A2. reflexivity.
Qed.

(** What [parseHex] makes of a colour that [HEX_RE] matches. *)
Lemma parseHex_valid (value : jsstring) :
  HEX_RE value = true ->
  exists x r g b a,
    parseHex value = inr x /\ holdsBytes x r g b a
    /\ (exists qr qg qb, rgba_r x = Some qr /\ rgba_g x = Some qg /\ rgba_b x = Some qb)
    /\ (forall alpha, rgba_a x = Some alpha -> exists qa, alpha = Some qa)
    /\ canonicalHex value = writtenHex r g b a.
Proof.
  intros Hv. destruct (toHex_parseHex value Hv) as (x & Hx & Hc).
  revert Hv Hx Hc. unfold HEX_RE. destruct value as [| u ds]; [discriminate |].
  destruct (Z.eqb_spec u 35) as [-> | Hne];
    [| destruct u as [| [p | p |] |]; try discriminate;
       repeat (destruct p as [p | p |]; try discriminate);
       exfalso; apply Hne; reflexivity].
  destruct ds as [| d0 [| d1 [| d2 [| d3 [| d4 [| d5 [| d6 [| d7 [| d8 ds]]]]]]]]];
    cbn [length Nat.eqb orb andb forallb]; try discriminate; intros H;
    repeat match type of H with
           | (_ && _) = true => let Hd := fresh "Hd" in apply andb_prop in H as [Hd H]
           end;
    unfold parseHex; cbn [length Nat.eqb negb andb slice firstn skipn Nat.sub].
  - destruct (channel_pair d0 d0 Hd Hd) as (k0 & C0 & K0 & _).
    destruct (channel_pair d1 d1 Hd0 Hd0) as (k1 & C1 & K1 & _).
    destruct (channel_pair d2 d2 Hd1 Hd1) as (k2 & C2 & K2 & _).
    rewrite C0, C1, C2. intros [= <-] Hc.
    assert (Hh : holdsBytes (mkRGBA (Some (inject_Z k0)) (Some (inject_Z k1))
                                    (Some (inject_Z k2)) None) k0 k1 k2 None)
      by (repeat split; cbn; try reflexivity; unfold isByte in *; lia).
    exists (mkRGBA (Some (inject_Z k0)) (Some (inject_Z k1)) (Some (inject_Z k2)) None),
      k0, k1, k2, None.
    split; [reflexivity |]. split; [exact Hh |].
    split; [do 3 eexists; repeat split |].
    split; [intros alpha Ha; discriminate Ha |].
    rewrite <- Hc. apply toHex_holdsBytes, Hh.
  - destruct (channel_pair d0 d1 Hd Hd0) as (k0 & C0 & K0 & _).
    destruct (channel_pair d2 d3 Hd1 Hd2) as (k1 & C1 & K1 & _).
    destruct (channel_pair d4 d5 Hd3 Hd4) as (k2 & C2 & K2 & _).
    rewrite C0, C1, C2. intros [= <-] Hc.
    assert (Hh : holdsBytes (mkRGBA (Some (inject_Z k0)) (Some (inject_Z k1))
                                    (Some (inject_Z k2)) None) k0 k1 k2 None)
      by (repeat split; cbn; try reflexivity; unfold isByte in *; lia).
    exists (mkRGBA (Some (inject_Z k0)) (Some (inject_Z k1)) (Some (inject_Z k2)) None),
      k0, k1, k2, None.
    split; [reflexivity |]. split; [exact Hh |].
    split; [do 3 eexists; repeat split |].
    split; [intros alpha Ha; discriminate Ha |].
    rewrite <- Hc. apply toHex_holdsBytes, Hh.
  - destruct (channel_pair d0 d1 Hd Hd0) as (k0 & C0 & K0 & _).
    destruct (channel_pair d2 d3 Hd1 Hd2) as (k1 & C1 & K1 & _).
    destruct (channel_pair d4 d5 Hd3 Hd4) as (k2 & C2 & K2 & _).
    destruct (channel_pair d6 d7 Hd5 Hd6) as (k3 & C3 & K3 & _).
    rewrite C0, C1, C2, C3. intros [= <-] Hc.
    assert (Hh : holdsBytes
                   (mkRGBA (Some (inject_Z k0)) (Some (inject_Z k1)) (Some (inject_Z k2))
                           (Some (clamp (Some (inject_Z k3))))) k0 k1 k2 (Some k3)).
    { repeat split; cbn; try reflexivity; unfold isByte in *; try lia.
      destruct (byte_in_range k3 K3). apply clamp_inside; assumption. }
    eexists _, k0, k1, k2, (Some k3).
    split; [reflexivity |]. split; [exact Hh |].
    split; [do 3 eexists; repeat split |].
    split; [intros alpha Ha; injection Ha as <-; eexists; reflexivity |].
    rewrite <- Hc. apply toHex_holdsBytes, Hh.
Qed.

End ColorMix.

Section ColorMixValid.
Import Theme.

Lemma colorMix_valid (fg bg : jsstring) (pct : Q) :
  HEX_RE fg = true -> HEX_RE bg = true ->
  exists out, colorMix fg bg pct = inr out /\ HEX_RE out = true.
Proof.
  intros Hf Hb.
  destruct (parseHex_valid fg Hf)
    as (xf & rf & gf & bf & af & Pf & _ & (qrf & qgf & qbf & F1 & F2 & F3) & Af & _).
  destruct (parseHex_valid bg Hb)
    as (xb & rb & gb & bb & ab & Pb & _ & (qrb & qgb & qbb & B1 & B2 & B3) & Ab & _).
  unfold colorMix. rewrite Pf, Pb, F1, F2, F3, B1, B2, B3. cbn [mix].
  destruct (rgba_a xf) as [alf |], (rgba_a xb) as [alb |];
    try (destruct (Af alf eq_refl) as [qaf ->]);
    try (destruct (Ab alb eq_refl) as [qab ->]);
    cbn [default mix clamp fmap option_fmap option_map];
    eexists; (split; [reflexivity |]).
  - apply (numbers_written_valid _ _ _ (Some _)).
  - apply (numbers_written_valid _ _ _ (Some _)).
  - apply (numbers_written_valid _ _ _ (Some _)).
  - apply (numbers_written_valid _ _ _ None).
Qed.

Lemma clamp_to_byte (q : Q) (k : Z) :
  isByte k -> q == inject_Z k -> Qmax 0 (Qmin 255 q) == inject_Z k.
Proof.
  intros Hk Hq. destruct (byte_in_range k Hk).
  rewrite (clamp_compat q (inject_Z k) Hq). apply clamp_inside; assumption.
Qed.

(** With all of the foreground, or none of it, the mix is the
    foreground, or the background, in canonical form. *)
Lemma colorMix_ends (fg bg : jsstring) (pct : Q) :
  HEX_RE fg = true -> HEX_RE bg = true ->
  (pct / 100 == 1 -> colorMix fg bg pct = inr (canonicalHex fg))
  /\ (pct / 100 == 0 -> colorMix fg bg pct = inr (canonicalHex bg)).
Proof.
  intros Hf Hb.
  destruct (parseHex_valid fg Hf)
    as (xf & rf & gf & bf & af & Pf & Bf & (qrf & qgf & qbf & F1 & F2 & F3) & Af & Cf).
  destruct (parseHex_valid bg Hb)
    as (xb & rb & gb & bb & ab & Pb & Bb & (qrb & qgb & qbb & B1 & B2 & B3) & Ab & Cb).
  destruct Bf as (Rf & Gf & Blf & Sf1 & Sf2 & Sf3 & Sfa).
  destruct Bb as (Rb & Gb & Blb & Sb1 & Sb2 & Sb3 & Sba).
  rewrite F1 in Sf1. rewrite F2 in Sf2. rewrite F3 in Sf3.
  rewrite B1 in Sb1. rewrite B2 in Sb2. rewrite B3 in Sb3.
  cbn [sameNum] in Sf1, Sf2, Sf3, Sb1, Sb2, Sb3.
  unfold colorMix. rewrite Pf, Pb, F1, F2, F3, B1, B2, B3, Cf, Cb. cbn [mix].
  assert (H255 : isByte 255) by (unfold isByte; lia).
  assert (Q255 : 255 == inject_Z 255) by reflexivity.
  destruct (rgba_a xf) as [alf |], af as [kf |]; try contradiction;
    destruct (rgba_a xb) as [alb |], ab as [kb |]; try contradiction;
    repeat match goal with
           | H : isByte _ /\ sameNum _ _ |- _ => destruct H
           | H : forall alpha, Some ?x = Some alpha -> _ |- _ =>
               destruct (H x eq_refl) as [? ->]; clear H
           end;
    cbn [default mix clamp fmap option_fmap option_map sameNum] in *;
    (split; intros Ht; f_equal).
  - apply (toHex_holdsBytes _ rf gf bf (Some kf)).
    unfold holdsBytes. cbn [rgba_r rgba_g rgba_b rgba_a sameNum].
    split; [assumption |]. split; [assumption |]. split; [assumption |].
    split; [rewrite Ht; lra |]. split; [rewrite Ht; lra |]. split; [rewrite Ht; lra |].
    split; [assumption |]. apply clamp_to_byte; [assumption |]. rewrite Ht. lra.
  - apply (toHex_holdsBytes _ rb gb bb (Some kb)).
    unfold holdsBytes. cbn [rgba_r rgba_g rgba_b rgba_a sameNum].
    split; [assumption |]. split; [assumption |]. split; [assumption |].
    split; [rewrite Ht; lra |]. split; [rewrite Ht; lra |]. split; [rewrite Ht; lra |].
    split; [assumption |]. apply clamp_to_byte; [assumption |]. rewrite Ht. lra.
  - apply (toHex_holdsBytes _ rf gf bf (Some kf)).
    unfold holdsBytes. cbn [rgba_r rgba_g rgba_b rgba_a sameNum].
    split; [assumption |]. split; [assumption |]. split; [assumption |].
    split; [rewrite Ht; lra |]. split; [rewrite Ht; lra |]. split; [rewrite Ht; lra |].
    split; [assumption |]. apply clamp_to_byte; [assumption |]. rewrite Ht. lra.
  - change (writtenHex rb gb bb None) with (writtenHex rb gb bb (Some 255%Z)).
    apply (toHex_holdsBytes _ rb gb bb (Some 255%Z)).
    unfold holdsBytes. cbn [rgba_r rgba_g rgba_b rgba_a sameNum].
    split; [assumption |]. split; [assumption |]. split; [assumption |].
    split; [rewrite Ht; lra |]. split; [rewrite Ht; lra |]. split; [rewrite Ht; lra |].
    split; [assumption |]. apply clamp_to_byte; [assumption |]. rewrite Ht. lra.
  - change (writtenHex rf gf bf None) with (writtenHex rf gf bf (Some 255%Z)).
    apply (toHex_holdsBytes _ rf gf bf (Some 255%Z)).
    unfold holdsBytes. cbn [rgba_r rgba_g rgba_b rgba_a sameNum].
    split; [assumption |]. split; [assumption |]. split; [assumption |].
    split; [rewrite Ht; lra |]. split; [rewrite Ht; lra |]. split; [rewrite Ht; lra |].
    split; [assumption |]. apply clamp_to_byte; [assumption |]. rewrite Ht. lra.
  - apply (toHex_holdsBytes _ rb gb bb (Some kb)).
    unfold holdsBytes. cbn [rgba_r rgba_g rgba_b rgba_a sameNum].
    split; [assumption |]. split; [assumption |]. split; [assumption |].
    split; [rewrite Ht; lra |]. split; [rewrite Ht; lra |]. split; [rewrite Ht; lra |].
    split; [assumption |]. apply clamp_to_byte; [assumption |]. rewrite Ht. lra.
  - apply (toHex_holdsBytes _ rf gf bf None).
    unfold holdsBytes. cbn [rgba_r rgba_g rgba_b rgba_a sameNum].
    split; [assumption |]. split; [assumption |]. split; [assumption |].
    split; [rewrite Ht; lra |]. split; [rewrite Ht; lra |]. split; [rewrite Ht; lra |].
    exact I.
  - apply (toHex_holdsBytes _ rb gb bb None).
    unfold holdsBytes. cbn [rgba_r rgba_g rgba_b rgba_a sameNum].
    split; [assumption |]. split; [assumption |]. split; [assumption |].
    split; [rewrite Ht; lra |]. split; [rewrite Ht; lra |]. split; [rewrite Ht; lra |].
    exact I.
Qed.

End ColorMixValid.

(** X22: for two colours that [HEX_RE] matches, [colorMix] never throws
    and returns, at any percentage, a colour that [HEX_RE] matches; at
    100 per cent it is the foreground and at 0 per cent the background,
    each in canonical form. *)
Theorem X22_colorMix_of_valid_colours (fg bg : jsstring) :
  Theme.HEX_RE fg = true -> Theme.HEX_RE bg = true ->
  (forall pct, exists out, Theme.colorMix fg bg pct = inr out /\ Theme.HEX_RE out = true)
  /\ Theme.colorMix fg bg 100 = inr (canonicalHex fg)
  /\ Theme.colorMix fg bg 0 = inr (canonicalHex bg).
Proof.
  intros Hf Hb. split; [intros pct; apply colorMix_valid; assumption |].
  split.
  - apply (colorMix_ends fg bg 100 Hf Hb). reflexivity.
  - apply (colorMix_ends fg bg 0 Hf Hb). reflexivity.
Qed.

Lemma X22_colorMix_of_valid_colours_witness :
  Theme.colorMix [35; 50; 55; 50; 55; 50; 65]%Z [35; 70; 70; 70]%Z 100
  = inr [35; 50; 55; 50; 55; 50; 97]%Z
  /\ Theme.colorMix [35; 50; 55; 50; 55; 50; 65]%Z [35; 70; 70; 70]%Z 0
     = inr [35; 102; 102; 102; 102; 102; 102]%Z.
Proof.
  destruct (X22_colorMix_of_valid_colours
              [35; 50; 55; 50; 55; 50; 65]%Z [35; 70; 70; 70]%Z eq_refl eq_refl)
    as (_ & H100 & H0).
  split; [exact H100 | exact H0].
Defined.

(** ** The resolved palette *)

Section ResolveColors.
Import Theme.

Variable colors : DiagramColors.
Hypothesis bg_valid : HEX_RE (dc_bg colors) = true.
Hypothesis fg_valid : HEX_RE (dc_fg colors) = true.

Lemma resolveRule_valid rule value :
  resolveRule colors rule = inr value -> HEX_RE value = true.
Proof.
  unfold resolveRule, mixed, validateHexColor.
  assert (Hmix : forall pct v, colorMix (dc_fg colors) (dc_bg colors) pct = inr v ->
                               HEX_RE v = true).
  { intros pct v Hv.
    destruct (colorMix_valid (dc_fg colors) (dc_bg colors) pct fg_valid bg_valid)
      as (out & Hout & Hre).
    rewrite Hv in Hout. injection Hout as <-. exact Hre. }
  destruct (source rule) as [[|] |]; [intros [= <-]; assumption .. |].
  destruct (override rule) as [key |]; [| apply Hmix].
  destruct (C4Layout.truthy (colorOf colors key)) as [v |]; [| apply Hmix].
  destruct (HEX_RE v) eqn:E; cbn [negb]; [| discriminate].
  intros [= <-]. exact E.
Qed.

Lemma truthy_Some (s : option jsstring) (v : jsstring) :
  C4Layout.truthy s = Some v -> s = Some v.
Proof. destruct s as [[| u t] |]; cbn; congruence. Qed.

Lemma resolveRule_error rule e :
  resolveRule colors rule = inl e ->
  exists key value,
    override rule = Some key /\ colorOf colors key = Some value
    /\ HEX_RE value = false /\ e = InvalidColor (keyName key) value.
Proof.
  unfold resolveRule, mixed, validateHexColor.
  assert (Hmix : forall pct, colorMix (dc_fg colors) (dc_bg colors) pct <> inl e).
  { intros pct He.
    destruct (colorMix_valid (dc_fg colors) (dc_bg colors) pct fg_valid bg_valid)
      as (out & Hout & _).
    rewrite He in Hout. discriminate. }
  destruct (source rule) as [[|] |]; try discriminate.
  destruct (override rule) as [key |]; [| intros H; destruct (Hmix _ H)].
  destruct (C4Layout.truthy (colorOf colors key)) as [v |] eqn:Ev;
    [| intros H; destruct (Hmix _ H)].
  destruct (HEX_RE v) eqn:E; cbn [negb]; [discriminate |].
  intros [= <-]. exists key, v. apply truthy_Some in Ev. repeat split; assumption.
Qed.

Lemma In_setProp result key value k v :
  In (k, v) (setProp result key value) -> (k, v) = (key, value) \/ In (k, v) result.
Proof.
  unfold setProp. destruct (existsb _ result).
  - intros Hin. apply in_map_iff in Hin as ([k' v'] & Heq & Hin). cbn [fst] in Heq.
    destruct (String.eqb k' key); [left; symmetry; exact Heq |].
    right. rewrite <- Heq. exact Hin.
  - intros Hin. apply in_app_or in Hin as [Hin | [Hin | []]]; [right | left]; auto.
Qed.

Lemma keys_setProp result key value :
  map fst (setProp result key value)
  = if existsb (String.eqb key) (map fst result) then map fst result
    else map fst result ++ [key].
Proof.
  unfold setProp.
  assert (E : existsb (fun entry => String.eqb (fst entry) key) result
              = existsb (String.eqb key) (map fst result)).
  { induction result as [| [k v] result IH]; [reflexivity |].
    cbn [existsb map fst]. rewrite IH, (String.eqb_sym k key). reflexivity. }
  rewrite E. destruct (existsb (String.eqb key) (map fst result)).
  - rewrite map_map. apply map_ext_in. intros [k v] _. cbn [fst].
    destruct (String.eqb_spec k key) as [-> |]; reflexivity.
  - rewrite map_app. reflexivity.
Qed.

Lemma resolveRules_spec rules : forall result out,
  resolveRules colors rules result = inr out ->
  (forall k v, In (k, v) result -> HEX_RE v = true) ->
  (forall k v, In (k, v) out -> HEX_RE v = true)
  /\ map fst out
     = fold_left (fun keys key => if existsb (String.eqb key) keys then keys
                                  else keys ++ [key])
                 (map cssVar rules) (map fst result).
Proof.
  induction rules as [| rule rules IH]; intros result out Hout Hres;
    cbn [resolveRules map fold_left] in *.
  - injection Hout as <-. auto.
  - destruct (resolveRule colors rule) as [e | value] eqn:Hrule; [discriminate |].
    rewrite <- (keys_setProp result (cssVar rule) value). apply IH; [exact Hout |].
    intros k v Hin. apply In_setProp in Hin as [[= -> ->] | Hin].
    + eapply resolveRule_valid, Hrule.
    + eapply Hres, Hin.
Qed.

Lemma resolveRules_error rules : forall result e,
  resolveRules colors rules result = inl e ->
  exists key value,
    colorOf colors key = Some value
    /\ HEX_RE value = false /\ e = InvalidColor (keyName key) value.
Proof.
  induction rules as [| rule rules IH]; intros result e He; cbn [resolveRules] in He;
    [discriminate |].
  destruct (resolveRule colors rule) as [e' | value] eqn:Hrule.
  - injection He as <-.
    destruct (resolveRule_error rule e' Hrule) as (key & value & _ & H1 & H2 & H3).
    eauto.
  - eapply IH, He.
Qed.

End ResolveColors.

(** X23: when [resolveColors] returns, the palette has the key [bg] and
    the 12 variables of the graph, in the order of the graph, and every
    value of it is a colour that [HEX_RE] matches; when it throws, it is
    for [bg], [fg] or an enrichment colour that [HEX_RE] does not match,
    with the name of that colour and its value in the message, never
    from within [colorMix]. *)
Theorem X23_resolveColors_gives_hex_colours (colors : Theme.DiagramColors) :
  match Theme.resolveColors colors with
  | inr palette =>
      Theme.HEX_RE (Theme.dc_bg colors) = true
      /\ Theme.HEX_RE (Theme.dc_fg colors) = true
      /\ map fst palette = "bg"%string :: map Theme.cssVar Theme.COLOR_GRAPH
      /\ (forall k v, In (k, v) palette -> Theme.HEX_RE v = true)
  | inl e =>
      exists key value,
        Theme.colorOf colors key = Some value
        /\ Theme.HEX_RE value = false
        /\ e = Theme.InvalidColor (Theme.keyName key) value
  end.
Proof.
  unfold Theme.resolveColors, Theme.validateHexColor.
  destruct (Theme.HEX_RE (Theme.dc_bg colors)) eqn:Hb; cbn [negb].
  - destruct (Theme.HEX_RE (Theme.dc_fg colors)) eqn:Hf; cbn [negb].
    + destruct (Theme.resolveRules colors Theme.COLOR_GRAPH
                  [("bg"%string, Theme.dc_bg colors)]) as [e | palette] eqn:Hr.
      * eapply (resolveRules_error colors Hb Hf), Hr.
      * destruct (resolveRules_spec colors Hb Hf _ _ _ Hr) as [Hv Hk].
        { intros k v [[= <- <-] | []]. exact Hb. }
        repeat split; [| exact Hv]. rewrite Hk. vm_compute. reflexivity.
    + exists Theme.key_fg, (Theme.dc_fg colors). repeat split. exact Hf.
  - exists Theme.key_bg, (Theme.dc_bg colors). repeat split. exact Hb.
Qed.

(** ** Characters outside the Basic Multilingual Plane in the ASCII widths *)

Section AsciiWidths.
Import AsciiWidth.

Lemma in_range_out lo hi code :
  (code < lo \/ hi < code)%Z -> in_range lo hi code = false.
Proof.
  intros H. unfold in_range. apply andb_false_iff.
  destruct H; [left | right]; apply Z.leb_gt; assumption.
Qed.

Lemma in_range_in lo hi code : (lo <= code <= hi)%Z -> in_range lo hi code = true.
Proof.
  intros [H1 H2]. unfold in_range. apply andb_true_iff. split; apply Z.leb_le; assumption.
Qed.

Lemma surrogate_bounds lead trail :
  isLeadSurrogate lead = true -> isTrailSurrogate trail = true ->
  (0xD800 <= lead <= 0xDBFF)%Z /\ (0xDC00 <= trail <= 0xDFFF)%Z.
Proof.
  unfold isLeadSurrogate, isTrailSurrogate, in_range.
  rewrite !andb_true_iff, !Z.leb_le. tauto.
Qed.

(** A character that starts with a surrogate is no CJK character for
    [isCJK], whatever it writes. *)
Lemma isCJK_surrogate (u : Z) (rest : jsstring) :
  (0xD800 <= u <= 0xDFFF)%Z -> isCJK (u :: rest) = false.
Proof.
  intros Hu. unfold isCJK. cbn [length Nat.eqb charCodeAt0 existsb CJK_RANGES fst snd].
  rewrite !in_range_out by lia. reflexivity.
Qed.

End AsciiWidths.

(** X24: a character outside the Basic Multilingual Plane, written as a
    lead and a trail surrogate, counts 1 column in [getDisplayWidth] of
    the CJK widths, also when its code point lies in one of the listed
    ranges (the three ranges from U+20000 on never match, [isCJK] looking
    at the first code unit only); [displayWidth] reads the code point and
    counts 2 columns from U+1F000 to U+1FAFF and from U+20000 to
    U+2FA1F, and 1 column for the other pairs. *)
Theorem X24_astral_characters_in_the_ascii_widths (lead trail : Z) :
  isLeadSurrogate lead = true -> isTrailSurrogate trail = true ->
  AsciiWidth.codePointAt0 [lead; trail] = pairCodePoint lead trail
  /\ (0x10000 <= pairCodePoint lead trail <= 0x10FFFF)%Z
  /\ AsciiWidth.getDisplayWidth [lead; trail] = 1%Z
  /\ AsciiWidth.displayWidth [lead; trail]
     = (if in_range 0x1f000 0x1faff (pairCodePoint lead trail)
           || in_range 0x20000 0x2fa1f (pairCodePoint lead trail)
        then 2 else 1)%Z
  /\ ((0x20000 <= pairCodePoint lead trail <= 0x2A6DF)%Z ->
      inRanges AsciiWidth.CJK_RANGES (pairCodePoint lead trail)
      /\ AsciiWidth.displayWidth [lead; trail] = 2%Z).
Proof.
  intros Hl Ht. destruct (surrogate_bounds lead trail Hl Ht) as [Bl Bt].
  assert (Hcp : AsciiWidth.codePointAt0 [lead; trail] = pairCodePoint lead trail).
  { unfold AsciiWidth.codePointAt0, pairCodePoint. rewrite Hl, Ht. cbn [andb]. lia. }
  assert (Hrange : (0x10000 <= pairCodePoint lead trail <= 0x10FFFF)%Z)
    by (unfold pairCodePoint; lia).
  assert (Hwide : AsciiWidth.displayWidth [lead; trail]
                  = (if in_range 0x1f000 0x1faff (pairCodePoint lead trail)
                        || in_range 0x20000 0x2fa1f (pairCodePoint lead trail)
                     then 2 else 1)%Z).
  { unfold AsciiWidth.displayWidth. cbn [chars]. rewrite Hl, Ht.
    cbn [andb fold_left]. unfold AsciiWidth.isWideChar. rewrite Hcp.
    rewrite (in_range_out 0x1100 0x115f), (in_range_out 0x2e80 0x303e),
      (in_range_out 0x3040 0x33bf), (in_range_out 0x3400 0x4dbf),
      (in_range_out 0x4e00 0x9fff), (in_range_out 0xa960 0xa97c),
      (in_range_out 0xac00 0xd7a3), (in_range_out 0xf900 0xfaff),
      (in_range_out 0xfe10 0xfe19), (in_range_out 0xfe30 0xfe6f),
      (in_range_out 0xff00 0xff60), (in_range_out 0xffe0 0xffe6) by lia.
    cbn [orb]. reflexivity. }
  split; [exact Hcp |]. split; [exact Hrange |]. split; [| split; [exact Hwide |]].
  - unfold AsciiWidth.getDisplayWidth. cbn [chars]. rewrite Hl, Ht.
    cbn [andb fold_left]. rewrite isCJK_surrogate by lia. reflexivity.
  - intros Hb. split.
    + exists (0x20000, 0x2A6DF)%Z. split; [cbn; tauto | exact Hb].
    + rewrite Hwide, (in_range_in 0x20000 0x2fa1f) by lia.
      rewrite orb_true_r. reflexivity.
Qed.

Lemma X24_astral_characters_in_the_ascii_widths_witness :
  AsciiWidth.getDisplayWidth grinningFace = 1%Z
  /\ AsciiWidth.displayWidth grinningFace = 2%Z.
Proof.
  destruct (X24_astral_characters_in_the_ascii_widths 0xd83d 0xde00 eq_refl eq_refl)
    as (_ & _ & H1 & H2 & _).
  split; [exact H1 | exact H2].
Defined.

Section ColorMixBetween.
Import Theme.

(** A mix of two numbers lies between them. *)
Lemma mix_between (t f b : Q) :
  0 <= t -> t <= 1 -> Qmin f b <= b + t * (f - b) /\ b + t * (f - b) <= Qmax f b.
Proof.
  intros H0 H1. destruct (Qlt_le_dec f b) as [Hlt | Hle].
  - rewrite (Q.min_l f b), (Q.max_r f b) by lra.
    assert (Ha : 0 <= t * (b - f)) by (apply Qmult_le_0_compat; lra).
    assert (Hb : t * (b - f) <= 1 * (b - f)) by (apply Qmult_le_compat_r; lra).
    split; lra.
  - rewrite (Q.min_r f b), (Q.max_l f b) by lra.
    assert (Ha : 0 <= t * (f - b)) by (apply Qmult_le_0_compat; lra).
    assert (Hb : t * (f - b) <= 1 * (f - b)) by (apply Qmult_le_compat_r; lra).
    split; lra.
Qed.

(** Rounding keeps a number between two bytes. *)
Lemma round_between (q : Q) (lo hi : Z) :
  isByte lo -> isByte hi -> inject_Z lo <= q -> q <= inject_Z hi ->
  (lo <= Qfloor (Qmax 0 (Qmin 255 q) + (1 # 2)) <= hi)%Z.
Proof.
  intros Hlo Hhi Hl Hh.
  destruct (byte_in_range lo Hlo) as [L0 L1], (byte_in_range hi Hhi) as [H0 H1].
  assert (Hc : Qmax 0 (Qmin 255 q) == q) by (apply clamp_inside; lra).
  split.
  - rewrite <- (Qfloor_Z lo). apply Qfloor_resp_le. rewrite Hc. lra.
  - apply Z.le_trans with (Qfloor (inject_Z hi + (1 # 2))).
    + apply Qfloor_resp_le. rewrite Hc. lra.
    + apply Z.eq_le_incl, Qfloor_between; [lra |].
      rewrite inject_Z_plus. change (inject_Z 1) with 1. lra.
Qed.

(** The three colour bytes of a written colour are read back, whatever
    alpha follows them. *)
Lemma parseHex_written (r g b : Z) (tail : jsstring) :
  isByte r -> isByte g -> isByte b -> (length tail = 0 \/ length tail = 2)%nat ->
  exists x, parseHex ([35%Z] ++ byteHex r ++ byteHex g ++ byteHex b ++ tail) = inr x
            /\ rgba_r x = Some (inject_Z r) /\ rgba_g x = Some (inject_Z g)
            /\ rgba_b x = Some (inject_Z b).
Proof.
  intros Hr Hg Hb Ht.
  destruct (byte_spec r Hr) as (r1 & r2 & -> & _ & _ & _ & _ & Pr).
  destruct (byte_spec g Hg) as (g1 & g2 & -> & _ & _ & _ & _ & Pg).
  destruct (byte_spec b Hb) as (b1 & b2 & -> & _ & _ & _ & _ & Pb).
  destruct tail as [| t1 [| t2 [| t3 tail]]]; cbn [length] in Ht; try lia;
    eexists; unfold parseHex;
    cbn [app length Nat.eqb negb andb slice firstn skipn Nat.sub];
    unfold channel; rewrite Pr, Pg, Pb; repeat split.
Qed.

Lemma byteHex_length (k : Z) : isByte k -> length (byteHex k) = 2%nat.
Proof. intros Hk. destruct (byte_spec k Hk) as (d1 & d2 & -> & _). reflexivity. Qed.

Lemma colorMix_between (fg bg : jsstring) (pct : Q) :
  HEX_RE fg = true -> HEX_RE bg = true -> 0 <= pct -> pct <= 100 ->
  exists out mixedColour fgColour bgColour,
    colorMix fg bg pct = inr out
    /\ parseHex out = inr mixedColour
    /\ parseHex fg = inr fgColour /\ parseHex bg = inr bgColour
    /\ betweenNum (rgba_r mixedColour) (rgba_r fgColour) (rgba_r bgColour)
    /\ betweenNum (rgba_g mixedColour) (rgba_g fgColour) (rgba_g bgColour)
    /\ betweenNum (rgba_b mixedColour) (rgba_b fgColour) (rgba_b bgColour).
Proof.
  intros Hf Hb Hp0 Hp1.
  destruct (parseHex_valid fg Hf)
    as (xf & rf & gf & bf & af & Pf & Bf & (qrf & qgf & qbf & F1 & F2 & F3) & Af & _).
  destruct (parseHex_valid bg Hb)
    as (xb & rb & gb & bb & ab & Pb & Bb & (qrb & qgb & qbb & B1 & B2 & B3) & Ab & _).
  destruct Bf as (Rf & Gf & Blf & Sf1 & Sf2 & Sf3 & _).
  destruct Bb as (Rb & Gb & Blb & Sb1 & Sb2 & Sb3 & _).
  rewrite F1 in Sf1. rewrite F2 in Sf2. rewrite F3 in Sf3.
  rewrite B1 in Sb1. rewrite B2 in Sb2. rewrite B3 in Sb3.
  cbn [sameNum] in Sf1, Sf2, Sf3, Sb1, Sb2, Sb3.
  set (t := pct / 100).
  assert (Ht0 : 0 <= t) by (unfold t; apply Qle_shift_div_l; lra).
  assert (Ht1 : t <= 1) by (unfold t; apply Qle_shift_div_r; lra).
  set (round := fun q => Qfloor (Qmax 0 (Qmin 255 q) + (1 # 2))).
  assert (Hmixed : exists alpha : option Q,
            colorMix fg bg pct
            = inr (toHex (mkRGBA (Some (qrb + t * (qrf - qrb))) (Some (qgb + t * (qgf - qgb)))
                                 (Some (qbb + t * (qbf - qbb))) (Some <$> alpha)))).
  { unfold colorMix. rewrite Pf, Pb, F1, F2, F3, B1, B2, B3. cbn [mix]. fold t.
    destruct (rgba_a xf) as [alf |], (rgba_a xb) as [alb |];
      try (destruct (Af alf eq_refl) as [qaf ->]);
      try (destruct (Ab alb eq_refl) as [qab ->]);
      cbn [default mix clamp fmap option_fmap option_map];
      [eexists (Some _) | eexists (Some _) | eexists (Some _) | exists None];
      reflexivity. }
  destruct Hmixed as (alpha & Hmixed).
  rewrite numbers_hold_bytes in Hmixed. fold round in Hmixed.
  assert (Between : forall qf qb kf kb, isByte kf -> isByte kb ->
            qf == inject_Z kf -> qb == inject_Z kb ->
            isByte (round (qb + t * (qf - qb)))
            /\ betweenNum (Some (inject_Z (round (qb + t * (qf - qb))))) (Some qf) (Some qb)).
  { intros qf qb kf kb Kf Kb Ef Eb.
    destruct (mix_between t qf qb Ht0 Ht1) as [Hlo Hhi].
    split; [apply round_range |]. cbn [betweenNum].
    destruct (Z.le_ge_cases kf kb) as [Hle | Hge].
    - assert (Hq : qf <= qb) by (rewrite Ef, Eb, <- Zle_Qle; exact Hle).
      rewrite (Q.min_l qf qb), (Q.max_r qf qb) in * by exact Hq.
      destruct (round_between (qb + t * (qf - qb)) kf kb Kf Kb) as [H1 H2];
        [rewrite <- Ef; exact Hlo | rewrite <- Eb; exact Hhi |].
      fold (round (qb + t * (qf - qb))) in H1, H2.
      rewrite Zle_Qle in H1, H2. split; lra.
    - assert (Hq : qb <= qf) by (rewrite Ef, Eb, <- Zle_Qle; lia).
      rewrite (Q.min_r qf qb), (Q.max_l qf qb) in * by exact Hq.
      destruct (round_between (qb + t * (qf - qb)) kb kf Kb Kf) as [H1 H2];
        [rewrite <- Eb; exact Hlo | rewrite <- Ef; exact Hhi |].
      fold (round (qb + t * (qf - qb))) in H1, H2.
      rewrite Zle_Qle in H1, H2. split; lra. }
  destruct (Between qrf qrb rf rb Rf Rb Sf1 Sb1) as [Kr Br].
  destruct (Between qgf qgb gf gb Gf Gb Sf2 Sb2) as [Kg Bg].
  destruct (Between qbf qbb bf bb Blf Blb Sf3 Sb3) as [Kb' Bb'].
  destruct (parseHex_written _ _ _
              match alpha with
              | Some qa => if Qeq_bool qa 255 then [] else byteHex (round qa)
              | None => []
              end Kr Kg Kb') as (xo & Po & O1 & O2 & O3).
  { destruct alpha as [qa |]; [destruct (Qeq_bool qa 255) |]; cbn [length]; auto.
    right. apply byteHex_length, round_range. }
  eexists _, xo, xf, xb. split; [exact Hmixed |]. split; [exact Po |].
  split; [exact Pf |]. split; [exact Pb |].
  rewrite O1, O2, O3, F1, F2, F3, B1, B2, B3. auto.
Qed.

End ColorMixBetween.

(** X25: for two colours that [HEX_RE] matches and a percentage from 0
    to 100, [colorMix] returns a colour that [parseHex] reads back with
    each of its red, green and blue channels between the channel of the
    foreground and that of the background. *)
Theorem X25_colorMix_stays_between_the_colours (fg bg : jsstring) (pct : Q) :
  Theme.HEX_RE fg = true -> Theme.HEX_RE bg = true -> 0 <= pct -> pct <= 100 ->
  exists out mixedColour fgColour bgColour,
    Theme.colorMix fg bg pct = inr out
    /\ Theme.parseHex out = inr mixedColour
    /\ Theme.parseHex fg = inr fgColour /\ Theme.parseHex bg = inr bgColour
    /\ betweenNum (Theme.rgba_r mixedColour) (Theme.rgba_r fgColour)
                  (Theme.rgba_r bgColour)
    /\ betweenNum (Theme.rgba_g mixedColour) (Theme.rgba_g fgColour)
                  (Theme.rgba_g bgColour)
    /\ betweenNum (Theme.rgba_b mixedColour) (Theme.rgba_b fgColour)
                  (Theme.rgba_b bgColour).
Proof. apply colorMix_between. Qed.

Lemma X25_colorMix_stays_between_the_colours_witness :
  exists out mixedColour,
    Theme.colorMix [35; 50; 55; 50; 55; 50; 65]%Z [35; 70; 70; 70]%Z 30 = inr out
    /\ Theme.parseHex out = inr mixedColour
    /\ betweenNum (Theme.rgba_r mixedColour) (Some 39) (Some 255).
Proof.
  destruct (X25_colorMix_stays_between_the_colours
              [35; 50; 55; 50; 55; 50; 65]%Z [35; 70; 70; 70]%Z 30)
    as (out & xo & xf & xb & Hout & Ho & Hf & Hb & Hr & _);
    [reflexivity | reflexivity | discriminate | discriminate |].
  exists out, xo. split; [exact Hout |]. split; [exact Ho |].
  vm_compute in Hf. injection Hf as <-. vm_compute in Hb. injection Hb as <-.
  exact Hr.
Defined.

Section ArchiMateBandsTight.
Import ArchiMateLayout.

Lemma normalizeLayers_origin bands l :
  In l (normalizeLayers bands) ->
  exists band, In band bands
               /\ pl_name l = pl_name band /\ pl_y l = pl_y band
               /\ pl_height l = pl_height band.
Proof.
  destruct bands as [| l0 ls]; [intros [] |].
  unfold normalizeLayers. intros Hin.
  apply in_map_iff in Hin as (band & <- & Hin).
  exists band. repeat split. exact Hin.
Qed.

(** The band of a layer reaches no further up or down than its elements
    ask for. *)
Lemma layerBand_tight pes layer band :
  layerBand pes layer = Some band ->
  pl_name band = layer
  /\ (exists top, In top pes /\ pe_layer top = layer
                  /\ pe_y top == pl_y band + ARCHIMATE.layerPadding
                                 + ARCHIMATE.layerLabelHeight)
  /\ (exists bottom, In bottom pes /\ pe_layer bottom = layer
                     /\ pe_y bottom + pe_height bottom + ARCHIMATE.layerPadding
                        == pl_y band + pl_height band).
Proof.
  unfold layerBand.
  destruct (List.filter _ pes) as [| el0 els] eqn:Hf; [discriminate |].
  intros [= <-]. cbn [pl_name pl_y pl_height].
  assert (Hmem : forall e, In e (el0 :: els) -> In e pes /\ pe_layer e = layer).
  { intros e He. rewrite <- Hf in He. apply filter_In in He as [H1 H2].
    split; [exact H1 | apply bool_decide_eq_true in H2; exact H2]. }
  unfold ARCHIMATE.layerPadding, ARCHIMATE.layerLabelHeight.
  split; [reflexivity |]. split.
  - destruct (fold_min_attained pe_y els (pe_y el0)) as [E | (e & He & E)].
    + exists el0. destruct (Hmem el0 (or_introl eq_refl)). repeat split; auto. lra.
    + exists e. destruct (Hmem e (or_intror He)). repeat split; auto. lra.
  - destruct (fold_max_attained (fun el => pe_y el + pe_height el) els
                (pe_y el0 + pe_height el0)) as [E | (e & He & E)].
    + exists el0. destruct (Hmem el0 (or_introl eq_refl)). repeat split; auto. lra.
    + exists e. destruct (Hmem e (or_intror He)). repeat split; auto. lra.
Qed.

End ArchiMateBandsTight.

(** X26: every band of an ArchiMate result is named for a layer that
    [layers] lists, and is no higher than its elements ask for: an
    element of that layer lies exactly 20 + 24 below the top of the band
    and one ends exactly 20 above its bottom. *)
Theorem X26_archimate_band_is_tight
    (dagre_layout : ArchiMateLayout.Gr -> string + Laid)
    (diagram : ArchiMateLayout.ArchiMateDiagram)
    (out : ArchiMateLayout.PositionedArchiMateDiagram) :
  ArchiMateLayout.layoutArchiMateDiagram dagre_layout diagram = inr out ->
  forall band, In band (ArchiMateLayout.pd_layers out) ->
    listed diagram (ArchiMateLayout.pl_name band) = true
    /\ (exists top,
          In top (ArchiMateLayout.pd_elements out)
          /\ ArchiMateLayout.pe_layer top = ArchiMateLayout.pl_name band
          /\ ArchiMateLayout.pe_y top == ArchiMateLayout.pl_y band + 20 + 24)
    /\ (exists bottom,
          In bottom (ArchiMateLayout.pd_elements out)
          /\ ArchiMateLayout.pe_layer bottom = ArchiMateLayout.pl_name band
          /\ ArchiMateLayout.pe_y bottom + ArchiMateLayout.pe_height bottom + 20
             == ArchiMateLayout.pl_y band + ArchiMateLayout.pl_height band).
Proof.
  intros H band Hband.
  rewrite (pd_layers_normalized dagre_layout diagram out H) in Hband.
  apply normalizeLayers_origin in Hband as (b0 & Hb0 & Hn & Hy & Hh).
  unfold ArchiMateLayout.layerBands in Hb0.
  apply list_elem_of_In, list_elem_of_omap in Hb0 as (layer & Hlayer & Hb).
  apply list_elem_of_In in Hlayer. rewrite presentLayers_listed in Hlayer.
  apply filter_In in Hlayer as [_ Hlisted].
  destruct (layerBand_tight _ _ _ Hb) as (Hname & Htop & Hbottom).
  rewrite Hn, Hy, Hh, Hname. split; [exact Hlisted |].
  split; [exact Htop | exact Hbottom].
Qed.

Lemma X26_archimate_band_is_tight_witness :
  Forall (fun band => listed layered (ArchiMateLayout.pl_name band) = true)
         (ArchiMateLayout.pd_layers
            (archiMateResult
               (ArchiMateLayout.layoutArchiMateDiagram (dagreLeaves laidLayered) layered))).
Proof.
  apply List.Forall_forall. intros band Hband.
  apply (X26_archimate_band_is_tight (dagreLeaves laidLayered) layered
           (archiMateResult
              (ArchiMateLayout.layoutArchiMateDiagram (dagreLeaves laidLayered) layered))
           ltac:(vm_compute; reflexivity) band Hband).
Defined.
